(** * loadtest: the concurrent client engine of lib/loadtest.js

    A shallow embedding of [HttpClient], [loadTest] and [Operation] from
    lib/loadtest.js, and the properties of the orchestration engine that the
    specification states about them.

    JavaScript runs the program on one thread: every function body below runs
    to completion, and the event loop then delivers the next pending event (a
    transport completion, a timer tick, a timeout).  The embedding follows
    that: the methods are state-passing functions over a [World] that holds
    the heap objects of the run, and [handler] gives the code that one event
    of the loop executes.  Wall-clock time is abstracted: pending events may
    be delivered in any order.  The transport reports every request it was
    given once.  Messages of [log.debug] are left out. *)

From Stdlib Require Import ZArith List String Bool Lia PeanoNat DecimalString.
From Stdlib Require Ascii.

Import ListNotations.

Local Open Scope string_scope.

Local Open Scope Z_scope.

Local Open Scope list_scope.

Set Primitive Projections.

(** ** JavaScript values *)

(** The values that flow through completion callbacks: [error], [result] and
    the error code handed to the latency tracker. *)
Inductive jsval : Type :=
| VUndefined
| VNull
| VBool (b : bool)
| VNum (z : Z)
| VStr (s : string).

Definition nonempty (s : string) : bool :=
  match s with EmptyString => false | String _ _ => true end.

(** ToBoolean. *)
Definition truthy (v : jsval) : bool :=
  match v with
  | VUndefined | VNull => false
  | VBool b => b
  | VNum z => negb (z =? 0)
  | VStr s => nonempty s
  end.

(** A numeric field of the options object: absent, [null] or a number.  The
    code only tests such a field for truthiness, compares it with a counter
    and counts up to it, so numbers are integers here. *)
Inductive optnum : Type :=
| Absent
| Null
| Num (z : Z).

Definition truthy_num (n : optnum) : bool :=
  match n with
  | Num z => negb (z =? 0)
  | Absent | Null => false
  end.

(** An optional string field: absent, or a string (the empty one is falsy). *)
Definition truthy_str (s : option string) : bool :=
  match s with
  | Some s => nonempty s
  | None => false
  end.

(** [a || b] on a numeric field. *)
Definition or_num (a b : optnum) : optnum :=
  if truthy_num a then a else b.

(** [counter == field], the loose equality of a number with a field. *)
Definition loose_eq (counter : Z) (n : optnum) : bool :=
  match n with
  | Num z => counter =? z
  | Absent | Null => false
  end.

(** How many times [for (index = 0; index < field; index++)] runs its body:
    [undefined] converts to NaN and [null] to 0, so the test fails at once. *)
Definition iterations (n : optnum) : nat :=
  match n with
  | Num z => Z.to_nat z
  | Absent | Null => 0%nat
  end.

(** A JavaScript string is given here by its UTF-8 bytes.  [s.length] counts
    the UTF-16 code units of [s]: one for each character of the Basic
    Multilingual Plane and two for each character beyond it.  In UTF-8 a
    character begins with a byte below 128 or from 192 on (from 240 on when
    it lies beyond the plane), and the bytes from 128 to 191 continue one. *)
Definition code_units (c : Ascii.ascii) : nat :=
  let b := Ascii.nat_of_ascii c in
  if (b <? 128)%nat then 1%nat
  else if (b <? 192)%nat then 0%nat
  else if (b <? 240)%nat then 1%nat
  else 2%nat.

Fixpoint js_length (s : string) : nat :=
  match s with
  | EmptyString => 0%nat
  | String c s' => (code_units c + js_length s')%nat
  end.

Definition string_of_nat (n : nat) : string :=
  NilEmpty.string_of_uint (Nat.to_uint n).

Definition string_of_Z (z : Z) : string :=
  NilEmpty.string_of_int (Z.to_int z).

(** ** The options object *)

(** [params.body]: a string, an object (given by its JSON text), or a truthy
    value of another type (a number, [true]), named by its [typeof]. *)
Inductive Body : Type :=
| BodyAbsent
| BodyString (s : string)
| BodyObject (json : string)
| BodyOther (type_of : string).

Definition truthy_body (b : Body) : bool :=
  match b with
  | BodyAbsent => false
  | BodyString s => nonempty s
  | BodyObject _ | BodyOther _ => true
  end.

Record Options : Type := {
  url : option string;
  concurrency : optnum;
  maxRequests : optnum;
  maxSeconds : optnum;
  cookies : option (list string);
  method : option string;
  body : Body;
  contentType : option string;
  requestsPerSecond : optnum;
  noAgent : bool;
  agentKeepAlive : bool;
  indexParam : option string;
  debug : bool;
  quiet : bool
}.

Definition set_concurrency (c : optnum) (o : Options) : Options :=
  {| url := url o; concurrency := c; maxRequests := maxRequests o;
     maxSeconds := maxSeconds o; cookies := cookies o; method := method o;
     body := body o; contentType := contentType o;
     requestsPerSecond := requestsPerSecond o; noAgent := noAgent o;
     agentKeepAlive := agentKeepAlive o; indexParam := indexParam o;
     debug := debug o; quiet := quiet o |}.

Definition set_quiet (q : bool) (o : Options) : Options :=
  {| url := url o; concurrency := concurrency o; maxRequests := maxRequests o;
     maxSeconds := maxSeconds o; cookies := cookies o; method := method o;
     body := body o; contentType := contentType o;
     requestsPerSecond := requestsPerSecond o; noAgent := noAgent o;
     agentKeepAlive := agentKeepAlive o; indexParam := indexParam o;
     debug := debug o; quiet := q |}.

(** ** Collaborators from lib/timing.js *)

(** Modelled from the spec: the Interval Scheduler ([timing.HighResolutionTimer],
    in lib/timing.js).  Constructing one starts it; [stop()] cancels all
    future invocations and is idempotent.  Its ticks are events of the loop. *)
Inductive Timer : Type :=
| Ticking
| Cancelled.

Definition Timer_stop (t : Timer) : Timer := Cancelled.

(** The final aggregate: total count and error count. *)
Record Results : Type := {
  totalRequests : nat;
  totalErrors : nat
}.

(** Modelled from the spec: the Latency Tracker ([timing.Latency], in
    lib/timing.js).  [start()] returns a new identifier; [end(id, errorCode)]
    finalizes the record of [id], and reports an unknown or already finalized
    [id] without altering the counts; [showPartial()] gives the records
    finalized since the last partial snapshot; [getResults()] gives the
    aggregate over the whole run. *)
Record Latency : Type := {
  nextId : nat;
  unfinished : list nat;
  finished : list (nat * jsval);
  shown : nat
}.

Definition Latency_new : Latency :=
  {| nextId := 0; unfinished := []; finished := []; shown := 0 |}.

Definition Latency_start (l : Latency) : nat * Latency :=
  (nextId l,
   {| nextId := S (nextId l); unfinished := unfinished l ++ [nextId l];
      finished := finished l; shown := shown l |}).

Definition is_unfinished (id : nat) (l : Latency) : bool :=
  existsb (Nat.eqb id) (unfinished l).

Definition Latency_end (id : nat) (errorCode : jsval) (l : Latency) : Latency :=
  if is_unfinished id l then
    {| nextId := nextId l;
       unfinished := filter (fun j => negb (Nat.eqb id j)) (unfinished l);
       finished := finished l ++ [(id, errorCode)]; shown := shown l |}
  else l.

Definition is_error (r : nat * jsval) : bool :=
  match snd r with VNull => false | _ => true end.

Definition summary (rs : list (nat * jsval)) : Results :=
  {| totalRequests := List.length rs;
     totalErrors := List.length (filter is_error rs) |}.

Definition Latency_getResults (l : Latency) : Results := summary (finished l).

Definition Latency_showPartial (l : Latency) : Results * Latency :=
  (summary (skipn (shown l) (finished l)),
   {| nextId := nextId l; unfinished := unfinished l; finished := finished l;
      shown := List.length (finished l) |}).

(** ** Clients, the Operation and the world *)

(** The two client constructors [loadTest] chooses from. *)
Inductive Constructor : Type :=
| WebSocketClient
| HttpClient.

Inductive Agent : Type :=
| AgentDefault
| AgentFalse
| AgentKeepAlive.

Inductive HeaderValue : Type :=
| HNum (z : Z)
| HStr (s : string)
| HList (l : list string).

(** The request options an [HttpClient] builds in [init]. *)
Record RequestOptions : Type := {
  target : option string;
  headers : list (string * HeaderValue);
  agent : Agent;
  requestMethod : option string
}.

(** The attributes of a client: [options] and [message] set by [init], and
    [requestTimer], undefined until an open-loop client starts. *)
Record Client : Type := {
  kind : Constructor;
  requestOptions : option RequestOptions;
  message : option string;
  requestTimer : option Timer
}.

(** The attributes of an [Operation], after its constructor arguments. *)
Record Operation : Type := {
  constructor : Constructor;
  callback : bool;
  running : bool;
  latency : option Latency;
  clients : list (nat * Client);
  requests : Z;
  showTimer : option Timer
}.

Inductive LogLevel : Type :=
| INFO
| DEBUG.

(** What the run does, in order: calls on its collaborators and the writes
    of the [running] flag. *)
Inductive Action : Type :=
| LogError (msg : string)
| Help
| HttpRequest (index id : nat) (sent : option string)
| EndUnknown (id : nat)
| ShowPartial (r : Results)
| ShowTimerStop
| RunningFalse
| ClientStop (index : nat)
| FinalCallback (r : Results).

(** The heap and the event loop of one run.  [options] is the one options
    object, shared by [loadTest], the Operation and every client ([params]).
    [inflight] holds the requests given to the transport and not yet
    completed, as (client index, latency id); [starting] the clients whose
    [setTimeout(client.start, offset)] is pending; [deadline] whether
    [setTimeout(stop, ...)] is pending. *)
Record World : Type := {
  options : Options;
  operation : option Operation;
  logLevel : LogLevel;
  inflight : list (nat * nat);
  starting : list nat;
  deadline : bool;
  trace : list Action
}.

Definition boot (o : Options) : World :=
  {| options := o; operation := None; logLevel := INFO; inflight := [];
     starting := []; deadline := false; trace := [] |}.

Inductive Exn : Type :=
| ReferenceError (name : string)
| TypeError (msg : string).

(** A function body either returns or throws; both leave a world behind. *)
Inductive Result (A : Type) : Type :=
| Ok (a : A) (w : World)
| Throw (e : Exn) (w : World).

Arguments Ok {A} a w.
Arguments Throw {A} e w.

Definition M (A : Type) : Type := World -> Result A.

Definition ret {A} (a : A) : M A := fun w => Ok a w.

Definition bind {A B} (m : M A) (k : A -> M B) : M B :=
  fun w => match m w with
           | Ok a w' => k a w'
           | Throw e w' => Throw e w'
           end.

Definition throw {A} (e : Exn) : M A := fun w => Throw e w.

Notation "x <- m ;; k" := (bind m (fun x => k))
  (at level 61, m at next level, right associativity).

Notation "m ;; k" := (bind m (fun _ => k))
  (at level 61, right associativity).

Definition getOptions : M Options := fun w => Ok (options w) w.

Definition setOptions (o : Options) : M unit := fun w =>
  Ok tt {| options := o; operation := operation w; logLevel := logLevel w;
           inflight := inflight w; starting := starting w;
           deadline := deadline w; trace := trace w |}.

Definition getOp : M Operation := fun w =>
  match operation w with
  | Some op => Ok op w
  | None => Throw (TypeError "operation is undefined") w
  end.

Definition setOp (op : Operation) : M unit := fun w =>
  Ok tt {| options := options w; operation := Some op; logLevel := logLevel w;
           inflight := inflight w; starting := starting w;
           deadline := deadline w; trace := trace w |}.

Definition setLogLevel (l : LogLevel) : M unit := fun w =>
  Ok tt {| options := options w; operation := operation w; logLevel := l;
           inflight := inflight w; starting := starting w;
           deadline := deadline w; trace := trace w |}.

Definition setInflight (l : list (nat * nat)) : M unit := fun w =>
  Ok tt {| options := options w; operation := operation w;
           logLevel := logLevel w; inflight := l; starting := starting w;
           deadline := deadline w; trace := trace w |}.

Definition setStarting (l : list nat) : M unit := fun w =>
  Ok tt {| options := options w; operation := operation w;
           logLevel := logLevel w; inflight := inflight w; starting := l;
           deadline := deadline w; trace := trace w |}.

Definition setDeadline (b : bool) : M unit := fun w =>
  Ok tt {| options := options w; operation := operation w;
           logLevel := logLevel w; inflight := inflight w;
           starting := starting w; deadline := b; trace := trace w |}.

Definition emit (a : Action) : M unit := fun w =>
  Ok tt {| options := options w; operation := operation w;
           logLevel := logLevel w; inflight := inflight w;
           starting := starting w; deadline := deadline w;
           trace := trace w ++ [a] |}.

Fixpoint forEach {A} (l : list A) (f : A -> M unit) : M unit :=
  match l with
  | [] => ret tt
  | x :: l' => f x ;; forEach l' f
  end.

(** Updates of single attributes of the Operation. *)
Definition with_running (b : bool) (op : Operation) : Operation :=
  {| constructor := constructor op; callback := callback op; running := b;
     latency := latency op; clients := clients op; requests := requests op;
     showTimer := showTimer op |}.

Definition with_latency (l : option Latency) (op : Operation) : Operation :=
  {| constructor := constructor op; callback := callback op;
     running := running op; latency := l; clients := clients op;
     requests := requests op; showTimer := showTimer op |}.

Definition with_clients (cs : list (nat * Client)) (op : Operation) : Operation :=
  {| constructor := constructor op; callback := callback op;
     running := running op; latency := latency op; clients := cs;
     requests := requests op; showTimer := showTimer op |}.

Definition with_requests (n : Z) (op : Operation) : Operation :=
  {| constructor := constructor op; callback := callback op;
     running := running op; latency := latency op; clients := clients op;
     requests := n; showTimer := showTimer op |}.

Definition with_showTimer (t : option Timer) (op : Operation) : Operation :=
  {| constructor := constructor op; callback := callback op;
     running := running op; latency := latency op; clients := clients op;
     requests := requests op; showTimer := t |}.

(** [clients[index]] and [clients[index] = client] on the object used as a
    map; [for (index in clients)] visits the keys in the order kept here. *)
Fixpoint lookup (index : nat) (cs : list (nat * Client)) : option Client :=
  match cs with
  | [] => None
  | (i, c) :: cs' => if Nat.eqb i index then Some c else lookup index cs'
  end.

Fixpoint assign (index : nat) (c : Client) (cs : list (nat * Client))
  : list (nat * Client) :=
  match cs with
  | [] => [(index, c)]
  | (i, c') :: cs' =>
      if Nat.eqb i index then (i, c) :: cs' else (i, c') :: assign index c cs'
  end.

Definition keys (cs : list (nat * Client)) : list nat := map fst cs.

Definition getClient (index : nat) : M Client :=
  op <- getOp ;;
  match lookup index (clients op) with
  | Some c => ret c
  | None => throw (TypeError "client is undefined")
  end.

Definition setClient (index : nat) (c : Client) : M unit :=
  op <- getOp ;;
  setOp (with_clients (assign index c (clients op)) op).

(** ** HttpClient *)

(** [init()]: the request options and the message to send.  A truthy body
    that is neither a string nor an object is logged and leaves [message]
    undefined, and reading [message.length] then throws.  Content-Length is
    [message.length], the number of UTF-16 code units of the message. *)
Definition init (params : Options) : M (RequestOptions * option string) :=
  let agent1 := if noAgent params then AgentFalse else AgentDefault in
  let agent2 := if agentKeepAlive params then AgentKeepAlive else agent1 in
  let method1 := if truthy_str (method params) then method params else None in
  hm <- (if truthy_body (body params) then
           msg <- match body params with
                  | BodyString s => ret (Some s)
                  | BodyObject json => ret (Some json)
                  | BodyOther t =>
                      emit (LogError ("Unrecognized body: " ++ t)%string) ;; ret None
                  | BodyAbsent => ret None
                  end ;;
           match msg with
           | None =>
               throw (TypeError "Cannot read property 'length' of undefined")
           | Some m =>
               let ct := if truthy_str (contentType params)
                         then contentType params else Some "text/plain" in
               ret ([("Content-Length", HNum (Z.of_nat (js_length m)));
                     ("Content-Type",
                      match ct with Some s => HStr s | None => HStr "text/plain" end)],
                    Some m)
           end
         else ret ([], None)) ;;
  let hs := match cookies params with
            | Some cs => fst hm ++ [("Set-Cookie", HList cs)]
            | None => fst hm
            end in
  ret ({| target := url params; headers := hs; agent := agent2;
          requestMethod := method1 |}, snd hm).

(** [new constructor(self, options)].
    Modelled from the spec: the WebSocket client (lib/websocket.js) exposes
    the same operation contract as the HTTP client and differs only in how
    one exchange is carried out; it keeps no HTTP request options. *)
Definition Client_new (ctor : Constructor) : M Client :=
  params <- getOptions ;;
  match ctor with
  | HttpClient =>
      om <- init params ;;
      ret {| kind := HttpClient; requestOptions := Some (fst om);
             message := snd om; requestTimer := None |}
  | WebSocketClient =>
      ret {| kind := WebSocketClient; requestOptions := None;
             message := None; requestTimer := None |}
  end.

Definition with_requestTimer (t : option Timer) (c : Client) : Client :=
  {| kind := kind c; requestOptions := requestOptions c; message := message c;
     requestTimer := t |}.

(** [operation.latency.start(id)]. *)
Definition latency_start : M nat :=
  op <- getOp ;;
  match latency op with
  | None => throw (TypeError "Cannot read property 'start' of null")
  | Some l =>
      setOp (with_latency (Some (snd (Latency_start l))) op) ;;
      ret (fst (Latency_start l))
  end.

(** [operation.latency.end(id, errorCode)]. *)
Definition latency_end (id : nat) (errorCode : jsval) : M unit :=
  op <- getOp ;;
  match latency op with
  | None => throw (TypeError "Cannot read property 'end' of null")
  | Some l =>
      (if is_unfinished id l then ret tt else emit (EndUnknown id)) ;;
      setOp (with_latency (Some (Latency_end id errorCode l)) op)
  end.

(** [http.request(options, ...)], [request.write(message)] when there is a
    message, and [request.end()]: one request is handed to the transport. *)
Definition http_request (index id : nat) (msg : option string) : M unit :=
  fun w =>
    Ok tt {| options := options w; operation := operation w;
             logLevel := logLevel w; inflight := inflight w ++ [(index, id)];
             starting := starting w; deadline := deadline w;
             trace := trace w ++ [HttpRequest index id msg] |}.

(** [self.makeRequest]. *)
Definition makeRequest (index : nat) : M unit :=
  op <- getOp ;;
  if negb (running op) then ret tt
  else
    id <- latency_start ;;
    c <- getClient index ;;
    http_request index id (message c).

(** [self.start]. *)
Definition Client_start (index : nat) : M unit :=
  params <- getOptions ;;
  if negb (truthy_num (requestsPerSecond params)) then makeRequest index
  else
    c <- getClient index ;;
    setClient index (with_requestTimer (Some Ticking) c).

(** [self.stop]. *)
Definition Client_stop (index : nat) : M unit :=
  emit (ClientStop index) ;;
  c <- getClient index ;;
  match requestTimer c with
  | Some t => setClient index (with_requestTimer (Some (Timer_stop t)) c)
  | None => ret tt
  end.

(** ** Operation *)

(** [stop()]. *)
Definition stop : M unit :=
  op <- getOp ;;
  match showTimer op with
  | Some t => setOp (with_showTimer (Some (Timer_stop t)) op) ;; emit ShowTimerStop
  | None => ret tt
  end ;;
  op <- getOp ;;
  setOp (with_running false op) ;;
  emit RunningFalse ;;
  op <- getOp ;;
  forEach (keys (clients op)) Client_stop ;;
  op <- getOp ;;
  if callback op then
    match latency op with
    | None => throw (TypeError "Cannot read property 'getResults' of null")
    | Some l => emit (FinalCallback (Latency_getResults l))
    end
  else ret tt.

(** [self.callback(error, result, next)].  Past [maxRequests] the code only
    writes a debug message. *)
Definition Operation_callback (error result : jsval) (next : option (M unit))
  : M unit :=
  op <- getOp ;;
  setOp (with_requests (requests op + 1) op) ;;
  o <- getOptions ;;
  (if truthy_num (maxRequests o) then
     op <- getOp ;;
     if loose_eq (requests op) (maxRequests o) then stop else ret tt
   else ret tt) ;;
  op <- getOp ;;
  match next with
  | Some k => if running op then k else ret tt
  | None => ret tt
  end.

(** The function [getRequestFinisher(id)] returns, for the client [index]. *)
Definition requestFinished (index id : nat) (error result : jsval) : M unit :=
  let errorCode :=
    if truthy error then (if truthy result then result else VStr "-1")
    else VNull in
  latency_end id errorCode ;;
  params <- getOptions ;;
  let callback :=
    if negb (truthy_num (requestsPerSecond params))
    then Some (makeRequest index) else None in
  Operation_callback error result callback.

(** What the transport reports for one request: an error on the request, an
    error on the connection, or the end of a response with its status. *)
Inductive Completion : Type :=
| RequestFailed (message : string)
| ConnectionFailed (error : string)
| ResponseEnded (statusCode : Z).

(** The listeners [makeRequest] and [getConnect] register. *)
Definition completed (index id : nat) (c : Completion) : M unit :=
  match c with
  | RequestFailed msg =>
      requestFinished index id (VStr ("Connection error: " ++ msg)%string) VUndefined
  | ConnectionFailed err =>
      requestFinished index id
        (VStr ("Connection " ++ string_of_nat id ++ " failed: " ++ err)%string)
        (VStr "1")
  | ResponseEnded statusCode =>
      if 300 <=? statusCode then
        requestFinished index id
          (VStr ("Status code " ++ string_of_Z statusCode)%string) (VNum statusCode)
      else requestFinished index id VNull (VBool false)
  end.

(** [startClients()]: the body of the loop for one [index]. *)
Definition startClients_body (index : nat) : M unit :=
  o <- getOptions ;;
  (if truthy_str (indexParam o)
   then throw (ReferenceError "indexParam") else ret tt) ;;
  op <- getOp ;;
  client <- Client_new (constructor op) ;;
  setClient index client ;;
  (if negb (truthy_num (requestsPerSecond o)) then Client_start index
   else fun w => setStarting (starting w ++ [index]) w).

(** The loop, [count] turns from [index] on.  The bound
    [options.concurrency] does not change while the loop runs. *)
Fixpoint startClients_loop (count index : nat) : M unit :=
  match count with
  | O => ret tt
  | S count' => startClients_body index ;; startClients_loop count' (S index)
  end.

Definition startClients : M unit :=
  o <- getOptions ;;
  startClients_loop (iterations (concurrency o)) 0.

(** [self.start]. *)
Definition Operation_start : M unit :=
  op <- getOp ;;
  setOp (with_latency (Some Latency_new) op) ;;
  startClients ;;
  o <- getOptions ;;
  (if truthy_num (maxSeconds o) then setDeadline true else ret tt) ;;
  op <- getOp ;;
  setOp (with_showTimer (Some Ticking) op).

(** [new Operation(options, constructor, callback)]. *)
Definition Operation_new (ctor : Constructor) (cb : bool) : M unit :=
  setOp {| constructor := ctor; callback := cb; running := true;
           latency := None; clients := []; requests := 0;
           showTimer := None |}.

(** ** loadTest *)

(** [exports.loadTest(options, callback)]; [cb] tells whether a callback was
    given.  The options object is the one of the world. *)
Definition loadTest (cb : bool) : M unit :=
  o <- getOptions ;;
  if negb (truthy_str (url o)) then emit (LogError "Missing URL in options")
  else
    let u := match url o with Some s => s | None => EmptyString end in
    match (if prefix "ws://" u then Some WebSocketClient
           else if prefix "http" u then Some HttpClient
           else None) with
    | None => emit Help
    | Some ctor =>
        setOptions (set_concurrency (or_num (concurrency o) (Num 1)) o) ;;
        (if debug o then setLogLevel DEBUG else ret tt) ;;
        (if cb then o' <- getOptions ;; setOptions (set_quiet true o')
         else ret tt) ;;
        Operation_new ctor cb ;;
        Operation_start
    end.

(** ** The event loop *)

Inductive Event : Type :=
| Complete (index id : nat) (c : Completion)
| RequestTick (index : nat)
| DelayedStart (index : nat)
| Deadline
| ShowTick.

Definition same_request (index id : nat) (r : nat * nat) : bool :=
  Nat.eqb (fst r) index && Nat.eqb (snd r) id.

Definition ticking (t : option Timer) : bool :=
  match t with Some Ticking => true | _ => false end.

(** An event can be delivered when its source is pending: the request is in
    flight, the timer is ticking, the timeout has not fired yet. *)
Definition enabled (e : Event) (w : World) : bool :=
  match e with
  | Complete index id _ => existsb (same_request index id) (inflight w)
  | RequestTick index =>
      match operation w with
      | Some op =>
          match lookup index (clients op) with
          | Some c => ticking (requestTimer c)
          | None => false
          end
      | None => false
      end
  | DelayedStart index => existsb (Nat.eqb index) (starting w)
  | Deadline => deadline w
  | ShowTick =>
      match operation w with
      | Some op => ticking (showTimer op)
      | None => false
      end
  end.

(** [self.latency.showPartial], the action of the show timer. *)
Definition showPartial : M unit :=
  op <- getOp ;;
  match latency op with
  | None => throw (TypeError "Cannot read property 'showPartial' of null")
  | Some l =>
      setOp (with_latency (Some (snd (Latency_showPartial l))) op) ;;
      emit (ShowPartial (fst (Latency_showPartial l)))
  end.

(** The code one event runs.  A completion leaves the transport first; a
    timeout fires once. *)
Definition handler (e : Event) : M unit :=
  match e with
  | Complete index id c =>
      (fun w =>
         setInflight
           (filter (fun r => negb (same_request index id r)) (inflight w)) w) ;;
      completed index id c
  | RequestTick index => makeRequest index
  | DelayedStart index =>
      (fun w =>
         setStarting (filter (fun i => negb (Nat.eqb index i)) (starting w)) w) ;;
      Client_start index
  | Deadline => setDeadline false ;; stop
  | ShowTick => showPartial
  end.

(** One turn of the loop.  There is no next world when the event is not
    pending, or when its handler throws (nothing catches it). *)
Definition step (e : Event) (w : World) : option World :=
  if enabled e w then
    match handler e w with
    | Ok _ w' => Some w'
    | Throw _ _ => None
    end
  else None.

Fixpoint run (es : list Event) (w : World) : option World :=
  match es with
  | [] => Some w
  | e :: es' =>
      match step e w with
      | Some w' => run es' w'
      | None => None
      end
  end.

(** The world [loadTest(options, callback)] leaves when it returns with an
    Operation started. *)
Definition launched (o : Options) (cb : bool) : option World :=
  match loadTest cb (boot o) with
  | Ok _ w =>
      match operation w with
      | Some _ => Some w
      | None => None
      end
  | Throw _ _ => None
  end.

(** * The command line *)

(** [parseArgument], [addCookie] and [exports.run].  The values the command
    line puts into the options object are the argument strings themselves
    (and what [parseFloat] makes of one), so the options have their own
    record here; [run] ends where it calls [exports.loadTest]. *)
Module CommandLine.

(** [parseFloat(s)], not interpreted. *)
Inductive Float : Type :=
| parseFloat (s : string).

(** [options.concurrency]: the number of [DEFAULT_OPTIONS], or the text that
    followed [-c]. *)
Inductive Count : Type :=
| Number (z : Z)
| Text (s : string).

(** The options object [run] fills.  A flag that is only ever set to [true]
    is [false] while it is absent. *)
Record Options : Type := {
  noAgent : bool;
  concurrency : Count;
  maxRequests : option string;
  maxSeconds : option string;
  cookies : option (list string);
  contentType : option string;
  method : option string;
  body : option string;
  recover : bool;
  requestsPerSecond : option Float;
  agentKeepAlive : bool;
  quiet : bool;
  debug : bool;
  url : option string
}.

Definition DEFAULT_OPTIONS : Options :=
  {| noAgent := true; concurrency := Number 1; maxRequests := None;
     maxSeconds := None; cookies := None; contentType := None; method := None;
     body := None; recover := false; requestsPerSecond := None;
     agentKeepAlive := false; quiet := false; debug := false; url := None |}.

Definition set_maxRequests (v : option string) (o : Options) : Options :=
  {| noAgent := noAgent o; concurrency := concurrency o; maxRequests := v;
     maxSeconds := maxSeconds o; cookies := cookies o;
     contentType := contentType o; method := method o; body := body o;
     recover := recover o; requestsPerSecond := requestsPerSecond o;
     agentKeepAlive := agentKeepAlive o; quiet := quiet o; debug := debug o;
     url := url o |}.

Definition set_concurrency (v : Count) (o : Options) : Options :=
  {| noAgent := noAgent o; concurrency := v; maxRequests := maxRequests o;
     maxSeconds := maxSeconds o; cookies := cookies o;
     contentType := contentType o; method := method o; body := body o;
     recover := recover o; requestsPerSecond := requestsPerSecond o;
     agentKeepAlive := agentKeepAlive o; quiet := quiet o; debug := debug o;
     url := url o |}.

Definition set_maxSeconds (v : option string) (o : Options) : Options :=
  {| noAgent := noAgent o; concurrency := concurrency o;
     maxRequests := maxRequests o; maxSeconds := v; cookies := cookies o;
     contentType := contentType o; method := method o; body := body o;
     recover := recover o; requestsPerSecond := requestsPerSecond o;
     agentKeepAlive := agentKeepAlive o; quiet := quiet o; debug := debug o;
     url := url o |}.

Definition set_cookies (v : option (list string)) (o : Options) : Options :=
  {| noAgent := noAgent o; concurrency := concurrency o;
     maxRequests := maxRequests o; maxSeconds := maxSeconds o; cookies := v;
     contentType := contentType o; method := method o; body := body o;
     recover := recover o; requestsPerSecond := requestsPerSecond o;
     agentKeepAlive := agentKeepAlive o; quiet := quiet o; debug := debug o;
     url := url o |}.

Definition set_contentType (v : option string) (o : Options) : Options :=
  {| noAgent := noAgent o; concurrency := concurrency o;
     maxRequests := maxRequests o; maxSeconds := maxSeconds o;
     cookies := cookies o; contentType := v; method := method o;
     body := body o; recover := recover o;
     requestsPerSecond := requestsPerSecond o;
     agentKeepAlive := agentKeepAlive o; quiet := quiet o; debug := debug o;
     url := url o |}.

Definition set_method (v : option string) (o : Options) : Options :=
  {| noAgent := noAgent o; concurrency := concurrency o;
     maxRequests := maxRequests o; maxSeconds := maxSeconds o;
     cookies := cookies o; contentType := contentType o; method := v;
     body := body o; recover := recover o;
     requestsPerSecond := requestsPerSecond o;
     agentKeepAlive := agentKeepAlive o; quiet := quiet o; debug := debug o;
     url := url o |}.

Definition set_body (v : option string) (o : Options) : Options :=
  {| noAgent := noAgent o; concurrency := concurrency o;
     maxRequests := maxRequests o; maxSeconds := maxSeconds o;
     cookies := cookies o; contentType := contentType o; method := method o;
     body := v; recover := recover o;
     requestsPerSecond := requestsPerSecond o;
     agentKeepAlive := agentKeepAlive o; quiet := quiet o; debug := debug o;
     url := url o |}.

Definition set_recover (v : bool) (o : Options) : Options :=
  {| noAgent := noAgent o; concurrency := concurrency o;
     maxRequests := maxRequests o; maxSeconds := maxSeconds o;
     cookies := cookies o; contentType := contentType o; method := method o;
     body := body o; recover := v;
     requestsPerSecond := requestsPerSecond o;
     agentKeepAlive := agentKeepAlive o; quiet := quiet o; debug := debug o;
     url := url o |}.

Definition set_requestsPerSecond (v : option Float) (o : Options) : Options :=
  {| noAgent := noAgent o; concurrency := concurrency o;
     maxRequests := maxRequests o; maxSeconds := maxSeconds o;
     cookies := cookies o; contentType := contentType o; method := method o;
     body := body o; recover := recover o; requestsPerSecond := v;
     agentKeepAlive := agentKeepAlive o; quiet := quiet o; debug := debug o;
     url := url o |}.

Definition set_noAgent (v : bool) (o : Options) : Options :=
  {| noAgent := v; concurrency := concurrency o;
     maxRequests := maxRequests o; maxSeconds := maxSeconds o;
     cookies := cookies o; contentType := contentType o; method := method o;
     body := body o; recover := recover o;
     requestsPerSecond := requestsPerSecond o;
     agentKeepAlive := agentKeepAlive o; quiet := quiet o; debug := debug o;
     url := url o |}.

Definition set_agentKeepAlive (v : bool) (o : Options) : Options :=
  {| noAgent := noAgent o; concurrency := concurrency o;
     maxRequests := maxRequests o; maxSeconds := maxSeconds o;
     cookies := cookies o; contentType := contentType o; method := method o;
     body := body o; recover := recover o;
     requestsPerSecond := requestsPerSecond o; agentKeepAlive := v;
     quiet := quiet o; debug := debug o; url := url o |}.

Definition set_quiet (v : bool) (o : Options) : Options :=
  {| noAgent := noAgent o; concurrency := concurrency o;
     maxRequests := maxRequests o; maxSeconds := maxSeconds o;
     cookies := cookies o; contentType := contentType o; method := method o;
     body := body o; recover := recover o;
     requestsPerSecond := requestsPerSecond o;
     agentKeepAlive := agentKeepAlive o; quiet := v; debug := debug o;
     url := url o |}.

Definition set_debug (v : bool) (o : Options) : Options :=
  {| noAgent := noAgent o; concurrency := concurrency o;
     maxRequests := maxRequests o; maxSeconds := maxSeconds o;
     cookies := cookies o; contentType := contentType o; method := method o;
     body := body o; recover := recover o;
     requestsPerSecond := requestsPerSecond o;
     agentKeepAlive := agentKeepAlive o; quiet := quiet o; debug := v;
     url := url o |}.

Definition set_url (v : option string) (o : Options) : Options :=
  {| noAgent := noAgent o; concurrency := concurrency o;
     maxRequests := maxRequests o; maxSeconds := maxSeconds o;
     cookies := cookies o; contentType := contentType o; method := method o;
     body := body o; recover := recover o;
     requestsPerSecond := requestsPerSecond o;
     agentKeepAlive := agentKeepAlive o; quiet := quiet o; debug := debug o;
     url := v |}.

(** What the program writes on the console: the three error messages, with
    the values they show, and the usage text of [help()]. *)
Inductive Console : Type :=
| UnknownOption (argument : string)
| MissingURL
| UnknownArguments (args : list string)
| Usage.

(** [addCookie(cookie, options)]. *)
Definition addCookie (cookie : string) (o : Options) : Options :=
  match cookies o with
  | None => set_cookies (Some [cookie]) o
  | Some cs => set_cookies (Some (cs ++ [cookie])) o
  end.

(** A call either returns, or an exception of [fs.readFileSync] passes
    through it; both leave the arguments still to parse, the options and
    the console behind. *)
Inductive Parse : Type :=
| Returns (more : bool) (args : list string) (options : Options)
          (console : list Console)
| Throws (path : string) (args : list string) (options : Options)
         (console : list Console).

(** [parseArgument(args, options)].  [fs] gives the contents of a file, or
    nothing when reading it throws.  With two arguments or more,
    [args.shift()] takes the first, and the second one too when the option
    has a value. *)
Definition parseArgument (fs : string -> option string) (args : list string)
           (options : Options) (console : list Console) : Parse :=
  match args with
  | [] | [_] => Returns false args options console
  | argument :: value :: rest =>
      if negb (prefix "-" argument) then Returns false args options console
      else if (argument =? "-n")%string then
        Returns true rest (set_maxRequests (Some value) options) console
      else if (argument =? "-c")%string then
        Returns true rest (set_concurrency (Text value) options) console
      else if (argument =? "-t")%string then
        Returns true rest (set_maxSeconds (Some value) options) console
      else if (argument =? "-C")%string then
        Returns true rest (addCookie value options) console
      else if (argument =? "-T")%string then
        Returns true rest (set_contentType (Some value) options) console
      else if (argument =? "-p")%string then
        match fs value with
        | Some contents =>
            Returns true rest
                    (set_body (Some contents) (set_method (Some "POST") options))
                    console
        | None => Throws value rest (set_method (Some "POST") options) console
        end
      else if (argument =? "-u")%string then
        match fs value with
        | Some contents =>
            Returns true rest
                    (set_body (Some contents) (set_method (Some "PUT") options))
                    console
        | None => Throws value rest (set_method (Some "PUT") options) console
        end
      else if (argument =? "-r")%string then
        Returns true (value :: rest) (set_recover true options) console
      else if (argument =? "--rps")%string then
        Returns true rest
                (set_requestsPerSecond (Some (parseFloat value)) options) console
      else if (argument =? "--noagent")%string then
        Returns true (value :: rest) options console
      else if (argument =? "--agent")%string then
        Returns true (value :: rest) (set_noAgent false options) console
      else if (argument =? "--keepalive")%string then
        Returns true (value :: rest) (set_agentKeepAlive true options) console
      else if (argument =? "--quiet")%string then
        Returns true (value :: rest) (set_quiet true options) console
      else if (argument =? "--debug")%string then
        Returns true (value :: rest) (set_debug true options) console
      else
        Returns false (value :: rest) options (console ++ [UnknownOption argument])
  end.

(** [while (parseArgument(args, options)) {}], at most [turns] turns. *)
Fixpoint parseArguments (fs : string -> option string) (turns : nat)
         (args : list string) (options : Options) (console : list Console)
  : Parse :=
  match turns with
  | O => Returns false args options console
  | S turns' =>
      match parseArgument fs args options console with
      | Returns true args' options' console' =>
          parseArguments fs turns' args' options' console'
      | stopped => stopped
      end
  end.

(** How [run] ends: it calls [exports.loadTest(options)], or shows the
    usage, or lets the exception through. *)
Inductive Outcome : Type :=
| Calls (options : Options) (console : list Console)
| Refuses (options : Options) (console : list Console)
| Raises (path : string) (options : Options) (console : list Console).

(** [exports.run(args)], with the state of [DEFAULT_OPTIONS] it finds; the
    options it ends with are that same object.  Every turn of the loop but
    the last takes an argument away, so as many turns as there are
    arguments are enough. *)
Definition run (fs : string -> option string) (args : list string)
           (defaults : Options) : Outcome :=
  match parseArguments fs (List.length args) args defaults [] with
  | Throws path _ options console => Raises path options console
  | Returns _ [] options console =>
      Refuses options (console ++ [MissingURL; Usage])
  | Returns _ [u] options console => Calls (set_url (Some u) options) console
  | Returns _ rest options console =>
      Refuses options (console ++ [UnknownArguments rest; Usage])
  end.

End CommandLine.

(** * The vocabulary of the properties *)

(** ** What the methods do *)

(** What [stop] does to one client: a timer that exists is stopped. *)
Definition cancel (c : Client) : Client :=
  match requestTimer c with
  | Some t => with_requestTimer (Some (Timer_stop t)) c
  | None => c
  end.

Definition mentions (j : nat) (ks : list nat) : bool := existsb (Nat.eqb j) ks.

(** The Operation [stop] leaves, with the clients it has stopped. *)
Definition stopped (op : Operation) (cs' : list (nat * Client)) : Operation :=
  {| constructor := constructor op; callback := callback op; running := false;
     latency := latency op; clients := cs'; requests := requests op;
     showTimer := match showTimer op with
                  | Some t => Some (Timer_stop t)
                  | None => None
                  end |}.

(** What one call of [stop] does, in order. *)
Definition stop_actions (op : Operation) : list Action :=
  (match showTimer op with Some _ => [ShowTimerStop] | None => [] end)
  ++ [RunningFalse]
  ++ map ClientStop (keys (clients op))
  ++ (if callback op then
        match latency op with
        | Some l => [FinalCallback (Latency_getResults l)]
        | None => []
        end
      else []).

(** ** Requests and completions *)

Definition is_request (a : Action) : bool :=
  match a with HttpRequest _ _ _ => true | _ => false end.

Definition is_final (a : Action) : bool :=
  match a with FinalCallback _ => true | _ => false end.

(** How many requests the run has handed to the transport, and how many
    times it has called the result callback. *)
Definition dispatched (w : World) : nat := List.length (filter is_request (trace w)).

Definition finals (w : World) : nat := List.length (filter is_final (trace w)).

(** The error code [getRequestFinisher] computes from [error] and [result]. *)
Definition errorCode_of (error result : jsval) : jsval :=
  if truthy error then (if truthy result then result else VStr "-1") else VNull.

(** Whether this completion is the one that makes the counter equal to
    [maxRequests]. *)
Definition reaches (o : Options) (op : Operation) : bool :=
  truthy_num (maxRequests o) && loose_eq (requests op + 1) (maxRequests o).

(** Whether the completion hook goes on to the client's next request. *)
Definition continues (o : Options) (op : Operation) : bool :=
  running op && negb (reaches o op) && negb (truthy_num (requestsPerSecond o)).

(** The Operation when the completion hook tests the stop condition. *)
Definition counted (id : nat) (code : jsval) (l : Latency) (op : Operation)
  : Operation :=
  with_requests (requests op + 1) (with_latency (Some (Latency_end id code l)) op).

Definition sent_by (index : nat) (cs : list (nat * Client)) : option string :=
  match lookup index cs with
  | Some c => message c
  | None => None
  end.

(** Everything one call of the request finisher does. *)
Record finisher_effect (index id : nat) (code : jsval) (w : World)
       (op : Operation) (l : Latency) (w' : World) (op' : Operation)
       (l' : Latency) : Prop := {
  fe_operation : operation w' = Some op';
  fe_latency : latency op' = Some l';
  fe_options : options w' = options w;
  fe_logLevel : logLevel w' = logLevel w;
  fe_starting : starting w' = starting w;
  fe_deadline : deadline w' = deadline w;
  fe_constructor : constructor op' = constructor op;
  fe_callback : callback op' = callback op;
  fe_requests : requests op' = requests op + 1;
  fe_running : running op' = running op && negb (reaches (options w) op);
  fe_finished : finished l' = finished (Latency_end id code l);
  fe_unfinished :
    unfinished l' =
      unfinished (Latency_end id code l)
      ++ (if continues (options w) op
          then [nextId (Latency_end id code l)] else []);
  fe_nextId :
    nextId l' =
      if continues (options w) op
      then S (nextId (Latency_end id code l))
      else nextId (Latency_end id code l);
  fe_inflight :
    inflight w' =
      inflight w ++ (if continues (options w) op then [(index, nextId l)] else []);
  fe_keys : keys (clients op') = keys (clients op);
  fe_clients :
    forall j, lookup j (clients op') =
              if reaches (options w) op
              then option_map cancel (lookup j (clients op))
              else lookup j (clients op);
  fe_showTimer :
    showTimer op' =
      if reaches (options w) op then option_map Timer_stop (showTimer op)
      else showTimer op;
  fe_trace :
    trace w' =
      trace w
      ++ (if is_unfinished id l then [] else [EndUnknown id])
      ++ (if reaches (options w) op
          then stop_actions (counted id code l op) else [])
      ++ (if continues (options w) op
          then [HttpRequest index (nextId l) (sent_by index (clients op))]
          else [])
}.

(** The error code of each kind of completion. *)
Definition completion_code (c : Completion) : jsval :=
  match c with
  | RequestFailed _ => VStr "-1"
  | ConnectionFailed _ => VStr "1"
  | ResponseEnded statusCode =>
      if 300 <=? statusCode then VNum statusCode else VNull
  end.

(** The world once the transport has given up the request. *)
Definition removed (index id : nat) (w : World) : World :=
  {| options := options w; operation := operation w; logLevel := logLevel w;
     inflight := filter (fun r => negb (same_request index id r)) (inflight w);
     starting := starting w; deadline := deadline w; trace := trace w |}.

(** The world once the timeout of a delayed start has fired. *)
Definition started (index : nat) (w : World) : World :=
  {| options := options w; operation := operation w; logLevel := logLevel w;
     inflight := inflight w;
     starting := filter (fun i => negb (Nat.eqb index i)) (starting w);
     deadline := deadline w; trace := trace w |}.

(** ** The state of a run *)

Definition count (p : Action -> bool) (t : list Action) : nat :=
  List.length (filter p t).

Definition is_running (w : World) : bool :=
  match operation w with Some op => running op | None => false end.

(** The completed-request counter of the Operation. *)
Definition completed_count (w : World) : Z :=
  match operation w with Some op => requests op | None => 0 end.

(** The clients the Operation has created. *)
Definition created (w : World) : list nat :=
  match operation w with Some op => keys (clients op) | None => [] end.

(** The requests of one client that are in flight. *)
Definition inflight_of (index : nat) (w : World) : nat :=
  List.length (filter (fun r => Nat.eqb (fst r) index) (inflight w)).

(** The deadline trigger has fired: [maxSeconds] was set and its timeout is
    no longer pending. *)
Definition fired (w : World) : bool :=
  truthy_num (maxSeconds (options w)) && negb (deadline w).

(** The request trigger has fired: the counter has reached [maxRequests]. *)
Definition reached (w : World) : bool :=
  match maxRequests (options w) with
  | Num n => (0 <? n) && (n <=? completed_count w)
  | Absent | Null => false
  end.

Definition closed_loop (w : World) : bool :=
  negb (truthy_num (requestsPerSecond (options w))).

Definition timerless (cs : list (nat * Client)) : Prop :=
  forall j c, lookup j cs = Some c -> requestTimer c = None.

(** The requests in flight and the latency tracker agree: every request in
    flight has an unfinished record, identifiers are not reused, and two
    requests in flight never share one. *)
Record tracked (w : World) (l : Latency) : Prop := {
  tk_ids : forall r, In r (inflight w) -> In (snd r) (unfinished l);
  tk_fresh : forall id, In id (unfinished l) -> (id < nextId l)%nat;
  tk_nodup : NoDup (map snd (inflight w))
}.

(** What holds of every world a launched run goes through. *)
Record sound (o : Options) (cb : bool) (w : World) (op : Operation)
       (l : Latency) : Prop := {
  so_operation : operation w = Some op;
  so_latency : latency op = Some l;
  so_options : options w = o;
  so_callback : callback op = cb;
  so_requests : 0 <= requests op;
  so_tracked : tracked w l;
  so_inflight : forall r, In r (inflight w) -> In (fst r) (keys (clients op));
  so_starting : forall i, In i (starting w) -> In i (keys (clients op));
  so_deadline : deadline w = true -> truthy_num (maxSeconds o) = true;
  so_running : running op = negb (fired w || reached w);
  so_finals :
    finals w = if cb then (Nat.b2n (fired w) + Nat.b2n (reached w))%nat else 0%nat;
  so_closed :
    closed_loop w = true ->
    starting w = [] /\ timerless (clients op)
    /\ forall j, (inflight_of j w <= 1)%nat
                 /\ (running op = true -> In j (keys (clients op)) ->
                     inflight_of j w = 1%nat)
}.

(** One turn of the loop, seen from the world before it. *)
Definition follows (o : Options) (cb : bool) (w : World) (op : Operation)
           (w' : World) : Prop :=
  exists op' l',
    sound o cb w' op' l'
    /\ keys (clients op') = keys (clients op)
    /\ requests op <= requests op' <= requests op + 1
    /\ (running op = false ->
        running op' = false /\ dispatched w' = dispatched w
        /\ forall j, (inflight_of j w' <= inflight_of j w)%nat).

Definition of_client (j : nat) (rs : list (nat * nat)) : nat :=
  List.length (filter (fun r => Nat.eqb (fst r) j) rs).

(** ** Launching a run *)

(** Whether [init] can build the message: the body, when there is one, is a
    string or an object. *)
Definition body_ok (o : Options) : bool :=
  match body o with
  | BodyOther _ => false
  | _ => true
  end.

(** The state of the Operation while [startClients] has created the clients
    below [index]. *)
Record starting_up (o : Options) (ctor : Constructor) (cb : bool)
       (index : nat) (w : World) (op : Operation) (l : Latency) : Prop := {
  su_operation : operation w = Some op;
  su_latency : latency op = Some l;
  su_options : options w = o;
  su_constructor : constructor op = ctor;
  su_callback : callback op = cb;
  su_running : running op = true;
  su_requests : requests op = 0;
  su_showTimer : showTimer op = None;
  su_keys : keys (clients op) = seq 0 index;
  su_timerless : timerless (clients op);
  su_deadline : deadline w = false;
  su_finals : finals w = 0%nat;
  su_tracked : tracked w l;
  su_inflight : forall r, In r (inflight w) -> (fst r < index)%nat;
  su_starting : forall i, In i (starting w) -> (i < index)%nat;
  su_closed :
    closed_loop w = true ->
    starting w = []
    /\ forall j, inflight_of j w = if (j <? index)%nat then 1%nat else 0%nat;
  su_open : closed_loop w = false -> inflight w = [] /\ starting w = seq 0 index
}.

(** The world in which [operation.start()] is called: a new Operation and
    nothing pending. *)
Definition fresh (o : Options) (ctor : Constructor) (cb : bool)
           (lvl : LogLevel) : World :=
  {| options := o;
     operation := Some {| constructor := ctor; callback := cb; running := true;
                          latency := None; clients := []; requests := 0;
                          showTimer := None |};
     logLevel := lvl; inflight := []; starting := []; deadline := false;
     trace := [] |}.

(** What [loadTest] has set up when it returns: the run is sound, the
    Operation is running with one client per index below [concurrency], the
    show timer ticks and the deadline is pending when [maxSeconds] is set. *)
Record set_up (o : Options) (ctor : Constructor) (cb : bool) (w : World)
       (op : Operation) (l : Latency) : Prop := {
  up_sound : sound o cb w op l;
  up_constructor : constructor op = ctor;
  up_running : running op = true;
  up_requests : requests op = 0;
  up_clients : keys (clients op) = seq 0 (iterations (concurrency o));
  up_showTimer : showTimer op = Some Ticking;
  up_deadline : deadline w = truthy_num (maxSeconds o)
}.

(** The constructor [loadTest] chooses for the URL, if it accepts it. *)
Definition chosen (o : Options) : option Constructor :=
  if truthy_str (url o) then
    let u := match url o with Some s => s | None => EmptyString end in
    if prefix "ws://" u then Some WebSocketClient
    else if prefix "http" u then Some HttpClient
    else None
  else None.

(** The options as [loadTest] hands them to the Operation. *)
Definition resolved (o : Options) (cb : bool) : Options :=
  let o1 := set_concurrency (or_num (concurrency o) (Num 1)) o in
  if cb then set_quiet true o1 else o1.

(** A world of a run of [loadTest(o, callback)]: launched, then some turns
    of the loop. *)
Definition reachable (o : Options) (cb : bool) (w : World) : Prop :=
  exists w0 es, launched o cb = Some w0 /\ run es w0 = Some w.

(** ** Runs for the examples *)

(** Options for a local server; the runs below vary the concurrency, the
    stop conditions and the request rate. *)
Definition localhost (c mr ms rps : optnum) : Options :=
  {| url := Some "http://localhost:8080/"; concurrency := c; maxRequests := mr;
     maxSeconds := ms; cookies := None; method := None; body := BodyAbsent;
     contentType := None; requestsPerSecond := rps; noAgent := true;
     agentKeepAlive := false; indexParam := None; debug := false;
     quiet := false |}.

Definition set_url (u : option string) (o : Options) : Options :=
  {| url := u; concurrency := concurrency o; maxRequests := maxRequests o;
     maxSeconds := maxSeconds o; cookies := cookies o; method := method o;
     body := body o; contentType := contentType o;
     requestsPerSecond := requestsPerSecond o; noAgent := noAgent o;
     agentKeepAlive := agentKeepAlive o; indexParam := indexParam o;
     debug := debug o; quiet := quiet o |}.

Definition set_indexParam (p : option string) (o : Options) : Options :=
  {| url := url o; concurrency := concurrency o; maxRequests := maxRequests o;
     maxSeconds := maxSeconds o; cookies := cookies o; method := method o;
     body := body o; contentType := contentType o;
     requestsPerSecond := requestsPerSecond o; noAgent := noAgent o;
     agentKeepAlive := agentKeepAlive o; indexParam := p;
     debug := debug o; quiet := quiet o |}.

(** The world a run is in after the events [es], when it gets there. *)
Definition after (o : Options) (cb : bool) (es : list Event) : option World :=
  match launched o cb with
  | Some w0 => run es w0
  | None => None
  end.

(** The order of the shutdown steps in the words of the specification: the
    running flag first, then the show timer, the clients and the callback. *)
Definition spec_stop_actions (op : Operation) : list Action :=
  [RunningFalse]
  ++ (match showTimer op with Some _ => [ShowTimerStop] | None => [] end)
  ++ map ClientStop (keys (clients op))
  ++ (if callback op then
        match latency op with
        | Some l => [FinalCallback (Latency_getResults l)]
        | None => []
        end
      else []).

(** A run of two closed-loop clients that stops at three requests or after
    a minute, with a result callback. *)
Definition two_clients : Options :=
  localhost (Num 2) (Num 3) (Num 60) Absent.

Definition the_world (ow : option World) : World :=
  match ow with
  | Some w => w
  | None => boot two_clients
  end.

(** The run of [two_clients] once three requests have completed. *)
Definition three_completed : World :=
  Eval vm_compute in
    the_world (after two_clients true
                 [Complete 0 0 (ResponseEnded 200);
                  Complete 1 1 (ResponseEnded 500);
                  Complete 0 2 (RequestFailed "ECONNRESET")]).

(** The same run once the last request in flight has completed and the
    deadline has passed. *)
Definition all_over : World :=
  Eval vm_compute in
    the_world (run [Complete 1 3 (ResponseEnded 200); Deadline] three_completed).

(** A run of one open-loop client, five requests per second. *)
Definition paced : Options := localhost (Num 1) (Num 10) Absent (Num 5).

Definition paced_in_flight : World :=
  Eval vm_compute in
    the_world (after paced false [DelayedStart 0; RequestTick 0; RequestTick 0]).

Definition paced_completed : World :=
  Eval vm_compute in
    the_world (step (Complete 0 1 (ResponseEnded 200)) paced_in_flight).

Definition two_clients_launched : World :=
  Eval vm_compute in the_world (launched two_clients true).

Definition one_completed : World :=
  Eval vm_compute in
    the_world (after two_clients true [Complete 0 0 (ResponseEnded 200)]).

Definition two_completed : World :=
  Eval vm_compute in
    the_world (after two_clients true
                 [Complete 0 0 (ResponseEnded 200);
                  Complete 1 1 (ResponseEnded 500)]).

(** A run of one closed-loop client that stops at one request or after one
    second, with a result callback. *)
Definition both_triggers : Options :=
  localhost (Num 1) (Num 1) (Num 1) Absent.

Definition both_fired : World :=
  Eval vm_compute in
    the_world (after both_triggers true
                 [Complete 0 0 (ResponseEnded 200); Deadline]).

(** ** The command line *)

(** The options that stand alone, and those that take the next argument as
    their value. *)
Definition is_flag (argument : string) : bool :=
  existsb (String.eqb argument)
          ["-r"; "--noagent"; "--agent"; "--keepalive"; "--quiet"; "--debug"].

Definition takes_value (argument : string) : bool :=
  existsb (String.eqb argument)
          ["-n"; "-c"; "-t"; "-C"; "-T"; "-p"; "-u"; "--rps"].

(** Whether the value of an option can be used: the value of [-p] and of
    [-u] names a file, which must be there to be read. *)
Definition readable (fs : string -> option string) (argument value : string)
  : bool :=
  if (argument =? "-p")%string || (argument =? "-u")%string then
    match fs value with
    | Some _ => true
    | None => false
    end
  else true.

(** Arguments that are options from the first to the last: stand-alone
    flags, and options that take a value, each followed by its value. *)
Fixpoint accepted (fs : string -> option string) (args : list string) : bool :=
  match args with
  | [] => true
  | argument :: rest =>
      if is_flag argument then accepted fs rest
      else if takes_value argument then
        match rest with
        | [] => false
        | value :: rest' => readable fs argument value && accepted fs rest'
        end
      else false
  end.

(** The options an outcome of [run] leaves in [DEFAULT_OPTIONS]. *)
Definition options_of (out : CommandLine.Outcome) : CommandLine.Options :=
  match out with
  | CommandLine.Calls o _ => o
  | CommandLine.Refuses o _ => o
  | CommandLine.Raises _ o _ => o
  end.

Definition given_cookies (o : CommandLine.Options) : list string :=
  match CommandLine.cookies o with
  | Some cs => cs
  | None => []
  end.

(** What no argument undoes: a flag that is set, agents turned on, the
    cookies already given. *)
Definition keeps (o o' : CommandLine.Options) : Prop :=
  (CommandLine.debug o = true -> CommandLine.debug o' = true)
  /\ (CommandLine.quiet o = true -> CommandLine.quiet o' = true)
  /\ (CommandLine.agentKeepAlive o = true -> CommandLine.agentKeepAlive o' = true)
  /\ (CommandLine.recover o = true -> CommandLine.recover o' = true)
  /\ (CommandLine.noAgent o = false -> CommandLine.noAgent o' = false)
  /\ exists more, given_cookies o' = given_cookies o ++ more.

(** A body comes with the method that sends it. *)
Definition body_has_method (o : CommandLine.Options) : Prop :=
  CommandLine.body o <> None ->
  CommandLine.method o = Some "POST" \/ CommandLine.method o = Some "PUT".

(** A file system with one file, for the examples. *)
Definition one_file (path : string) : option string :=
  if (path =? "body.json")%string then Some "{}" else None.

(** ** The books of a run *)

(** The client [new constructor(self, options)] makes of the options [o]. *)
Definition built (ctor : Constructor) (o : Options) : option Client :=
  match Client_new ctor (boot o) with
  | Ok c _ => Some c
  | Throw _ _ => None
  end.

(** The message an HTTP client takes from the body: the string itself, or
    the JSON text of the object. *)
Definition payload (o : Options) : option string :=
  match body o with
  | BodyString s => if nonempty s then Some s else None
  | BodyObject json => Some json
  | BodyAbsent | BodyOther _ => None
  end.

Definition is_completion (e : Event) : bool :=
  match e with Complete _ _ _ => true | _ => false end.

Definition completions (es : list Event) : nat :=
  List.length (filter is_completion es).

(** A client without its request timer: what [init] has set. *)
Definition as_built (c : Client) : Client := with_requestTimer None c.

(** What one turn of the loop does to the books: [t] is what it adds to the
    trace. *)
Record turn (e : Event) (w : World) (op : Operation) (l : Latency)
       (w' : World) (op' : Operation) (l' : Latency) (t : list Action)
  : Prop := {
  tn_operation : operation w' = Some op';
  tn_latency : latency op' = Some l';
  tn_options : options w' = options w;
  tn_trace : trace w' = trace w ++ t;
  tn_requests :
    requests op' = requests op + (if is_completion e then 1 else 0);
  tn_finished :
    Z.of_nat (List.length (finished l'))
    = Z.of_nat (List.length (finished l)) + (if is_completion e then 1 else 0);
  tn_inflight :
    Z.of_nat (List.length (inflight w')) + (if is_completion e then 1 else 0)
    = Z.of_nat (List.length (inflight w)) + Z.of_nat (count is_request t);
  tn_sent :
    forall i id s, In (HttpRequest i id s) t ->
                   exists c, lookup i (clients op) = Some c /\ s = message c;
  tn_clients :
    forall j, option_map as_built (lookup j (clients op'))
              = option_map as_built (lookup j (clients op));
  tn_results :
    forall r, In (FinalCallback r) t ->
              totalRequests r = List.length (finished l')
              /\ running op' = false;
  tn_running : running op' = true -> running op = true;
  tn_showTimer :
    showTimer op' = showTimer op
    \/ showTimer op' = option_map Timer_stop (showTimer op);
  tn_stopping :
    running op = true -> running op' = false ->
    showTimer op' = option_map Timer_stop (showTimer op)
    /\ forall j, lookup j (clients op')
                 = option_map cancel (lookup j (clients op));
  tn_quiet : running op' = false -> count is_request t = 0%nat
}.

(** The books of a run of [loadTest] with the options [o] and the client
    constructor [ctor]: every client is as [init] built it, every request
    carries its message, and the requests handed to the transport are those
    in flight and those completed. *)
Record ledger (ctor : Constructor) (o : Options) (w : World) (op : Operation)
       (l : Latency) : Prop := {
  lg_clients :
    forall j c, lookup j (clients op) = Some c ->
                built ctor o = Some (as_built c);
  lg_sent :
    forall i id s, In (HttpRequest i id s) (trace w) ->
                   exists c, built ctor o = Some c /\ s = message c;
  lg_dispatched :
    Z.of_nat (dispatched w) = Z.of_nat (List.length (inflight w)) + requests op;
  lg_finished : Z.of_nat (List.length (finished l)) = requests op;
  lg_results :
    forall r, In (FinalCallback r) (trace w) ->
              Z.of_nat (totalRequests r) <= requests op;
  lg_showTimer : running op = false -> ticking (showTimer op) = false
}.

(** The world [startClients] has left when [Operation.start] goes on: the
    deadline is set and the show timer started. *)
Definition under_way (o : Options) (w1 : World) (op1 : Operation) : World :=
  {| options := options w1;
     operation := Some (with_showTimer (Some Ticking) op1);
     logLevel := logLevel w1; inflight := inflight w1;
     starting := starting w1; deadline := truthy_num (maxSeconds o);
     trace := trace w1 |}.

(** ** More runs for the examples *)

Definition set_body (b : Body) (o : Options) : Options :=
  {| url := url o; concurrency := concurrency o; maxRequests := maxRequests o;
     maxSeconds := maxSeconds o; cookies := cookies o; method := method o;
     body := b; contentType := contentType o;
     requestsPerSecond := requestsPerSecond o; noAgent := noAgent o;
     agentKeepAlive := agentKeepAlive o; indexParam := indexParam o;
     debug := debug o; quiet := quiet o |}.

Definition set_cookies (cs : option (list string)) (o : Options) : Options :=
  {| url := url o; concurrency := concurrency o; maxRequests := maxRequests o;
     maxSeconds := maxSeconds o; cookies := cs; method := method o;
     body := body o; contentType := contentType o;
     requestsPerSecond := requestsPerSecond o; noAgent := noAgent o;
     agentKeepAlive := agentKeepAlive o; indexParam := indexParam o;
     debug := debug o; quiet := quiet o |}.

(** The records the latency tracker has finalized. *)
Definition recorded (w : World) : nat :=
  match operation w with
  | Some op =>
      match latency op with
      | Some l => List.length (finished l)
      | None => 0%nat
      end
  | None => 0%nat
  end.

(** The client [index] of the world [w]. *)
Definition client (index : nat) (w : World) : option Client :=
  match operation w with
  | Some op => lookup index (clients op)
  | None => None
  end.

(** The euro sign, U+20AC: three bytes in UTF-8, one UTF-16 code unit. *)
Definition euro : string :=
  String (Ascii.ascii_of_nat 226)
    (String (Ascii.ascii_of_nat 130)
       (String (Ascii.ascii_of_nat 172) EmptyString)).

(** A run of one closed-loop client that posts a form. *)
Definition posting : Options :=
  set_cookies (Some ["session=1"])
    (set_body (BodyString ("total=5" ++ euro)%string)
              (localhost (Num 1) Absent Absent Absent)).

Definition posted : World :=
  Eval vm_compute in
    the_world (after posting false [Complete 0 0 (ResponseEnded 200)]).

(** A body that is neither a string nor an object. *)
Definition numeric_body : Options :=
  set_body (BodyOther "number") (localhost (Num 2) Absent Absent Absent).


(** Two open-loop clients and one request to complete: the second client is
    still waiting for its start when the run stops. *)
Definition hasty : Options := localhost (Num 2) (Num 1) Absent (Num 5).

Definition hasty_stopped : World :=
  Eval vm_compute in
    the_world (after hasty false
                 [DelayedStart 0; RequestTick 0; Complete 0 0 (ResponseEnded 200)]).

(** * Lemmas *)

(** The methods are unfolded where a proof asks for it, and only there. *)
Arguments makeRequest : simpl never.
Arguments latency_start : simpl never.
Arguments latency_end : simpl never.
Arguments http_request : simpl never.
Arguments Client_start : simpl never.
Arguments Client_stop : simpl never.
Arguments Client_new : simpl never.
Arguments stop : simpl never.
Arguments Operation_callback : simpl never.
Arguments requestFinished : simpl never.
Arguments completed : simpl never.
Arguments startClients : simpl never.
Arguments Operation_start : simpl never.
Arguments showPartial : simpl never.

(** A goal that is a hypothesis up to computation. *)
Ltac by_hyp := match goal with H : _ |- _ => exact H end.

(** Unfolding of the state-passing plumbing. *)
Ltac plumb :=
  cbv beta iota delta
    [bind ret throw emit getOp setOp getOptions setOptions setLogLevel
     setInflight setStarting setDeadline getClient setClient];
  simpl.

(** ** The client map *)

Lemma lookup_assign (k : nat) (c : Client) (cs : list (nat * Client)) (j : nat) :
  lookup j (assign k c cs) = if Nat.eqb k j then Some c else lookup j cs.
Proof.
  induction cs as [|[i c'] cs IH]; simpl.
  - reflexivity.
  - destruct (Nat.eqb i k) eqn:Eik; simpl.
    + apply Nat.eqb_eq in Eik; subst i.
      destruct (Nat.eqb k j); reflexivity.
    + destruct (Nat.eqb i j) eqn:Eij.
      * apply Nat.eqb_eq in Eij; subst i.
        rewrite Nat.eqb_sym, Eik. reflexivity.
      * exact IH.
Qed.

Lemma keys_assign (k : nat) (c : Client) (cs : list (nat * Client)) :
  lookup k cs <> None -> keys (assign k c cs) = keys cs.
Proof.
  induction cs as [|[i c'] cs IH]; simpl; intros H.
  - congruence.
  - destruct (Nat.eqb i k) eqn:Eik; simpl.
    + reflexivity.
    + f_equal. apply IH. exact H.
Qed.

Lemma lookup_keys (j : nat) (cs : list (nat * Client)) :
  lookup j cs <> None <-> In j (keys cs).
Proof.
  induction cs as [|[i c] cs IH]; simpl.
  - split; [congruence | tauto].
  - destruct (Nat.eqb i j) eqn:Eij.
    + apply Nat.eqb_eq in Eij. split; [auto | congruence].
    + apply Nat.eqb_neq in Eij. rewrite IH. split; [auto | intros [H|H]; tauto].
Qed.

Lemma cancel_cancel (c : Client) : cancel (cancel c) = cancel c.
Proof. unfold cancel. destruct (requestTimer c) eqn:E; simpl; [reflexivity | now rewrite E]. Qed.

(** ** stop *)

Lemma Client_stop_spec (k : nat) (w : World) (op : Operation) (c : Client) :
  operation w = Some op -> lookup k (clients op) = Some c ->
  Client_stop k w =
    Ok tt {| options := options w;
             operation := Some (with_clients
                                  (match requestTimer c with
                                   | Some _ => assign k (cancel c) (clients op)
                                   | None => clients op
                                   end) op);
             logLevel := logLevel w; inflight := inflight w;
             starting := starting w; deadline := deadline w;
             trace := trace w ++ [ClientStop k] |}.
Proof.
  intros Hop Hc.
  unfold Client_stop. plumb. rewrite Hop. plumb. rewrite Hc. plumb.
  unfold cancel. destruct (requestTimer c) eqn:Et; reflexivity.
Qed.

(** The loop of [stop] over the clients: every visited client is stopped,
    each call is recorded, and nothing else changes. *)
Lemma forEach_Client_stop (ks : list nat) :
  forall (w : World) (op : Operation),
    operation w = Some op ->
    (forall k, In k ks -> lookup k (clients op) <> None) ->
    exists cs',
      forEach ks Client_stop w =
        Ok tt {| options := options w;
                 operation := Some (with_clients cs' op);
                 logLevel := logLevel w; inflight := inflight w;
                 starting := starting w; deadline := deadline w;
                 trace := trace w ++ map ClientStop ks |}
      /\ keys cs' = keys (clients op)
      /\ forall j, lookup j cs' =
                   if mentions j ks then option_map cancel (lookup j (clients op))
                   else lookup j (clients op).
Proof.
  induction ks as [|k ks IH]; intros w op Hop Hin.
  - exists (clients op). simpl. unfold ret.
    rewrite app_nil_r. repeat split.
    destruct w as [o oo ll inf st dl tr]. simpl in *. subst oo. reflexivity.
  - destruct (lookup k (clients op)) as [c|] eqn:Hc.
    2:{ exfalso. apply (Hin k); [left; reflexivity | exact Hc]. }
    simpl forEach. unfold bind at 1.
    rewrite (Client_stop_spec k w op c Hop Hc).
    set (cs1 := match requestTimer c with
                | Some _ => assign k (cancel c) (clients op)
                | None => clients op
                end).
    assert (Hk1 : keys cs1 = keys (clients op)).
    { unfold cs1. destruct (requestTimer c); [|reflexivity].
      apply keys_assign. congruence. }
    assert (Hl1 : forall j, lookup j cs1 =
                            if Nat.eqb k j then Some (cancel c)
                            else lookup j (clients op)).
    { intros j. unfold cs1. destruct (requestTimer c) eqn:Et.
      - apply lookup_assign.
      - destruct (Nat.eqb k j) eqn:Ekj; [|reflexivity].
        apply Nat.eqb_eq in Ekj; subst j. rewrite Hc.
        unfold cancel. now rewrite Et. }
    match goal with
    | |- context [forEach ks Client_stop ?w1] =>
        destruct (IH w1 (with_clients cs1 op) eq_refl) as (cs' & Hrun & Hk & Hl)
    end.
    { intros k' Hk'. simpl. apply lookup_keys. rewrite Hk1.
      apply lookup_keys. apply Hin. right. exact Hk'. }
    exists cs'. split; [|split].
    + rewrite Hrun. simpl. rewrite <- app_assoc. reflexivity.
    + rewrite Hk. simpl. exact Hk1.
    + intros j. rewrite Hl. simpl. unfold mentions. simpl.
      rewrite Hl1. rewrite (Nat.eqb_sym j k).
      destruct (Nat.eqb k j) eqn:Ekj; simpl.
      * apply Nat.eqb_eq in Ekj; subst j. rewrite Hc. simpl.
        destruct (existsb (Nat.eqb k) ks); simpl; [now rewrite cancel_cancel | reflexivity].
      * reflexivity.
Qed.

Lemma mentions_keys (j : nat) (cs : list (nat * Client)) :
  lookup j cs <> None -> mentions j (keys cs) = true.
Proof.
  intros H. apply lookup_keys in H. unfold mentions.
  apply existsb_exists. exists j. split; [exact H | apply Nat.eqb_refl].
Qed.

Lemma stop_spec (w : World) (op : Operation) :
  operation w = Some op ->
  (callback op = true -> latency op <> None) ->
  exists cs',
    stop w =
      Ok tt {| options := options w; operation := Some (stopped op cs');
               logLevel := logLevel w; inflight := inflight w;
               starting := starting w; deadline := deadline w;
               trace := trace w ++ stop_actions op |}
    /\ keys cs' = keys (clients op)
    /\ forall j, lookup j cs' = option_map cancel (lookup j (clients op)).
Proof.
  intros Hop Hlat.
  unfold stop. plumb. rewrite Hop. plumb.
  unfold stop_actions, stopped.
  destruct (showTimer op) as [t|] eqn:Et; plumb; try rewrite Hop; plumb;
    (match goal with
     | |- context [forEach ?ks Client_stop ?w1] =>
         destruct (forEach_Client_stop ks w1 _ eq_refl) as (cs' & Hrun & Hk & Hl);
         [ intros k Hin; apply lookup_keys; exact Hin | ]
     end);
    simpl in Hrun, Hk, Hl; rewrite Hrun; plumb;
    exists cs'; (split; [|split; [exact Hk|]]).
  - cbv [with_clients with_running with_showTimer]; simpl.
    rewrite ?Et.
    destruct (callback op) eqn:Ecb; simpl.
    + destruct (latency op) as [l|] eqn:El; [|exfalso; now apply Hlat].
      simpl. rewrite <- !app_assoc. reflexivity.
    + rewrite app_nil_r, <- !app_assoc. reflexivity.
  - intros j. rewrite Hl.
    destruct (lookup j (clients op)) as [c|] eqn:Ej; [|now destruct (mentions _ _)].
    rewrite mentions_keys; [reflexivity | congruence].
  - cbv [with_clients with_running with_showTimer]; simpl.
    rewrite ?Et.
    destruct (callback op) eqn:Ecb; simpl.
    + destruct (latency op) as [l|] eqn:El; [|exfalso; now apply Hlat].
      simpl. rewrite <- !app_assoc. reflexivity.
    + rewrite app_nil_r, <- !app_assoc. reflexivity.
  - intros j. rewrite Hl.
    destruct (lookup j (clients op)) as [c|] eqn:Ej; [|now destruct (mentions _ _)].
    rewrite mentions_keys; [reflexivity | congruence].
Qed.

(** ** Requests and completions *)

Lemma makeRequest_stopped (index : nat) (w : World) (op : Operation) :
  operation w = Some op -> running op = false -> makeRequest index w = Ok tt w.
Proof.
  intros Hop Hr. unfold makeRequest. plumb. rewrite Hop. plumb. rewrite Hr.
  reflexivity.
Qed.

Lemma makeRequest_running (index : nat) (w : World) (op : Operation)
      (l : Latency) (c : Client) :
  operation w = Some op -> running op = true -> latency op = Some l ->
  lookup index (clients op) = Some c ->
  makeRequest index w =
    Ok tt {| options := options w;
             operation := Some (with_latency (Some (snd (Latency_start l))) op);
             logLevel := logLevel w;
             inflight := inflight w ++ [(index, nextId l)];
             starting := starting w; deadline := deadline w;
             trace := trace w ++ [HttpRequest index (nextId l) (message c)] |}.
Proof.
  intros Hop Hr Hl Hc. unfold makeRequest, latency_start, http_request.
  plumb. rewrite Hop. plumb. rewrite Hr. plumb. rewrite Hop. plumb.
  rewrite Hl. plumb. rewrite Hc. reflexivity.
Qed.

Lemma nextId_Latency_end (id : nat) (code : jsval) (l : Latency) :
  nextId (Latency_end id code l) = nextId l.
Proof. unfold Latency_end. destruct (is_unfinished id l); reflexivity. Qed.

Lemma bind_Ok {A B} (m : M A) (k : A -> M B) (w w' : World) (a : A) :
  m w = Ok a w' -> bind m k w = k a w'.
Proof. intros H. unfold bind. now rewrite H. Qed.

Lemma latency_end_spec (id : nat) (code : jsval) (w : World) (op : Operation)
      (l : Latency) :
  operation w = Some op -> latency op = Some l ->
  latency_end id code w =
    Ok tt {| options := options w;
             operation := Some (with_latency (Some (Latency_end id code l)) op);
             logLevel := logLevel w; inflight := inflight w;
             starting := starting w; deadline := deadline w;
             trace := trace w
                      ++ (if is_unfinished id l then [] else [EndUnknown id]) |}.
Proof.
  intros Hop Hl. unfold latency_end. plumb. rewrite Hop. plumb. rewrite Hl.
  destruct (is_unfinished id l); plumb; rewrite ?app_nil_r; reflexivity.
Qed.

(** The completion hook, by cases: the counter reaches [maxRequests] and
    [stop] runs; or the run goes on and [next], when given and the Operation
    is running, is invoked. *)
Lemma Operation_callback_reaches (error result : jsval) (next : option (M unit))
      (w : World) (op : Operation) :
  operation w = Some op ->
  (callback op = true -> latency op <> None) ->
  reaches (options w) op = true ->
  exists cs',
    Operation_callback error result next w =
      Ok tt {| options := options w;
               operation :=
                 Some (stopped (with_requests (requests op + 1) op) cs');
               logLevel := logLevel w; inflight := inflight w;
               starting := starting w; deadline := deadline w;
               trace := trace w
                        ++ stop_actions (with_requests (requests op + 1) op) |}
    /\ keys cs' = keys (clients op)
    /\ forall j, lookup j cs' = option_map cancel (lookup j (clients op)).
Proof.
  intros Hop Hlat Hhit. unfold reaches in Hhit.
  apply andb_prop in Hhit. destruct Hhit as [Em Ee].
  unfold Operation_callback. plumb. rewrite Hop. plumb. rewrite Em. plumb.
  rewrite Ee.
  match goal with
  | |- context [stop ?w1] =>
      destruct (stop_spec w1 _ eq_refl) as (cs' & Hstop & Hk & Hlk);
      [ exact Hlat | rewrite Hstop ]
  end.
  exists cs'. split; [|split; [exact Hk | exact Hlk]].
  simpl. destruct next; reflexivity.
Qed.

Lemma Operation_callback_goes_on (error result : jsval) (next : option (M unit))
      (w : World) (op : Operation) :
  operation w = Some op ->
  reaches (options w) op = false ->
  Operation_callback error result next w =
    let w1 := {| options := options w;
                 operation := Some (with_requests (requests op + 1) op);
                 logLevel := logLevel w; inflight := inflight w;
                 starting := starting w; deadline := deadline w;
                 trace := trace w |} in
    match next with
    | Some k => if running op then k w1 else Ok tt w1
    | None => Ok tt w1
    end.
Proof.
  intros Hop Hhit. unfold reaches in Hhit.
  unfold Operation_callback. plumb. rewrite Hop. plumb.
  destruct (truthy_num (maxRequests (options w))); simpl in Hhit; plumb.
  - rewrite Hhit. plumb. destruct next; [destruct (running op)|]; reflexivity.
  - destruct next; [destruct (running op)|]; reflexivity.
Qed.

Lemma requestFinished_effect (index id : nat) (error result : jsval)
      (w : World) (op : Operation) (l : Latency) :
  operation w = Some op -> latency op = Some l ->
  lookup index (clients op) <> None ->
  exists w' op' l',
    requestFinished index id error result w = Ok tt w'
    /\ finisher_effect index id (errorCode_of error result) w op l w' op' l'.
Proof.
  intros Hop Hl Hc.
  destruct (lookup index (clients op)) as [c|] eqn:Ec; [clear Hc | congruence].
  unfold requestFinished. fold (errorCode_of error result).
  set (code := errorCode_of error result).
  rewrite (bind_Ok _ _ _ _ _ (latency_end_spec id code w op l Hop Hl)).
  unfold getOptions at 1. unfold bind at 1. cbv beta iota.
  assert (Hsent : sent_by index (clients op) = message c).
  { unfold sent_by. now rewrite Ec. }
  match goal with
  | |- context [Operation_callback _ _ ?next ?wl] =>
      set (nxt := next); set (w1 := wl)
  end.
  set (op1 := with_latency (Some (Latency_end id code l)) op).
  assert (Hop1 : operation w1 = Some op1) by reflexivity.
  destruct (reaches (options w) op) eqn:Ehit.
  - (* the counter reaches maxRequests: stop() runs, nothing continues *)
    destruct (Operation_callback_reaches error result nxt w1 op1 Hop1)
      as (cs' & Hcb & Hk & Hlk).
    { intros _. simpl. congruence. }
    { exact Ehit. }
    rewrite Hcb.
    eexists _, _, (Latency_end id code l). split; [reflexivity|].
    constructor; simpl; try reflexivity; unfold continues;
      rewrite ?Ehit; simpl; rewrite ?andb_false_r; simpl;
      rewrite ?app_nil_r; try reflexivity.
    + exact Hk.
    + exact Hlk.
    + rewrite <- app_assoc. reflexivity.
  - (* the run goes on *)
    rewrite (Operation_callback_goes_on error result nxt w1 op1 Hop1 Ehit).
    cbv zeta. unfold nxt. simpl.
    destruct (truthy_num (requestsPerSecond (options w))) eqn:Erps; simpl.
    + (* open loop: no continue callback *)
      eexists _, _, (Latency_end id code l). split; [reflexivity|].
      constructor; simpl; try reflexivity; unfold continues;
        rewrite ?Ehit, ?Erps; simpl;
        rewrite ?andb_false_r, ?andb_true_r, ?app_nil_r; reflexivity.
    + destruct (running op) eqn:Er.
      * (* closed loop and running: the next request of this client *)
        match goal with
        | |- context [makeRequest index ?w2] =>
            rewrite (makeRequest_running index w2 _ (Latency_end id code l) c
                       eq_refl Er eq_refl Ec)
        end.
        rewrite nextId_Latency_end.
        eexists _, _, _. split; [reflexivity|].
        constructor; simpl; try reflexivity; unfold continues;
          rewrite ?Ehit, ?Erps, ?Er, ?Hsent; simpl; try reflexivity.
        -- exact Er.
        -- rewrite <- app_assoc. reflexivity.
      * (* already stopped: the continue callback is not invoked *)
        eexists _, _, (Latency_end id code l). split; [reflexivity|].
        constructor; simpl; try reflexivity; unfold continues;
          rewrite ?Ehit, ?Erps, ?Er; simpl; rewrite ?app_nil_r;
          try reflexivity.
        exact Er.
Qed.

(** ** One event of the loop *)

Lemma handler_Complete (index id : nat) (c : Completion) (w : World)
      (op : Operation) (l : Latency) :
  operation w = Some op -> latency op = Some l ->
  lookup index (clients op) <> None ->
  exists w' op' l',
    handler (Complete index id c) w = Ok tt w'
    /\ finisher_effect index id (completion_code c) (removed index id w)
                       op l w' op' l'.
Proof.
  intros Hop Hl Hc. unfold handler.
  assert (Hfirst : (fun w0 : World =>
            setInflight
              (filter (fun r => negb (same_request index id r)) (inflight w0)) w0)
          w = Ok tt (removed index id w)) by reflexivity.
  rewrite (bind_Ok _ _ _ _ _ Hfirst).
  assert (Hop' : operation (removed index id w) = Some op) by exact Hop.
  unfold completed.
  destruct c as [msg | err | statusCode].
  - destruct (requestFinished_effect index id
                (VStr ("Connection error: " ++ msg)%string) VUndefined
                _ op l Hop' Hl Hc) as (w' & op' & l' & Hrun & Heff).
    exists w', op', l'. split; [exact Hrun | exact Heff].
  - destruct (requestFinished_effect index id
                (VStr ("Connection " ++ string_of_nat id ++ " failed: " ++ err)%string)
                (VStr "1") _ op l Hop' Hl Hc) as (w' & op' & l' & Hrun & Heff).
    exists w', op', l'. split; [exact Hrun | exact Heff].
  - simpl completion_code. destruct (300 <=? statusCode) eqn:Es.
    + destruct (requestFinished_effect index id
                  (VStr ("Status code " ++ string_of_Z statusCode)%string)
                  (VNum statusCode) _ op l Hop' Hl Hc)
        as (w' & op' & l' & Hrun & Heff).
      exists w', op', l'. split; [exact Hrun|].
      assert (Hcode : errorCode_of
                        (VStr ("Status code " ++ string_of_Z statusCode)%string)
                        (VNum statusCode) = VNum statusCode).
      { unfold errorCode_of. simpl.
        apply Z.leb_le in Es.
        destruct (statusCode =? 0) eqn:E0; [apply Z.eqb_eq in E0; lia | reflexivity]. }
      rewrite Hcode in Heff. exact Heff.
    + destruct (requestFinished_effect index id VNull (VBool false)
                  _ op l Hop' Hl Hc) as (w' & op' & l' & Hrun & Heff).
      exists w', op', l'. split; [exact Hrun | exact Heff].
Qed.

Lemma handler_Deadline (w : World) (op : Operation) :
  operation w = Some op ->
  (callback op = true -> latency op <> None) ->
  exists cs',
    handler Deadline w =
      Ok tt {| options := options w; operation := Some (stopped op cs');
               logLevel := logLevel w; inflight := inflight w;
               starting := starting w; deadline := false;
               trace := trace w ++ stop_actions op |}
    /\ keys cs' = keys (clients op)
    /\ forall j, lookup j cs' = option_map cancel (lookup j (clients op)).
Proof.
  intros Hop Hlat. unfold handler.
  assert (Hfirst : setDeadline false w =
            Ok tt {| options := options w; operation := operation w;
                     logLevel := logLevel w; inflight := inflight w;
                     starting := starting w; deadline := false;
                     trace := trace w |}) by reflexivity.
  rewrite (bind_Ok _ _ _ _ _ Hfirst).
  match goal with
  | |- context [stop ?w1] =>
      destruct (stop_spec w1 op Hop Hlat) as (cs' & Hstop & Hk & Hlk)
  end.
  exists cs'. split; [exact Hstop | split; [exact Hk | exact Hlk]].
Qed.

Lemma handler_ShowTick (w : World) (op : Operation) (l : Latency) :
  operation w = Some op -> latency op = Some l ->
  handler ShowTick w =
    Ok tt {| options := options w;
             operation := Some (with_latency (Some (snd (Latency_showPartial l))) op);
             logLevel := logLevel w; inflight := inflight w;
             starting := starting w; deadline := deadline w;
             trace := trace w ++ [ShowPartial (fst (Latency_showPartial l))] |}.
Proof.
  intros Hop Hl. unfold handler, showPartial. plumb. rewrite Hop. plumb.
  rewrite Hl. reflexivity.
Qed.

Lemma handler_DelayedStart (index : nat) (w : World) :
  handler (DelayedStart index) w = Client_start index (started index w).
Proof. reflexivity. Qed.

Lemma Client_start_open (index : nat) (w : World) (op : Operation) (c : Client) :
  operation w = Some op -> lookup index (clients op) = Some c ->
  truthy_num (requestsPerSecond (options w)) = true ->
  Client_start index w =
    Ok tt {| options := options w;
             operation :=
               Some (with_clients
                       (assign index (with_requestTimer (Some Ticking) c)
                               (clients op)) op);
             logLevel := logLevel w; inflight := inflight w;
             starting := starting w; deadline := deadline w;
             trace := trace w |}.
Proof.
  intros Hop Hc Hr. unfold Client_start. plumb. rewrite Hr. plumb.
  rewrite Hop. plumb. rewrite Hc. plumb. rewrite Hop. reflexivity.
Qed.

Lemma Client_start_closed (index : nat) (w : World) :
  truthy_num (requestsPerSecond (options w)) = false ->
  Client_start index w = makeRequest index w.
Proof. intros Hr. unfold Client_start. plumb. rewrite Hr. reflexivity. Qed.

(** ** Counting in the trace *)

Lemma count_app (p : Action -> bool) (t u : list Action) :
  count p (t ++ u) = (count p t + count p u)%nat.
Proof. unfold count. now rewrite filter_app, length_app. Qed.

Lemma count_ClientStop (p : Action -> bool) (ks : list nat) :
  (forall k, p (ClientStop k) = false) -> count p (map ClientStop ks) = 0%nat.
Proof.
  intros Hp. unfold count. induction ks as [|k ks IH]; simpl.
  - reflexivity.
  - now rewrite Hp.
Qed.

Lemma finals_stop_actions (op : Operation) :
  count is_final (stop_actions op) =
    if callback op then match latency op with Some _ => 1%nat | None => 0%nat end
    else 0%nat.
Proof.
  unfold stop_actions. rewrite !count_app.
  rewrite (count_ClientStop is_final) by reflexivity.
  destruct (showTimer op), (callback op), (latency op); reflexivity.
Qed.

Lemma requests_stop_actions (op : Operation) :
  count is_request (stop_actions op) = 0%nat.
Proof.
  unfold stop_actions. rewrite !count_app.
  rewrite (count_ClientStop is_request) by reflexivity.
  destruct (showTimer op), (callback op), (latency op); reflexivity.
Qed.

(** ** The invariant of a run *)

Lemma tracked_same (w w' : World) (l l' : Latency) :
  tracked w l ->
  inflight w' = inflight w -> unfinished l' = unfinished l ->
  nextId l' = nextId l ->
  tracked w' l'.
Proof.
  intros [Hids Hfresh Hnd] Hi Hu Hn. constructor.
  - intros r Hr. rewrite Hu. apply Hids. congruence.
  - intros id Hid. rewrite Hn. apply Hfresh. congruence.
  - now rewrite Hi.
Qed.

Lemma tracked_dispatch (w w' : World) (l l' : Latency) (index : nat) :
  tracked w l ->
  inflight w' = inflight w ++ [(index, nextId l)] ->
  unfinished l' = unfinished l ++ [nextId l] ->
  nextId l' = S (nextId l) ->
  tracked w' l'.
Proof.
  intros [Hids Hfresh Hnd] Hi Hu Hn. constructor.
  - intros r Hr. rewrite Hu. rewrite Hi in Hr. apply in_or_app.
    apply in_app_or in Hr. destruct Hr as [Hr | [<- | []]].
    + left. exact (Hids r Hr).
    + right. left. reflexivity.
  - intros id Hid. rewrite Hn. rewrite Hu in Hid.
    apply in_app_or in Hid. destruct Hid as [Hid | [<- | []]].
    + specialize (Hfresh id Hid). lia.
    + lia.
  - rewrite Hi, map_app. simpl. apply NoDup_app.
    + exact Hnd.
    + constructor; [intros [] | constructor].
    + intros id Hid [<- | []].
      apply in_map_iff in Hid. destruct Hid as (r & Hs & Hr).
      specialize (Hfresh _ (Hids r Hr)). rewrite Hs in Hfresh. lia.
Qed.

Lemma NoDup_map_filter {A B} (f : A -> B) (p : A -> bool) (xs : list A) :
  NoDup (map f xs) -> NoDup (map f (filter p xs)).
Proof.
  induction xs as [|x xs IH]; simpl; intros H.
  - constructor.
  - inversion H as [|? ? Hx Hxs]; subst.
    destruct (p x); simpl; [|exact (IH Hxs)].
    constructor; [|exact (IH Hxs)].
    intros Hin. apply Hx. apply in_map_iff in Hin.
    destruct Hin as (y & Hy & Hf). apply filter_In in Hf.
    apply in_map_iff. exists y. tauto.
Qed.

Lemma NoDup_map_eq {A B} (f : A -> B) (xs : list A) (x y : A) :
  NoDup (map f xs) -> In x xs -> In y xs -> f x = f y -> x = y.
Proof.
  induction xs as [|z xs IH]; simpl; intros H Hx Hy Hf.
  - contradiction.
  - inversion H as [|? ? Hz Hzs]; subst.
    destruct Hx as [-> | Hx], Hy as [-> | Hy].
    + reflexivity.
    + exfalso. apply Hz. rewrite Hf. now apply in_map.
    + exfalso. apply Hz. rewrite <- Hf. now apply in_map.
    + exact (IH Hzs Hx Hy Hf).
Qed.

(** A request in flight has an unfinished record; once it is removed and
    its record finalized, the rest still agree. *)
Lemma tracked_end (w : World) (l : Latency) (index id : nat) (code : jsval) :
  tracked w l -> In (index, id) (inflight w) ->
  is_unfinished id l = true
  /\ tracked (removed index id w) (Latency_end id code l).
Proof.
  intros [Hids Hfresh Hnd] Hin.
  assert (Hu : is_unfinished id l = true).
  { unfold is_unfinished. apply existsb_exists. exists id.
    split; [exact (Hids _ Hin) | apply Nat.eqb_refl]. }
  split; [exact Hu|].
  unfold Latency_end. rewrite Hu. constructor; simpl.
  - intros r Hr. apply filter_In in Hr. destruct Hr as [Hr Hne].
    apply filter_In. split; [exact (Hids r Hr)|].
    apply negb_true_iff. apply Nat.eqb_neq. intros Heq.
    assert (r = (index, id)).
    { apply (NoDup_map_eq snd (inflight w)); try assumption. simpl. congruence. }
    subst r. unfold same_request in Hne. simpl in Hne.
    rewrite !Nat.eqb_refl in Hne. discriminate.
  - intros i Hi. apply filter_In in Hi. apply Hfresh. tauto.
  - apply NoDup_map_filter. exact Hnd.
Qed.

Lemma lookup_In (j : nat) (cs : list (nat * Client)) :
  In j (keys cs) -> lookup j cs <> None.
Proof. apply lookup_keys. Qed.

Lemma timerless_cancel (cs cs' : list (nat * Client)) :
  timerless cs ->
  (forall j, lookup j cs' = option_map cancel (lookup j cs)) ->
  timerless cs'.
Proof.
  intros Ht Hl j c' Hc'. rewrite Hl in Hc'.
  destruct (lookup j cs) as [c|] eqn:Ec; simpl in Hc'; [|discriminate].
  injection Hc' as <-. unfold cancel.
  rewrite (Ht j c Ec). exact (Ht j c Ec).
Qed.

Lemma timerless_same (cs cs' : list (nat * Client)) :
  timerless cs -> (forall j, lookup j cs' = lookup j cs) -> timerless cs'.
Proof. intros Ht Hl j c' Hc'. rewrite Hl in Hc'. exact (Ht j c' Hc'). Qed.

Lemma enabled_Complete_In (index id : nat) (rs : list (nat * nat)) :
  existsb (same_request index id) rs = true -> In (index, id) rs.
Proof.
  intros H. apply existsb_exists in H. destruct H as ([i j] & Hin & Heq).
  unfold same_request in Heq. simpl in Heq.
  apply andb_prop in Heq. destruct Heq as [Hi Hj].
  apply Nat.eqb_eq in Hi. apply Nat.eqb_eq in Hj. now subst.
Qed.

Lemma of_client_app (j : nat) (rs ss : list (nat * nat)) :
  of_client j (rs ++ ss) = (of_client j rs + of_client j ss)%nat.
Proof. unfold of_client. now rewrite filter_app, length_app. Qed.

Lemma of_client_removed_le (index id j : nat) (rs : list (nat * nat)) :
  (of_client j (filter (fun r => negb (same_request index id r)) rs)
   <= of_client j rs)%nat.
Proof.
  unfold of_client. induction rs as [|r rs IH]; simpl.
  - lia.
  - destruct (same_request index id r); simpl;
      destruct (Nat.eqb (fst r) j); simpl; lia.
Qed.

Lemma of_client_removed_other (index id j : nat) (rs : list (nat * nat)) :
  j <> index ->
  of_client j (filter (fun r => negb (same_request index id r)) rs)
  = of_client j rs.
Proof.
  intros Hne. unfold of_client. induction rs as [|r rs IH]; simpl.
  - reflexivity.
  - destruct (same_request index id r) eqn:Es; simpl.
    + unfold same_request in Es. apply andb_prop in Es. destruct Es as [Hi _].
      apply Nat.eqb_eq in Hi.
      destruct (Nat.eqb (fst r) j) eqn:Ej.
      * apply Nat.eqb_eq in Ej. congruence.
      * exact IH.
    + destruct (Nat.eqb (fst r) j); simpl; now rewrite IH.
Qed.

Lemma of_client_removed_lt (index id : nat) (rs : list (nat * nat)) :
  In (index, id) rs ->
  (of_client index (filter (fun r => negb (same_request index id r)) rs)
   < of_client index rs)%nat.
Proof.
  unfold of_client. induction rs as [|r rs IH]; simpl; intros Hin.
  - contradiction.
  - pose proof (of_client_removed_le index id index rs) as Hle.
    unfold of_client in Hle.
    destruct Hin as [Heq | Hin].
    + subst r. unfold same_request at 1. simpl. rewrite !Nat.eqb_refl. simpl. lia.
    + specialize (IH Hin).
      destruct (same_request index id r) eqn:Es; simpl.
      * destruct (Nat.eqb (fst r) index); simpl; lia.
      * destruct (Nat.eqb (fst r) index); simpl; lia.
Qed.

(** The counter after one more completion, against [maxRequests]. *)
Lemma reached_next (mr : optnum) (r : Z) :
  0 <= r ->
  match mr with
  | Num n => (0 <? n) && (n <=? r + 1)
  | Absent | Null => false
  end =
  (match mr with
   | Num n => (0 <? n) && (n <=? r)
   | Absent | Null => false
   end) || (truthy_num mr && loose_eq (r + 1) mr).
Proof.
  intros Hr. destruct mr as [| |n]; try reflexivity. simpl.
  destruct (Z.ltb_spec 0 n), (Z.leb_spec n (r + 1)), (Z.leb_spec n r),
    (Z.eqb_spec n 0), (Z.eqb_spec (r + 1) n); simpl; try reflexivity; lia.
Qed.

Lemma reached_exclusive (mr : optnum) (r : Z) :
  truthy_num mr && loose_eq (r + 1) mr = true ->
  match mr with
  | Num n => (0 <? n) && (n <=? r)
  | Absent | Null => false
  end = false.
Proof.
  destruct mr as [| |n]; try reflexivity. simpl.
  destruct (Z.ltb_spec 0 n), (Z.leb_spec n r), (Z.eqb_spec n 0),
    (Z.eqb_spec (r + 1) n); simpl; try reflexivity; try discriminate; lia.
Qed.

Lemma fired_same (w w' : World) :
  options w' = options w -> deadline w' = deadline w -> fired w' = fired w.
Proof. intros Ho Hd. unfold fired. now rewrite Ho, Hd. Qed.

Lemma sound_Complete (o : Options) (cb : bool) (w : World) (op : Operation)
      (l : Latency) (index id : nat) (c : Completion) (w' : World) :
  sound o cb w op l -> step (Complete index id c) w = Some w' ->
  follows o cb w op w'.
Proof.
  intros S Hstep. unfold step in Hstep.
  destruct (enabled (Complete index id c) w) eqn:En; [|discriminate].
  simpl in En. apply enabled_Complete_In in En.
  destruct (handler_Complete index id c w op l (so_operation _ _ _ _ _ S)
              (so_latency _ _ _ _ _ S)
              (lookup_In _ _ (so_inflight _ _ _ _ _ S _ En)))
    as (w1 & op' & l' & Hh & E).
  rewrite Hh in Hstep. injection Hstep as <-.
  destruct S as [Sop Slat Sopt Scb Sreq Stk Sinf Sst Sdl Srun Sfin Scl].
  destruct E as [Eop Elat Eopt Elog Est Edl Ector Ecb Ereq Erun Efin Eunf Enid
                 Einf Ekeys Ecl Eshow Etr].
  simpl in Eopt, Elog, Est, Edl, Erun, Eunf, Enid, Einf, Ecl, Eshow, Etr.
  set (hit := reaches (options w) op) in *.
  assert (Hfired : fired w1 = fired w) by (apply fired_same; assumption).
  assert (Hreached : reached w1 = reached w || hit).
  { unfold reached, completed_count. rewrite Eop, Sop, Eopt, Ereq.
    apply reached_next. exact Sreq. }
  assert (Hexcl : hit = true -> reached w = false).
  { unfold reached, completed_count. rewrite Sop.
    apply reached_exclusive. }
  assert (Hcount : forall p,
            count p (trace w1) =
            (count p (trace w)
             + count p (if is_unfinished id l then [] else [EndUnknown id])
             + count p (if hit
                        then stop_actions (counted id (completion_code c) l op)
                        else [])
             + count p (if continues (options w) op
                        then [HttpRequest index (nextId l)
                                (sent_by index (clients op))]
                        else []))%nat).
  { intros p. rewrite Etr, !count_app. lia. }
  exists op', l'. split; [constructor|split; [|split]].
  - exact Eop.
  - exact Elat.
  - congruence.
  - congruence.
  - lia.
  - (* the tracker follows the requests in flight *)
    destruct (tracked_end w l index id (completion_code c) Stk En) as (_ & Htk).
    destruct (continues (options w) op).
    + apply (tracked_dispatch (removed index id w) w1
               (Latency_end id (completion_code c) l) l' index Htk).
      * rewrite nextId_Latency_end. exact Einf.
      * exact Eunf.
      * exact Enid.
    + apply (tracked_same (removed index id w) w1
               (Latency_end id (completion_code c) l) l' Htk).
      * rewrite Einf. apply app_nil_r.
      * rewrite Eunf. apply app_nil_r.
      * exact Enid.
  - (* requests in flight belong to clients *)
    intros r Hr. rewrite Ekeys. rewrite Einf in Hr.
    apply in_app_or in Hr. destruct Hr as [Hr | Hr].
    + apply Sinf. apply filter_In in Hr. tauto.
    + destruct (continues (options w) op); [|contradiction].
      destruct Hr as [<- | []]. simpl. exact (Sinf _ En).
  - intros i Hi. rewrite Ekeys. apply Sst. congruence.
  - intros Hd. apply Sdl. congruence.
  - (* running <-> no trigger has fired *)
    rewrite Erun, Srun, Hfired, Hreached.
    destruct (fired w), (reached w), hit; reflexivity.
  - (* the final callbacks so far *)
    unfold finals in *. fold (count is_final (trace w1)).
    fold (count is_final (trace w)) in Sfin.
    rewrite Hcount, Sfin, Hfired, Hreached.
    assert (H1 : count is_final
                   (if is_unfinished id l then [] else [EndUnknown id]) = 0%nat)
      by (destruct (is_unfinished id l); reflexivity).
    assert (H3 : count is_final
                   (if continues (options w) op
                    then [HttpRequest index (nextId l)
                            (sent_by index (clients op))]
                    else []) = 0%nat)
      by (destruct (continues (options w) op); reflexivity).
    rewrite H1, H3.
    destruct hit eqn:Ehit.
    + rewrite finals_stop_actions. simpl. rewrite Scb.
      rewrite (Hexcl eq_refl).
      destruct cb, (fired w); simpl; lia.
    + rewrite orb_false_r. change (count is_final []) with 0%nat.
      destruct cb; lia.
  - (* closed loop: one request per client *)
    intros Hclosed.
    assert (Hclosed0 : closed_loop w = true).
    { unfold closed_loop in *. now rewrite <- Eopt. }
    destruct (Scl Hclosed0) as (Hst & Htl & Hone).
    split; [congruence|]. split.
    + destruct hit.
      * exact (timerless_cancel _ _ Htl Ecl).
      * exact (timerless_same _ _ Htl Ecl).
    + intros j. unfold inflight_of in *. fold (of_client j (inflight w1)).
      rewrite Einf, of_client_app.
      assert (Hcont : continues (options w) op = running op').
      { unfold continues. fold hit. rewrite Erun.
        unfold closed_loop in Hclosed0. rewrite Hclosed0.
        now rewrite andb_true_r. }
      rewrite Hcont.
      destruct (Nat.eq_dec j index) as [-> | Hne].
      * pose proof (of_client_removed_lt index id (inflight w) En) as Hlt.
        destruct (Hone index) as [Hle _].
        fold (of_client index (inflight w)) in Hle.
        assert (Hnew : of_client index [(index, nextId l)] = 1%nat).
        { unfold of_client. simpl. now rewrite Nat.eqb_refl. }
        assert (Hnil : of_client index [] = 0%nat) by reflexivity.
        destruct (running op'); rewrite ?Hnew, ?Hnil;
          (split; [lia | intros; try discriminate; lia]).
      * rewrite (of_client_removed_other index id j (inflight w) Hne).
        destruct (Hone j) as [Hle Heq].
        fold (of_client j (inflight w)) in Hle, Heq.
        assert (Hz : of_client j (if running op' then [(index, nextId l)] else [])
                     = 0%nat).
        { destruct (running op'); [|reflexivity]. unfold of_client. simpl.
          destruct (Nat.eqb index j) eqn:Eij; [|reflexivity].
          apply Nat.eqb_eq in Eij. congruence. }
        rewrite Hz. split; [lia|].
        intros Hr' Hj. rewrite Ekeys in Hj.
        rewrite Erun in Hr'. apply andb_prop in Hr'. destruct Hr' as [Hr' _].
        rewrite (Heq Hr' Hj). lia.
  - exact Ekeys.
  - lia.
  - (* after stop: nothing is dispatched *)
    intros Hstopped.
    assert (Hcont : continues (options w) op = false).
    { unfold continues. now rewrite Hstopped. }
    split; [|split].
    + rewrite Erun, Hstopped. reflexivity.
    + unfold dispatched. fold (count is_request (trace w1)).
      fold (count is_request (trace w)).
      rewrite Hcount, Hcont.
      assert (H1 : count is_request
                     (if is_unfinished id l then [] else [EndUnknown id]) = 0%nat)
        by (destruct (is_unfinished id l); reflexivity).
      rewrite H1.
      destruct hit; cbv iota;
        [rewrite requests_stop_actions|]; change (count is_request []) with 0%nat;
        lia.
    + intros j. unfold inflight_of. fold (of_client j (inflight w1)).
      fold (of_client j (inflight w)).
      rewrite Einf, Hcont, app_nil_r.
      apply of_client_removed_le.
Qed.

Lemma finals_trace (w w' : World) (t : list Action) :
  trace w' = trace w ++ t -> finals w' = (finals w + count is_final t)%nat.
Proof. intros H. unfold finals. rewrite H. apply count_app. Qed.

Lemma dispatched_trace (w w' : World) (t : list Action) :
  trace w' = trace w ++ t ->
  dispatched w' = (dispatched w + count is_request t)%nat.
Proof. intros H. unfold dispatched. rewrite H. apply count_app. Qed.

Lemma sound_RequestTick (o : Options) (cb : bool) (w : World) (op : Operation)
      (l : Latency) (index : nat) (w' : World) :
  sound o cb w op l -> step (RequestTick index) w = Some w' ->
  follows o cb w op w'.
Proof.
  intros S Hstep. unfold step in Hstep.
  destruct (enabled (RequestTick index) w) eqn:En; [|discriminate].
  pose proof S as S0.
  destruct S as [Sop Slat Sopt Scb Sreq Stk Sinf Sst Sdl Srun Sfin Scl].
  simpl in En. rewrite Sop in En.
  destruct (lookup index (clients op)) as [c|] eqn:Ec; [|discriminate].
  unfold handler in Hstep.
  destruct (running op) eqn:Er.
  - (* running: one more request *)
    rewrite (makeRequest_running index w op l c Sop Er Slat Ec) in Hstep.
    injection Hstep as <-.
    exists (with_latency (Some (snd (Latency_start l))) op),
      (snd (Latency_start l)).
    split; [constructor; simpl; try assumption; try reflexivity|].
    + apply (tracked_dispatch w _ l _ index Stk); reflexivity.
    + intros r Hr. apply in_app_or in Hr. destruct Hr as [Hr | [<- | []]].
      * exact (Sinf r Hr).
      * simpl. apply lookup_keys. congruence.
    + transitivity (negb (fired w || reached w)); [congruence|].
      unfold fired, reached, completed_count. simpl. rewrite Sop. reflexivity.
    + rewrite (finals_trace w _ [HttpRequest index (nextId l) (message c)]) by reflexivity.
      rewrite Sfin.
      unfold fired, reached, completed_count. simpl. rewrite Sop.
      change (count is_final [HttpRequest index (nextId l) (message c)])
        with 0%nat.
      destruct cb; lia.
    + intros Hclosed. destruct (Scl Hclosed) as (_ & Htl & _).
      rewrite (Htl index c Ec) in En. discriminate.
    + simpl. split; [reflexivity|]. split; [lia|]. intros Hf. congruence.
  - (* stopped: makeRequest returns at once *)
    rewrite (makeRequest_stopped index w op Sop Er) in Hstep.
    injection Hstep as <-.
    exists op, l.
    split; [exact S0|].
    split; [reflexivity|]. split; [lia|]. intros _.
    split; [exact Er|]. split; [reflexivity|]. intros j. lia.
Qed.

Lemma sound_DelayedStart (o : Options) (cb : bool) (w : World) (op : Operation)
      (l : Latency) (index : nat) (w' : World) :
  sound o cb w op l -> step (DelayedStart index) w = Some w' ->
  follows o cb w op w'.
Proof.
  intros S Hstep. unfold step in Hstep.
  destruct (enabled (DelayedStart index) w) eqn:En; [|discriminate].
  destruct S as [Sop Slat Sopt Scb Sreq Stk Sinf Sst Sdl Srun Sfin Scl].
  simpl in En. apply existsb_exists in En. destruct En as (i & Hin & Hi).
  apply Nat.eqb_eq in Hi. subst i.
  destruct (closed_loop w) eqn:Ecl.
  { destruct (Scl eq_refl) as (Hnil & _). rewrite Hnil in Hin. contradiction. }
  unfold closed_loop in Ecl. apply negb_false_iff in Ecl.
  destruct (lookup index (clients op)) as [c|] eqn:Ec.
  2:{ exfalso. apply (lookup_In _ _ (Sst _ Hin)). exact Ec. }
  rewrite handler_DelayedStart in Hstep.
  rewrite (Client_start_open index (started index w) op c Sop Ec Ecl) in Hstep.
  injection Hstep as <-.
  assert (Hk : keys (assign index (with_requestTimer (Some Ticking) c) (clients op))
               = keys (clients op)).
  { apply keys_assign. congruence. }
  exists (with_clients
            (assign index (with_requestTimer (Some Ticking) c) (clients op)) op), l.
  split; [constructor; simpl; try assumption; try reflexivity|].
  - apply (tracked_same w _ l l Stk); reflexivity.
  - intros r Hr. rewrite Hk. exact (Sinf r Hr).
  - intros i Hi. rewrite Hk. apply Sst. apply filter_In in Hi. tauto.
  - rewrite Srun. unfold fired, reached, completed_count. simpl. rewrite Sop.
    reflexivity.
  - unfold finals in *. simpl. rewrite Sfin.
    unfold fired, reached, completed_count. simpl. rewrite Sop. reflexivity.
  - intros Hclosed. unfold closed_loop in Hclosed. simpl in Hclosed.
    rewrite Ecl in Hclosed. discriminate.
  - simpl. repeat split; try lia; try assumption.
    intros j. unfold inflight_of. simpl. lia.
Qed.

Lemma sound_Deadline (o : Options) (cb : bool) (w : World) (op : Operation)
      (l : Latency) (w' : World) :
  sound o cb w op l -> step Deadline w = Some w' -> follows o cb w op w'.
Proof.
  intros S Hstep. unfold step in Hstep.
  destruct (enabled Deadline w) eqn:En; [|discriminate].
  destruct S as [Sop Slat Sopt Scb Sreq Stk Sinf Sst Sdl Srun Sfin Scl].
  simpl in En.
  destruct (handler_Deadline w op Sop) as (cs' & Hh & Hk & Hlk).
  { intros _. congruence. }
  rewrite Hh in Hstep. injection Hstep as <-.
  assert (Hms : truthy_num (maxSeconds (options w)) = true).
  { rewrite Sopt. exact (Sdl En). }
  exists (stopped op cs'), l.
  split; [constructor; simpl; try assumption; try reflexivity|].
  - apply (tracked_same w _ l l Stk); reflexivity.
  - intros r Hr. rewrite Hk. exact (Sinf r Hr).
  - intros i Hi. rewrite Hk. exact (Sst i Hi).
  - discriminate.
  - unfold fired. simpl. now rewrite Hms.
  - rewrite (finals_trace w _ (stop_actions op)) by reflexivity.
    rewrite Sfin, finals_stop_actions, Scb, Slat.
    unfold fired, reached, completed_count. simpl. rewrite Hms, En, Sop. simpl.
    destruct cb; lia.
  - intros Hclosed. destruct (Scl Hclosed) as (Hnil & Htl & Hone).
    split; [exact Hnil|]. split; [exact (timerless_cancel _ _ Htl Hlk)|].
    intros j. destruct (Hone j) as [Hle _]. split; [exact Hle | discriminate].
  - simpl. repeat split; try lia; try assumption.
    rewrite (dispatched_trace w _ (stop_actions op)) by reflexivity.
    rewrite requests_stop_actions. lia.
    intros j. unfold inflight_of. simpl. lia.
Qed.

Lemma sound_ShowTick (o : Options) (cb : bool) (w : World) (op : Operation)
      (l : Latency) (w' : World) :
  sound o cb w op l -> step ShowTick w = Some w' -> follows o cb w op w'.
Proof.
  intros S Hstep. unfold step in Hstep.
  destruct (enabled ShowTick w) eqn:En; [|discriminate].
  destruct S as [Sop Slat Sopt Scb Sreq Stk Sinf Sst Sdl Srun Sfin Scl].
  rewrite (handler_ShowTick w op l Sop Slat) in Hstep.
  injection Hstep as <-.
  exists (with_latency (Some (snd (Latency_showPartial l))) op),
    (snd (Latency_showPartial l)).
  split; [constructor; simpl; try assumption; try reflexivity|].
  - apply (tracked_same w _ l _ Stk); reflexivity.
  - rewrite Srun. unfold fired, reached, completed_count. simpl. rewrite Sop.
    reflexivity.
  - rewrite (finals_trace w _ [ShowPartial (fst (Latency_showPartial l))]) by reflexivity.
    rewrite Sfin.
    unfold fired, reached, completed_count. simpl. rewrite Sop.
    unfold count. simpl. destruct cb; lia.
  - simpl. repeat split; try lia; try assumption.
    rewrite (dispatched_trace w _ [ShowPartial (fst (Latency_showPartial l))]) by reflexivity.
    unfold count. simpl. lia.
    intros j. unfold inflight_of. simpl. lia.
Qed.

(** Every turn of the loop keeps the run sound. *)
Lemma sound_step (o : Options) (cb : bool) (w : World) (op : Operation)
      (l : Latency) (e : Event) (w' : World) :
  sound o cb w op l -> step e w = Some w' -> follows o cb w op w'.
Proof.
  intros S Hstep. destruct e as [index id c | index | index | | ].
  - exact (sound_Complete o cb w op l index id c w' S Hstep).
  - exact (sound_RequestTick o cb w op l index w' S Hstep).
  - exact (sound_DelayedStart o cb w op l index w' S Hstep).
  - exact (sound_Deadline o cb w op l w' S Hstep).
  - exact (sound_ShowTick o cb w op l w' S Hstep).
Qed.

(** ** Launching a run *)

Lemma Client_new_Ok (ctor : Constructor) (w w1 : World) (c : Client) :
  Client_new ctor w = Ok c w1 -> w1 = w /\ requestTimer c = None.
Proof.
  unfold Client_new, init. plumb. destruct ctor.
  - intros H. injection H as <- <-. split; reflexivity.
  - destruct (truthy_body (body (options w))); plumb.
    + destruct (body (options w)); plumb; intros H;
        try discriminate; injection H as <- <-; split; reflexivity.
    + intros H. injection H as <- <-. split; reflexivity.
Qed.

Lemma Client_new_total (ctor : Constructor) (w : World) :
  ctor = WebSocketClient \/ body_ok (options w) = true ->
  exists c, Client_new ctor w = Ok c w.
Proof.
  intros H. unfold Client_new, init. plumb. destruct ctor.
  - eexists. reflexivity.
  - destruct H as [H | H]; [discriminate|]. unfold body_ok in H.
    destruct (body (options w)) as [|s|json|t] eqn:Eb; simpl; try discriminate.
    + eexists. reflexivity.
    + destruct (nonempty s); plumb; eexists; reflexivity.
    + eexists. reflexivity.
Qed.

Lemma keys_assign_new (k : nat) (c : Client) (cs : list (nat * Client)) :
  ~ In k (keys cs) -> keys (assign k c cs) = keys cs ++ [k].
Proof.
  induction cs as [|[i c'] cs IH]; simpl; intros H.
  - reflexivity.
  - destruct (Nat.eqb i k) eqn:Eik.
    + apply Nat.eqb_eq in Eik. tauto.
    + simpl. f_equal. apply IH. tauto.
Qed.

Lemma inflight_of_extend (j : nat) (w w' : World) (r : nat * nat) :
  inflight w' = inflight w ++ [r] ->
  inflight_of j w' =
    (inflight_of j w + if Nat.eqb (fst r) j then 1 else 0)%nat.
Proof.
  intros H. unfold inflight_of. rewrite H, filter_app, length_app. simpl.
  destruct (Nat.eqb (fst r) j); reflexivity.
Qed.

Lemma startClients_step (o : Options) (ctor : Constructor) (cb : bool)
      (index : nat) (w : World) (op : Operation) (l : Latency) (c : Client) :
  starting_up o ctor cb index w op l ->
  requestTimer c = None ->
  exists w1 op1 l1,
    (setClient index c ;;
     (if negb (truthy_num (requestsPerSecond o)) then Client_start index
      else fun w0 => setStarting (starting w0 ++ [index]) w0)) w = Ok tt w1
    /\ starting_up o ctor cb (S index) w1 op1 l1.
Proof.
  intros S Hc.
  destruct S as [Sop Slat Sopt Sctor Scb Srun Sreq Sshow Skeys Stl Sdl Sfin
                 Stk Sinf Sst Scl Sopen].
  assert (Hnew : ~ In index (keys (clients op))).
  { rewrite Skeys, in_seq. lia. }
  assert (Hkeys : keys (assign index c (clients op)) = seq 0 (S index)).
  { rewrite (keys_assign_new _ _ _ Hnew), Skeys, seq_S. reflexivity. }
  assert (Htl : timerless (assign index c (clients op))).
  { intros j c' Hj. rewrite lookup_assign in Hj.
    destruct (Nat.eqb index j); [injection Hj as <-; exact Hc | exact (Stl j c' Hj)]. }
  assert (Hset : setClient index c w =
                 Ok tt {| options := options w;
                          operation :=
                            Some (with_clients (assign index c (clients op)) op);
                          logLevel := logLevel w; inflight := inflight w;
                          starting := starting w; deadline := deadline w;
                          trace := trace w |}).
  { plumb. rewrite Sop. reflexivity. }
  rewrite (bind_Ok _ _ _ _ _ Hset).
  destruct (truthy_num (requestsPerSecond o)) eqn:Erps;
    cbv beta iota delta [negb].
  - (* open loop: the start is delayed *)
    assert (Hopen : closed_loop w = false).
    { unfold closed_loop. now rewrite Sopt, Erps. }
    destruct (Sopen Hopen) as (Hinf & Hst).
    eexists _, _, l. split; [reflexivity|].
    constructor; simpl; try reflexivity; try by_hyp.
    + apply (tracked_same w _ l l Stk); reflexivity.
    + intros r Hr. specialize (Sinf r Hr). lia.
    + intros i Hi. apply in_app_or in Hi. destruct Hi as [Hi | [<- | []]].
      * specialize (Sst i Hi). lia.
      * lia.
    + intros Hcl. unfold closed_loop in Hcl, Hopen. simpl in Hcl. congruence.
    + intros _. split; [exact Hinf|]. rewrite Hst. symmetry.
      exact (seq_S index 0).
  - (* closed loop: the first request at once *)
    assert (Hclosed : closed_loop w = true).
    { unfold closed_loop. now rewrite Sopt, Erps. }
    destruct (Scl Hclosed) as (Hst & Hone).
    match goal with
    | |- context [Client_start index ?w2] =>
        rewrite (Client_start_closed index w2)
          by (simpl; rewrite Sopt; exact Erps);
        rewrite (makeRequest_running index w2 _ l c eq_refl Srun Slat)
          by (simpl; rewrite lookup_assign, Nat.eqb_refl; reflexivity)
    end.
    eexists _, _, _. split; [reflexivity|].
    constructor; simpl; try reflexivity; try by_hyp.
    + rewrite (finals_trace w _ [HttpRequest index (nextId l) (message c)])
        by reflexivity.
      rewrite Sfin. reflexivity.
    + apply (tracked_dispatch w _ l _ index Stk); reflexivity.
    + intros r Hr. apply in_app_or in Hr. destruct Hr as [Hr | [<- | []]].
      * specialize (Sinf r Hr). lia.
      * simpl. lia.
    + intros i Hi. specialize (Sst i Hi). lia.
    + intros _. split; [exact Hst|].
      intros j.
      rewrite (inflight_of_extend j w _ (index, nextId l)) by reflexivity.
      rewrite Hone. simpl fst.
      destruct (Nat.eqb index j) eqn:Eij.
      * apply Nat.eqb_eq in Eij. subst j.
        destruct (Nat.ltb_spec index index); [lia|].
        destruct (Nat.ltb_spec index (S index)); [reflexivity | lia].
      * apply Nat.eqb_neq in Eij.
        destruct (Nat.ltb_spec j index), (Nat.ltb_spec j (S index));
          simpl; lia.
    + intros Hcl. unfold closed_loop in Hcl, Hclosed. simpl in Hcl. congruence.
Qed.

(** One turn of the loop of [startClients]: it creates and starts the client
    [index], or throws; it throws exactly when [indexParam] is set (the
    identifier [indexParam] is not defined) or [init] fails on the body. *)
Lemma startClients_body_spec (o : Options) (ctor : Constructor) (cb : bool)
      (index : nat) (w : World) (op : Operation) (l : Latency) :
  starting_up o ctor cb index w op l ->
  match startClients_body index w with
  | Ok _ w1 =>
      truthy_str (indexParam o) = false
      /\ (ctor = WebSocketClient \/ body_ok o = true)
      /\ exists op1 l1, starting_up o ctor cb (S index) w1 op1 l1
  | Throw e w1 =>
      (truthy_str (indexParam o) = true /\ e = ReferenceError "indexParam"
       /\ w1 = w)
      \/ (truthy_str (indexParam o) = false /\ ctor = HttpClient
          /\ body_ok o = false)
  end.
Proof.
  intros S. pose proof S as S0.
  destruct S as [Sop Slat Sopt Sctor Scb Srun Sreq Sshow Skeys Stl Sdl Sfin
                 Stk Sinf Sst Scl Sopen].
  unfold startClients_body.
  unfold getOptions at 1. unfold bind at 1. rewrite Sopt.
  destruct (truthy_str (indexParam o)) eqn:Eip.
  - left. repeat split.
  - unfold bind at 1. unfold ret at 1. unfold bind at 1. unfold getOp at 1.
    rewrite Sop, Sctor. unfold bind at 1.
    destruct (Client_new ctor w) as [c w1 | e w1] eqn:Enew.
    + destruct (Client_new_Ok ctor w w1 c Enew) as [-> Hc].
      destruct (startClients_step o ctor cb index w op l c S0 Hc)
        as (w1 & op1 & l1 & Hrun & S1).
      rewrite Hrun. split; [reflexivity|]. split.
      * destruct ctor; [left; reflexivity|]. right.
        destruct (body_ok o) eqn:Eb; [reflexivity|].
        exfalso. revert Enew. unfold Client_new, init. plumb.
        unfold body_ok in Eb. rewrite Sopt.
        destruct (body o); discriminate.
      * exists op1, l1. exact S1.
    + right. split; [reflexivity|].
      destruct ctor.
      * destruct (Client_new_total WebSocketClient w (or_introl eq_refl))
          as (c & Hc). congruence.
      * split; [reflexivity|].
        destruct (body_ok o) eqn:Eb; [|reflexivity].
        destruct (Client_new_total HttpClient w) as (c & Hc); [|congruence].
        right. now rewrite Sopt.
Qed.

Lemma startClients_loop_spec (o : Options) (ctor : Constructor) (cb : bool)
      (count : nat) :
  forall (index : nat) (w : World) (op : Operation) (l : Latency),
    starting_up o ctor cb index w op l ->
    match startClients_loop count index w with
    | Ok _ w' => exists op' l', starting_up o ctor cb (index + count) w' op' l'
    | Throw e w' =>
        (0 < count)%nat
        /\ ((truthy_str (indexParam o) = true
             /\ e = ReferenceError "indexParam" /\ w' = w)
            \/ (truthy_str (indexParam o) = false /\ ctor = HttpClient
                /\ body_ok o = false))
    end.
Proof.
  induction count as [|count IH]; intros index w op l Hsu.
  - simpl. unfold ret. rewrite Nat.add_0_r. exists op, l. exact Hsu.
  - simpl startClients_loop. unfold bind.
    pose proof (startClients_body_spec o ctor cb index w op l Hsu) as Hbody.
    destruct (startClients_body index w) as [[] w1 | e w1].
    + destruct Hbody as (Hip & Hnew & op1 & l1 & S1).
      specialize (IH (S index) w1 op1 l1 S1).
      destruct (startClients_loop count (S index) w1) as [[] w2 | e w2].
      * destruct IH as (op2 & l2 & S2). exists op2, l2.
        now rewrite Nat.add_succ_r.
      * destruct IH as (Hpos & [(Hip' & _) | Hbad]).
        -- congruence.
        -- split; [lia|]. right. exact Hbad.
    + split; [lia|]. exact Hbody.
Qed.

Lemma starting_up_fresh (o : Options) (ctor : Constructor) (cb : bool)
      (lvl : LogLevel) :
  starting_up o ctor cb 0
    {| options := o;
       operation := Some {| constructor := ctor; callback := cb; running := true;
                            latency := Some Latency_new; clients := [];
                            requests := 0; showTimer := None |};
       logLevel := lvl; inflight := []; starting := []; deadline := false;
       trace := [] |}
    {| constructor := ctor; callback := cb; running := true;
       latency := Some Latency_new; clients := []; requests := 0;
       showTimer := None |}
    Latency_new.
Proof.
  constructor; simpl; try reflexivity.
  - intros j c H. discriminate.
  - constructor; simpl; [intros r [] | intros id [] | constructor].
  - intros r [].
  - intros i [].
  - intros _. split; reflexivity.
  - intros _. split; reflexivity.
Qed.

Lemma Operation_start_fresh (o : Options) (ctor : Constructor) (cb : bool)
      (lvl : LogLevel) :
  match Operation_start (fresh o ctor cb lvl) with
  | Ok _ w0 => exists op l, set_up o ctor cb w0 op l
  | Throw e w' =>
      (0 < iterations (concurrency o))%nat
      /\ ((truthy_str (indexParam o) = true /\ e = ReferenceError "indexParam")
          \/ (truthy_str (indexParam o) = false /\ ctor = HttpClient
              /\ body_ok o = false))
  end.
Proof.
  unfold Operation_start, fresh, startClients. plumb.
  pose proof (startClients_loop_spec o ctor cb (iterations (concurrency o))
                0 _ _ _ (starting_up_fresh o ctor cb lvl)) as Hloop.
  unfold with_latency in *. simpl in *.
  destruct (startClients_loop (iterations (concurrency o)) 0 _) as [[] w1 | e w1].
  - destruct Hloop as (op1 & l1 & S1).
    destruct S1 as [Sop Slat Sopt Sctor Scb Srun Sreq Sshow Skeys Stl Sdl Sfin
                    Stk Sinf Sst Scl Sopen].
    rewrite Sopt.
    assert (Hin : forall j, In j (seq 0 (iterations (concurrency o))) ->
                            (j < iterations (concurrency o))%nat).
    { intros j Hj. apply in_seq in Hj. lia. }
    assert (Hni : forall j, (j < iterations (concurrency o))%nat ->
                            In j (seq 0 (iterations (concurrency o)))).
    { intros j Hj. apply in_seq. lia. }
    assert (Hreach : forall d,
              reached {| options := options w1;
                         operation := Some (with_showTimer (Some Ticking) op1);
                         logLevel := logLevel w1; inflight := inflight w1;
                         starting := starting w1; deadline := d;
                         trace := trace w1 |} = false).
    { intros d. unfold reached, completed_count. simpl. rewrite Sreq.
      destruct (maxRequests (options w1)) as [| |n]; try reflexivity.
      destruct (Z.ltb_spec 0 n), (Z.leb_spec n 0); simpl; try reflexivity; lia. }
    destruct (truthy_num (maxSeconds o)) eqn:Ems; plumb; rewrite Sop; plumb;
      exists (with_showTimer (Some Ticking) op1), l1;
      (constructor; [constructor|..]); simpl; try reflexivity; try by_hyp;
      try (rewrite Sreq; lia);
      try (intros r Hr; rewrite Skeys; apply Hni; exact (Sinf r Hr));
      try (intros i Hi; rewrite Skeys; apply Hni; exact (Sst i Hi));
      try (rewrite Hreach; unfold fired; simpl; rewrite Sopt, Ems; simpl;
           first [exact Srun | rewrite Sfin; destruct cb; reflexivity]);
      try (intros Hcl; destruct (Scl Hcl) as (Hnil & Hone);
           split; [exact Hnil|]; split; [exact Stl|];
           intros j; unfold inflight_of in *; simpl; rewrite Hone;
           destruct (Nat.ltb_spec j (iterations (concurrency o)));
           (split; [lia|]); intros _ Hj; rewrite Skeys in Hj;
           apply Hin in Hj; lia).
    + apply (tracked_same w1 _ l1 l1 Stk); reflexivity.
    + intros _. exact Ems.
    + unfold finals in *. simpl. rewrite Sfin, Hreach. unfold fired. simpl.
      rewrite Sopt, Ems. destruct cb; reflexivity.
    + symmetry. exact Ems.
    + apply (tracked_same w1 _ l1 l1 Stk); reflexivity.
    + rewrite Sdl. discriminate.
    + unfold finals in *. simpl. rewrite Sfin, Hreach. unfold fired. simpl.
      rewrite Sopt, Ems. destruct cb; reflexivity.
    + rewrite Sdl. symmetry. exact Ems.
  - destruct Hloop as (Hpos & [(Hip & He & _) | Hbad]).
    + split; [exact Hpos|]. left. split; assumption.
    + split; [exact Hpos|]. right. exact Hbad.
Qed.

Lemma loadTest_chosen (o : Options) (cb : bool) (ctor : Constructor) :
  chosen o = Some ctor ->
  loadTest cb (boot o) =
    Operation_start
      (fresh (resolved o cb) ctor cb (if debug o then DEBUG else INFO)).
Proof.
  unfold chosen, loadTest, resolved, fresh, Operation_new. plumb.
  destruct (truthy_str (url o)); [|discriminate]. simpl.
  destruct (prefix "ws://" _); [|destruct (prefix "http" _); [|discriminate]];
    intros H; injection H as <-; plumb;
    destruct (debug o), cb; reflexivity.
Qed.

Lemma loadTest_refused (o : Options) (cb : bool) :
  chosen o = None ->
  loadTest cb (boot o) =
    Ok tt {| options := o; operation := None; logLevel := INFO; inflight := [];
             starting := []; deadline := false;
             trace := [if truthy_str (url o) then Help
                       else LogError "Missing URL in options"] |}.
Proof.
  unfold chosen, loadTest. plumb.
  destruct (truthy_str (url o)); [|reflexivity]. simpl.
  destruct (prefix "ws://" _); [discriminate|].
  destruct (prefix "http" _); [discriminate|]. reflexivity.
Qed.

Lemma launched_set_up (o : Options) (cb : bool) (w0 : World) :
  launched o cb = Some w0 ->
  exists ctor op l,
    chosen o = Some ctor /\ set_up (resolved o cb) ctor cb w0 op l.
Proof.
  unfold launched. intros H.
  destruct (chosen o) as [ctor|] eqn:Ech.
  - rewrite (loadTest_chosen o cb ctor Ech) in H.
    pose proof (Operation_start_fresh (resolved o cb) ctor cb
                  (if debug o then DEBUG else INFO)) as Hstart.
    destruct (Operation_start _) as [[] w1 | e w1]; [|discriminate].
    destruct Hstart as (op & l & Hup).
    rewrite (so_operation _ _ _ _ _ (up_sound _ _ _ _ _ _ Hup)) in H.
    injection H as <-. exists ctor, op, l. split; [reflexivity | exact Hup].
  - rewrite (loadTest_refused o cb Ech) in H. discriminate.
Qed.

Lemma resolved_fields (o : Options) (cb : bool) :
  maxRequests (resolved o cb) = maxRequests o
  /\ maxSeconds (resolved o cb) = maxSeconds o
  /\ requestsPerSecond (resolved o cb) = requestsPerSecond o
  /\ indexParam (resolved o cb) = indexParam o
  /\ body (resolved o cb) = body o
  /\ concurrency (resolved o cb) = or_num (concurrency o) (Num 1).
Proof. unfold resolved. destruct cb; repeat split. Qed.

Lemma launched_total (o : Options) (cb : bool) (ctor : Constructor) :
  chosen o = Some ctor ->
  truthy_str (indexParam o) = false ->
  ctor = WebSocketClient \/ body_ok o = true ->
  exists w0, launched o cb = Some w0.
Proof.
  intros Hch Hip Hbody. unfold launched.
  rewrite (loadTest_chosen o cb ctor Hch).
  pose proof (Operation_start_fresh (resolved o cb) ctor cb
                (if debug o then DEBUG else INFO)) as Hstart.
  destruct (resolved_fields o cb) as (_ & _ & _ & Hi & Hb & _).
  destruct (Operation_start _) as [[] w1 | e w1].
  - destruct Hstart as (op & l & Hup).
    rewrite (so_operation _ _ _ _ _ (up_sound _ _ _ _ _ _ Hup)).
    exists w1. reflexivity.
  - exfalso. destruct Hstart as (_ & [(Hip' & _) | (_ & Hc & Hb')]).
    + rewrite Hi in Hip'. congruence.
    + unfold body_ok in *. rewrite Hb in Hb'.
      destruct Hbody as [-> | Hbody]; [discriminate | congruence].
Qed.

(** ** Runs *)

(** Soundness along a run of the loop. *)
Lemma sound_run (o : Options) (cb : bool) (es : list Event) :
  forall (w : World) (op : Operation) (l : Latency) (w' : World),
    sound o cb w op l -> run es w = Some w' ->
    exists op' l',
      sound o cb w' op' l'
      /\ keys (clients op') = keys (clients op)
      /\ requests op <= requests op'
      /\ (running op = false ->
          running op' = false /\ dispatched w' = dispatched w
          /\ forall j, (inflight_of j w' <= inflight_of j w)%nat).
Proof.
  induction es as [|e es IH]; intros w op l w' S Hrun; simpl in Hrun.
  - injection Hrun as <-. exists op, l.
    split; [exact S|]. split; [reflexivity|]. split; [lia|].
    intros H. split; [exact H|]. split; [reflexivity|]. intros j. lia.
  - destruct (step e w) as [w1|] eqn:Hstep; [|discriminate].
    destruct (sound_step o cb w op l e w1 S Hstep)
      as (op1 & l1 & S1 & Hk1 & Hr1 & Hs1).
    destruct (IH w1 op1 l1 w' S1 Hrun) as (op' & l' & S' & Hk' & Hr' & Hs').
    exists op', l'. split; [exact S'|]. split; [congruence|]. split; [lia|].
    intros Hstopped. destruct (Hs1 Hstopped) as (Hf1 & Hd1 & Hi1).
    destruct (Hs' Hf1) as (Hf' & Hd' & Hi').
    split; [exact Hf'|]. split; [congruence|].
    intros j. specialize (Hi1 j). specialize (Hi' j). lia.
Qed.

Lemma reachable_sound (o : Options) (cb : bool) (w : World) :
  reachable o cb w -> exists op l, sound (resolved o cb) cb w op l.
Proof.
  intros (w0 & es & Hl & Hrun).
  destruct (launched_set_up o cb w0 Hl) as (ctor & op0 & l0 & _ & Hup).
  destruct (sound_run _ cb es w0 op0 l0 w (up_sound _ _ _ _ _ _ Hup) Hrun)
    as (op & l & S & _).
  exists op, l. exact S.
Qed.

Lemma Complete_effect (o : Options) (cb : bool) (w : World) (op : Operation)
      (l : Latency) (index id : nat) (c : Completion) :
  sound o cb w op l -> enabled (Complete index id c) w = true ->
  exists w' op' l',
    step (Complete index id c) w = Some w'
    /\ finisher_effect index id (completion_code c) (removed index id w)
                       op l w' op' l'.
Proof.
  intros S En. unfold step. rewrite En.
  simpl in En. apply enabled_Complete_In in En.
  destruct (handler_Complete index id c w op l (so_operation _ _ _ _ _ S)
              (so_latency _ _ _ _ _ S)
              (lookup_In _ _ (so_inflight _ _ _ _ _ S _ En)))
    as (w' & op' & l' & Hh & E).
  exists w', op', l'. rewrite Hh. split; [reflexivity | exact E].
Qed.

(** No handler throws in a sound run: every pending event can be delivered. *)
Lemma progress (o : Options) (cb : bool) (w : World) (op : Operation)
      (l : Latency) (e : Event) :
  sound o cb w op l -> enabled e w = true -> exists w', step e w = Some w'.
Proof.
  intros S En. destruct e as [index id c | index | index | | ].
  - destruct (Complete_effect o cb w op l index id c S En) as (w' & _ & _ & H & _).
    exists w'. exact H.
  - unfold step. rewrite En. simpl in En.
    rewrite (so_operation _ _ _ _ _ S) in En.
    destruct (lookup index (clients op)) as [c|] eqn:Ec; [|discriminate].
    unfold handler. destruct (running op) eqn:Er.
    + rewrite (makeRequest_running index w op l c (so_operation _ _ _ _ _ S) Er
                 (so_latency _ _ _ _ _ S) Ec). eexists. reflexivity.
    + rewrite (makeRequest_stopped index w op (so_operation _ _ _ _ _ S) Er).
      eexists. reflexivity.
  - unfold step. rewrite En. simpl in En.
    apply existsb_exists in En. destruct En as (i & Hin & Hi).
    apply Nat.eqb_eq in Hi. subst i.
    pose proof (so_starting _ _ _ _ _ S _ Hin) as Hk. apply lookup_In in Hk.
    destruct (lookup index (clients op)) as [c|] eqn:Ec; [|congruence].
    rewrite handler_DelayedStart.
    destruct (truthy_num (requestsPerSecond (options w))) eqn:Erps.
    + rewrite (Client_start_open index (started index w) op c
                 (so_operation _ _ _ _ _ S) Ec Erps). eexists. reflexivity.
    + rewrite (Client_start_closed index (started index w) Erps).
      destruct (running op) eqn:Er.
      * rewrite (makeRequest_running index (started index w) op l c
                   (so_operation _ _ _ _ _ S) Er (so_latency _ _ _ _ _ S) Ec).
        eexists. reflexivity.
      * rewrite (makeRequest_stopped index (started index w) op
                   (so_operation _ _ _ _ _ S) Er).
        eexists. reflexivity.
  - unfold step. rewrite En.
    destruct (handler_Deadline w op (so_operation _ _ _ _ _ S)) as (cs' & Hh & _).
    { intros _. rewrite (so_latency _ _ _ _ _ S). discriminate. }
    rewrite Hh. eexists. reflexivity.
  - unfold step. rewrite En.
    rewrite (handler_ShowTick w op l (so_operation _ _ _ _ _ S)
               (so_latency _ _ _ _ _ S)).
    eexists. reflexivity.
Qed.

Lemma after_sound (o : Options) (cb : bool) (es : list Event) (w : World) :
  after o cb es = Some w -> exists op l, sound (resolved o cb) cb w op l.
Proof.
  unfold after. intros H. apply reachable_sound.
  destruct (launched o cb) as [w0|] eqn:Hl; [|discriminate].
  exists w0, es. split; [exact Hl | exact H].
Qed.

Lemma Client_stop_running (k : nat) (w w1 : World) :
  Client_stop k w = Ok tt w1 -> is_running w1 = is_running w.
Proof.
  unfold Client_stop, is_running. plumb.
  destruct (operation w) as [op|]; plumb; [|discriminate].
  destruct (lookup k (clients op)) as [c|]; plumb; [|discriminate].
  destruct (requestTimer c); plumb; intros H; injection H as <-; reflexivity.
Qed.

Lemma forEach_running (ks : list nat) :
  forall w w', forEach ks Client_stop w = Ok tt w' -> is_running w' = is_running w.
Proof.
  induction ks as [|k ks IH]; intros w w' H; simpl in H.
  - injection H as <-. reflexivity.
  - unfold bind in H.
    destruct (Client_stop k w) as [[] w1 | e w1] eqn:Ek; [|discriminate].
    rewrite (IH w1 w' H). exact (Client_stop_running k w w1 Ek).
Qed.

(** Whatever the state, a call of [stop] that returns leaves the Operation
    stopped. *)
Lemma stop_leaves_stopped (w w' : World) :
  stop w = Ok tt w' -> is_running w' = false.
Proof.
  unfold stop. plumb.
  destruct (operation w) as [op|] eqn:Hop; plumb; [|discriminate].
  destruct (showTimer op); plumb; rewrite ?Hop; plumb;
    (match goal with
     | |- context [forEach ?ks Client_stop ?w1] =>
         destruct (forEach ks Client_stop w1) as [[] w2 | e w2] eqn:Ef;
         [apply forEach_running in Ef | discriminate]
     end);
    unfold is_running in *; simpl in Ef;
    destruct (operation w2) as [op2|] eqn:Hop2; plumb; try discriminate;
    destruct (callback op2); plumb;
    try (destruct (latency op2); plumb; try discriminate);
    intros H; injection H as <-; simpl; rewrite ?Hop2; exact Ef.
Qed.

Lemma latency_end_options (id : nat) (code : jsval) (w w1 : World) :
  latency_end id code w = Ok tt w1 -> options w1 = options w.
Proof.
  unfold latency_end. plumb.
  destruct (operation w) as [op|]; plumb; [|discriminate].
  destruct (latency op) as [l|]; plumb; [|discriminate].
  destruct (is_unfinished id l); plumb; intros H; injection H as <-; reflexivity.
Qed.

Lemma step_enabled (e : Event) (w w' : World) :
  step e w = Some w' -> enabled e w = true.
Proof. unfold step. destruct (enabled e w); [reflexivity | discriminate]. Qed.

(** A completion dispatches one request when the hook continues, and none
    otherwise. *)
Lemma Complete_dispatched (o : Options) (cb : bool) (w : World)
      (op : Operation) (l : Latency) (index id : nat) (c : Completion)
      (w' : World) :
  sound o cb w op l -> step (Complete index id c) w = Some w' ->
  dispatched w' = (dispatched w + Nat.b2n (continues (options w) op))%nat.
Proof.
  intros S Hstep.
  destruct (Complete_effect o cb w op l index id c S (step_enabled _ _ _ Hstep))
    as (w1 & op' & l' & Hstep' & E).
  rewrite Hstep' in Hstep. injection Hstep as <-.
  unfold dispatched. fold (count is_request (trace w1)).
  fold (count is_request (trace w)).
  rewrite (fe_trace _ _ _ _ _ _ _ _ _ E). simpl. rewrite !count_app.
  assert (H1 : count is_request
                 (if is_unfinished id l then [] else [EndUnknown id]) = 0%nat)
    by (destruct (is_unfinished id l); reflexivity).
  assert (H2 : count is_request
                 (if reaches (options w) op
                  then stop_actions (counted id (completion_code c) l op)
                  else []) = 0%nat).
  { destruct (reaches (options w) op); [apply requests_stop_actions | reflexivity]. }
  rewrite H1, H2. destruct (continues (options w) op); simpl; unfold count; simpl; lia.
Qed.

Lemma closed_loop_after (o : Options) (cb : bool) (w : World) (op : Operation)
      (l : Latency) :
  sound (resolved o cb) cb w op l ->
  truthy_num (requestsPerSecond o) = false -> closed_loop w = true.
Proof.
  intros S Hr. unfold closed_loop. rewrite (so_options _ _ _ _ _ S).
  destruct (resolved_fields o cb) as (_ & _ & -> & _). now rewrite Hr.
Qed.

(** * The claims of the specification *)

(** ** C1: the final callback *)

(** C1 as stated fails: the only request completes, which stops the
    Operation and delivers the final statistics; the timeout of [maxSeconds]
    is still pending, fires, and [stop] delivers them a second time. *)
Lemma final_callback_once_counterexample :
  option_map (fun w => (fired w, reached w, finals w))
             (after both_triggers true
                    [Complete 0 0 (ResponseEnded 200); Deadline])
  = Some (true, true, 2%nat).
Proof. vm_compute. reflexivity. Qed.

(** C1, amended.  [stop] is not guarded: every invocation runs the whole
    shutdown again.  Each stop trigger invokes it once (the timeout of
    [maxSeconds] when it fires, the completion hook when the counter becomes
    equal to [maxRequests]), and the Operation is running exactly as long as
    neither has fired.  So the final statistics callback, when one was
    supplied, has been invoked once for each trigger that has fired: twice in
    a run in which both fire, once in a run in which exactly one does. *)
Theorem final_callback_per_trigger (o : Options) (cb : bool) (es : list Event)
        (w : World) :
  after o cb es = Some w ->
  finals w = (if cb then (Nat.b2n (fired w) + Nat.b2n (reached w))%nat else 0%nat)
  /\ is_running w = negb (fired w || reached w).
Proof.
  intros Hafter.
  destruct (after_sound o cb es w Hafter) as (op & l & S).
  split; [exact (so_finals _ _ _ _ _ S)|].
  unfold is_running. rewrite (so_operation _ _ _ _ _ S).
  exact (so_running _ _ _ _ _ S).
Qed.

Lemma final_callback_per_trigger_witness :
  after both_triggers true [Complete 0 0 (ResponseEnded 200); Deadline]
  = Some both_fired
  /\ finals both_fired = 2%nat
  /\ is_running both_fired = false.
Proof.
  split; [vm_compute; reflexivity|].
  exact (final_callback_per_trigger both_triggers true
           [Complete 0 0 (ResponseEnded 200); Deadline] both_fired eq_refl).
Defined.

(** ** C2: the counter when the request trigger stops the run *)

(** C2.  In a run with [maxRequests = N], as long as the timeout of
    [maxSeconds] has not fired: a turn of the event loop that takes the
    Operation from running to stopped leaves the completed counter at
    exactly [N]; and, [N] being a positive count, the Operation is running
    exactly while the counter is below [N], so the stop is triggered neither
    before the counter reaches [N] nor later. *)
Theorem completed_counter_at_stop (o : Options) (cb : bool) (N : Z)
        (es : list Event) (e : Event) (w w' : World) :
  maxRequests o = Num N ->
  after o cb es = Some w ->
  step e w = Some w' ->
  fired w' = false ->
  (is_running w = true -> is_running w' = false -> completed_count w' = N)
  /\ (0 < N -> (is_running w' = true <-> completed_count w' < N)).
Proof.
  intros HN Hafter Hstep Hfired.
  destruct (after_sound o cb es w Hafter) as (op & l & S).
  destruct (sound_step _ cb w op l e w' S Hstep) as (op' & l' & S' & _ & Hreq & _).
  destruct (resolved_fields o cb) as (Hmr & _).
  assert (Hr : reached w = (0 <? N) && (N <=? requests op)).
  { unfold reached, completed_count.
    now rewrite (so_operation _ _ _ _ _ S), (so_options _ _ _ _ _ S), Hmr, HN. }
  assert (Hr' : reached w' = (0 <? N) && (N <=? requests op')).
  { unfold reached, completed_count.
    now rewrite (so_operation _ _ _ _ _ S'), (so_options _ _ _ _ _ S'), Hmr, HN. }
  pose proof (so_running _ _ _ _ _ S) as Hrun.
  pose proof (so_running _ _ _ _ _ S') as Hrun'.
  rewrite Hfired, Hr' in Hrun'. simpl in Hrun'. rewrite Hr in Hrun.
  unfold is_running, completed_count.
  rewrite (so_operation _ _ _ _ _ S), (so_operation _ _ _ _ _ S').
  rewrite Hrun, Hrun'. split.
  - intros H1 H2. apply negb_true_iff in H1. apply orb_false_elim in H1.
    destruct H1 as [_ H1]. apply negb_false_iff in H2.
    apply andb_prop in H2. destruct H2 as [Hpos H2].
    rewrite Hpos in H1. simpl in H1.
    apply Z.leb_gt in H1. apply Z.leb_le in H2. lia.
  - intros Hpos. apply Z.ltb_lt in Hpos. rewrite Hpos. simpl.
    rewrite negb_true_iff, Z.leb_gt. tauto.
Qed.

Lemma completed_counter_at_stop_witness :
  is_running two_completed = true
  /\ is_running three_completed = false
  /\ completed_count three_completed = 3.
Proof.
  destruct (completed_counter_at_stop two_clients true 3
              [Complete 0 0 (ResponseEnded 200); Complete 1 1 (ResponseEnded 500)]
              (Complete 0 2 (RequestFailed "ECONNRESET"))
              two_completed three_completed eq_refl eq_refl eq_refl eq_refl)
    as (Hstop & _).
  split; [reflexivity|]. split; [reflexivity|].
  apply Hstop; reflexivity.
Defined.

(** ** C3: the order of the shutdown *)

(** C3 as stated fails: in a launched run, [stop] stops the show timer
    before it writes the running flag. *)
Lemma stop_order_counterexample :
  match launched (localhost (Num 2) Absent Absent Absent) true with
  | Some w =>
      match operation w, stop w with
      | Some op, Ok _ w' =>
          trace w' =
            trace w ++ [ShowTimerStop; RunningFalse; ClientStop 0; ClientStop 1;
                        FinalCallback {| totalRequests := 0; totalErrors := 0 |}]
          /\ trace w' <> trace w ++ spec_stop_actions op
      | _, _ => False
      end
  | None => False
  end.
Proof. vm_compute. split; [reflexivity | discriminate]. Qed.

(** C3, amended.  [stop] first stops the periodic show timer (when it has
    been started), then sets the running flag to false, then calls [stop()]
    on every client in the order of their indices, and only then, if a
    result callback was supplied, delivers the final statistics; it returns
    with the Operation stopped and nothing else done. *)
Theorem stop_order (w : World) (op : Operation) :
  operation w = Some op ->
  (callback op = true -> latency op <> None) ->
  exists w',
    stop w = Ok tt w'
    /\ trace w' =
         trace w
         ++ (match showTimer op with Some _ => [ShowTimerStop] | None => [] end)
         ++ [RunningFalse]
         ++ map ClientStop (keys (clients op))
         ++ (if callback op then
               match latency op with
               | Some l => [FinalCallback (Latency_getResults l)]
               | None => []
               end
             else [])
    /\ is_running w' = false
    /\ inflight w' = inflight w
    /\ completed_count w' = requests op.
Proof.
  intros Hop Hlat.
  destruct (stop_spec w op Hop Hlat) as (cs' & Hstop & _).
  eexists. split; [exact Hstop|]. repeat split.
Qed.

Lemma stop_order_witness :
  exists w',
    stop two_clients_launched = Ok tt w'
    /\ trace w' =
         [HttpRequest 0 0 None; HttpRequest 1 1 None; ShowTimerStop;
          RunningFalse; ClientStop 0; ClientStop 1;
          FinalCallback {| totalRequests := 0; totalErrors := 0 |}]
    /\ is_running w' = false
    /\ inflight w' = [(0%nat, 0%nat); (1%nat, 1%nat)]
    /\ completed_count w' = 0.
Proof.
  destruct (stop_order two_clients_launched _ eq_refl) as (w' & H).
  - discriminate.
  - exists w'. exact H.
Defined.

(** ** C4: nothing is dispatched once the Operation is stopped *)

(** C4.  In every state in which the running flag of the Operation is false,
    [makeRequest] is a no-op (the world it leaves is the one it found: no
    request dispatched, no latency record started) and the completion hook
    behaves as if no continue callback had been passed; hence, from any
    world of a run in which the Operation is stopped, no turn of the event
    loop dispatches a request: the Operation stays stopped and the number of
    dispatched requests and of requests in flight never grows. *)
Theorem no_dispatch_when_stopped (w : World) (op : Operation) :
  operation w = Some op -> running op = false ->
  (forall index, makeRequest index w = Ok tt w)
  /\ (forall error result next,
         Operation_callback error result (Some next) w
         = Operation_callback error result None w)
  /\ (forall o cb es0 es w',
         after o cb es0 = Some w -> run es w = Some w' ->
         is_running w' = false
         /\ dispatched w' = dispatched w
         /\ forall j, (inflight_of j w' <= inflight_of j w)%nat).
Proof.
  intros Hop Hr. split; [|split].
  - intros index. exact (makeRequest_stopped index w op Hop Hr).
  - intros error result next.
    unfold Operation_callback. plumb. rewrite Hop. plumb.
    destruct (truthy_num (maxRequests (options w))); plumb;
      [destruct (loose_eq (requests op + 1) (maxRequests (options w))); plumb|];
      try (rewrite Hr; reflexivity).
    match goal with
    | |- context [stop ?w1] =>
        destruct (stop w1) as [[] w2 | e w2] eqn:Es; [|reflexivity]
    end.
    apply stop_leaves_stopped in Es. unfold is_running in Es.
    destruct (operation w2) as [op2|]; plumb; [|reflexivity].
    rewrite Es. reflexivity.
  - intros o cb es0 es w' Hafter Hrun.
    destruct (after_sound o cb es0 w Hafter) as (op0 & l & S).
    assert (op0 = op) by (rewrite (so_operation _ _ _ _ _ S) in Hop; congruence).
    subst op0.
    destruct (sound_run _ cb es w op l w' S Hrun) as (op' & l' & S' & _ & _ & Hs).
    destruct (Hs Hr) as (Hf & Hd & Hi).
    split; [|split; [exact Hd | exact Hi]].
    unfold is_running. now rewrite (so_operation _ _ _ _ _ S').
Qed.

Lemma no_dispatch_when_stopped_witness :
  is_running three_completed = false
  /\ makeRequest 1 three_completed = Ok tt three_completed
  /\ is_running all_over = false
  /\ dispatched all_over = dispatched three_completed
  /\ (inflight_of 1 all_over <= inflight_of 1 three_completed)%nat.
Proof.
  destruct (no_dispatch_when_stopped three_completed _ eq_refl eq_refl)
    as (Hmake & _ & Hrun).
  split; [reflexivity|]. split; [exact (Hmake 1%nat)|].
  destruct (Hrun two_clients true
              [Complete 0 0 (ResponseEnded 200);
               Complete 1 1 (ResponseEnded 500);
               Complete 0 2 (RequestFailed "ECONNRESET")]
              [Complete 1 3 (ResponseEnded 200); Deadline] all_over
              eq_refl eq_refl) as (Hstopped & Hsame & Hless).
  split; [exact Hstopped|]. split; [exact Hsame | exact (Hless 1%nat)].
Defined.

(** ** C5: the continue callback *)

(** C5.  The request finisher finalizes the latency record and then calls
    the completion hook of the Operation with a continue callback, the
    client's own [makeRequest], if and only if the client is in closed-loop
    mode (no [requestsPerSecond]); in open-loop mode it passes none.  So in
    a run a completion dispatches the next request exactly when the client
    is in closed-loop mode and the Operation is still running after the
    hook has counted the request; in open-loop mode it never does. *)
Theorem continue_only_in_closed_loop :
  (forall (index id : nat) (error result : jsval) (w : World),
      requestFinished index id error result w
      = (latency_end id (errorCode_of error result) ;;
         Operation_callback error result
           (if closed_loop w then Some (makeRequest index) else None)) w)
  /\ (forall (o : Options) (cb : bool) (es : list Event) (w : World)
             (index id : nat) (c : Completion) (w' : World),
         after o cb es = Some w ->
         step (Complete index id c) w = Some w' ->
         dispatched w' =
           (dispatched w + Nat.b2n (closed_loop w && is_running w'))%nat
         /\ (closed_loop w = false -> dispatched w' = dispatched w)).
Proof.
  split.
  - intros index id error result w.
    unfold requestFinished. fold (errorCode_of error result).
    unfold bind at 1 3.
    destruct (latency_end id (errorCode_of error result) w) as [[] w1 | e w1] eqn:El;
      [|reflexivity].
    unfold getOptions, bind. unfold closed_loop.
    rewrite (latency_end_options _ _ _ _ El). reflexivity.
  - intros o cb es w index id c w' Hafter Hstep.
    destruct (after_sound o cb es w Hafter) as (op & l & S).
    pose proof (Complete_dispatched _ cb w op l index id c w' S Hstep) as Hd.
    destruct (Complete_effect _ cb w op l index id c S (step_enabled _ _ _ Hstep))
      as (w1 & op' & l' & Hstep' & E).
    rewrite Hstep' in Hstep. injection Hstep as <-.
    assert (Hcont : continues (options w) op = closed_loop w && is_running w1).
    { unfold is_running, closed_loop, continues.
      rewrite (fe_operation _ _ _ _ _ _ _ _ _ E), (fe_running _ _ _ _ _ _ _ _ _ E).
      simpl. apply andb_comm. }
    rewrite Hcont in Hd. split; [exact Hd|].
    intros Hopen. rewrite Hd, Hopen. simpl. lia.
Qed.

Lemma continue_only_in_closed_loop_witness :
  step (Complete 0 1 (ResponseEnded 200)) paced_in_flight = Some paced_completed
  /\ closed_loop paced_in_flight = false
  /\ dispatched paced_completed = dispatched paced_in_flight.
Proof.
  split; [reflexivity|]. split; [reflexivity|].
  exact (proj2 (proj2 continue_only_in_closed_loop paced false
                  [DelayedStart 0; RequestTick 0; RequestTick 0] paced_in_flight
                  0%nat 1%nat (ResponseEnded 200) paced_completed
                  eq_refl eq_refl)
               eq_refl).
Defined.

(** ** C6: a closed-loop client is serial *)

(** C6.  In a run without a request rate every client is strictly serial:
    [loadTest] returns with exactly one request of each client in flight;
    at every moment of the run no client has more than one request in
    flight, and has exactly one while the Operation is running; the
    completion of a client's request is followed at once by its next request
    if the Operation is still running, and by none otherwise; and no event
    other than a completion dispatches a request. *)
Theorem closed_loop_serial (o : Options) (cb : bool) (es : list Event)
        (w0 w : World) :
  launched o cb = Some w0 ->
  run es w0 = Some w ->
  truthy_num (requestsPerSecond o) = false ->
  (forall j, In j (created w0) -> inflight_of j w0 = 1%nat)
  /\ (forall j, (inflight_of j w <= 1)%nat)
  /\ (forall j, is_running w = true -> In j (created w) ->
                inflight_of j w = 1%nat)
  /\ (forall index id c w',
         step (Complete index id c) w = Some w' ->
         inflight_of index w' = Nat.b2n (is_running w')
         /\ dispatched w' = (dispatched w + Nat.b2n (is_running w'))%nat)
  /\ (forall e w',
         step e w = Some w' -> dispatched w' <> dispatched w ->
         exists index id c, e = Complete index id c).
Proof.
  intros Hl Hrun Hrps.
  destruct (launched_set_up o cb w0 Hl) as (ctor & op0 & l0 & _ & Hup).
  pose proof (up_sound _ _ _ _ _ _ Hup) as S0.
  destruct (sound_run _ cb es w0 op0 l0 w S0 Hrun) as (op & l & S & _).
  pose proof (closed_loop_after o cb w0 op0 l0 S0 Hrps) as Hc0.
  pose proof (closed_loop_after o cb w op l S Hrps) as Hc.
  destruct (so_closed _ _ _ _ _ S0 Hc0) as (_ & _ & Hone0).
  destruct (so_closed _ _ _ _ _ S Hc) as (Hst & Htl & Hone).
  split; [|split; [|split; [|split]]].
  - intros j Hj. unfold created in Hj. rewrite (so_operation _ _ _ _ _ S0) in Hj.
    exact (proj2 (Hone0 j) (up_running _ _ _ _ _ _ Hup) Hj).
  - intros j. exact (proj1 (Hone j)).
  - intros j Hr Hj. unfold is_running, created in *.
    rewrite (so_operation _ _ _ _ _ S) in *. exact (proj2 (Hone j) Hr Hj).
  - intros index id c w' Hstep.
    pose proof (Complete_dispatched _ cb w op l index id c w' S Hstep) as Hd.
    destruct (Complete_effect _ cb w op l index id c S (step_enabled _ _ _ Hstep))
      as (w1 & op' & l' & Hstep' & E).
    rewrite Hstep' in Hstep. injection Hstep as <-.
    assert (Hcont : continues (options w) op = is_running w1).
    { unfold is_running. rewrite (fe_operation _ _ _ _ _ _ _ _ _ E).
      rewrite (fe_running _ _ _ _ _ _ _ _ _ E). unfold continues. simpl.
      unfold closed_loop in Hc. rewrite Hc. now rewrite andb_true_r. }
    rewrite Hcont in Hd. split; [|exact Hd].
    unfold inflight_of. fold (of_client index (inflight w1)).
    rewrite (fe_inflight _ _ _ _ _ _ _ _ _ E). simpl.
    rewrite of_client_app, Hcont.
    pose proof (of_client_removed_lt index id (inflight w)
                  (enabled_Complete_In _ _ _ (step_enabled _ _ _ Hstep'))) as Hlt.
    pose proof (proj1 (Hone index)) as Hle. unfold inflight_of in Hle.
    fold (of_client index (inflight w)) in Hle.
    destruct (is_running w1); unfold of_client at 2; simpl;
      rewrite ?Nat.eqb_refl; simpl; lia.
  - intros e w' Hstep Hd. destruct e as [index id c | index | index | | ].
    + exists index, id, c. reflexivity.
    + exfalso. pose proof (step_enabled _ _ _ Hstep) as En. simpl in En.
      rewrite (so_operation _ _ _ _ _ S) in En.
      destruct (lookup index (clients op)) as [c|] eqn:Ec; [|discriminate].
      rewrite (Htl index c Ec) in En. discriminate.
    + exfalso. pose proof (step_enabled _ _ _ Hstep) as En. simpl in En.
      rewrite Hst in En. discriminate.
    + exfalso. apply Hd. unfold step in Hstep.
      destruct (enabled Deadline w); [|discriminate].
      destruct (handler_Deadline w op (so_operation _ _ _ _ _ S)) as (cs' & Hh & _).
      { intros _. rewrite (so_latency _ _ _ _ _ S). discriminate. }
      rewrite Hh in Hstep. injection Hstep as <-.
      rewrite (dispatched_trace w _ (stop_actions op)) by reflexivity.
      rewrite requests_stop_actions. lia.
    + exfalso. apply Hd. unfold step in Hstep.
      destruct (enabled ShowTick w); [|discriminate].
      rewrite (handler_ShowTick w op l (so_operation _ _ _ _ _ S)
                 (so_latency _ _ _ _ _ S)) in Hstep.
      injection Hstep as <-.
      rewrite (dispatched_trace w _ [ShowPartial (fst (Latency_showPartial l))])
        by reflexivity.
      unfold count. simpl. lia.
Qed.

Lemma closed_loop_serial_witness :
  inflight_of 0 two_clients_launched = 1%nat
  /\ inflight_of 1 two_clients_launched = 1%nat
  /\ (inflight_of 0 one_completed <= 1)%nat
  /\ inflight_of 1 one_completed = 1%nat
  /\ inflight_of 1 two_completed = Nat.b2n (is_running two_completed)
  /\ dispatched two_completed
     = (dispatched one_completed + Nat.b2n (is_running two_completed))%nat.
Proof.
  destruct (closed_loop_serial two_clients true
              [Complete 0 0 (ResponseEnded 200)]
              two_clients_launched one_completed eq_refl eq_refl eq_refl)
    as (Hstart & Hone & Hrunning & Hnext & _).
  split; [apply Hstart; simpl; tauto|].
  split; [apply Hstart; simpl; tauto|].
  split; [apply Hone|].
  split; [apply Hrunning; [reflexivity | simpl; tauto]|].
  apply (Hnext 1%nat 1%nat (ResponseEnded 500) two_completed).
  reflexivity.
Defined.

(** ** C7: failed requests are absorbed *)

(** C7.  In a run, every finished request is handled without an exception:
    the latency record of its id is finalized, with error code ['-1'] for an
    error on the request, ['1'] for an error on the connection, the status
    itself for a response with status 300 or more, and [null] otherwise; the
    completed counter goes up by exactly one; the running flag changes only
    if the counter has reached [maxRequests], whatever the outcome of the
    request; and the run goes on, every pending event can still be
    delivered. *)
Theorem errors_absorbed (o : Options) (cb : bool) (es : list Event) (w : World)
        (op : Operation) (l : Latency) (index id : nat) (c : Completion) :
  after o cb es = Some w ->
  operation w = Some op -> latency op = Some l ->
  enabled (Complete index id c) w = true ->
  exists w' op' l',
    step (Complete index id c) w = Some w'
    /\ operation w' = Some op' /\ latency op' = Some l'
    /\ finished l' =
         finished l
         ++ [(id,
              match c with
              | RequestFailed _ => VStr "-1"
              | ConnectionFailed _ => VStr "1"
              | ResponseEnded statusCode =>
                  if 300 <=? statusCode then VNum statusCode else VNull
              end)]
    /\ requests op' = requests op + 1
    /\ running op' = running op && negb (reaches (options w) op)
    /\ forall e, enabled e w' = true -> exists w'', step e w' = Some w''.
Proof.
  intros Hafter Hop Hlat En.
  destruct (after_sound o cb es w Hafter) as (op0 & l0 & S).
  assert (op0 = op) by (rewrite (so_operation _ _ _ _ _ S) in Hop; congruence).
  subst op0.
  assert (l0 = l) by (rewrite (so_latency _ _ _ _ _ S) in Hlat; congruence).
  subst l0.
  destruct (Complete_effect _ cb w op l index id c S En)
    as (w' & op' & l' & Hstep & E).
  destruct (tracked_end w l index id (completion_code c)
              (so_tracked _ _ _ _ _ S)
              (enabled_Complete_In _ _ _ En)) as (Hu & _).
  exists w', op', l'. split; [exact Hstep|].
  split; [exact (fe_operation _ _ _ _ _ _ _ _ _ E)|].
  split; [exact (fe_latency _ _ _ _ _ _ _ _ _ E)|].
  split.
  { rewrite (fe_finished _ _ _ _ _ _ _ _ _ E). unfold Latency_end.
    rewrite Hu. reflexivity. }
  split; [exact (fe_requests _ _ _ _ _ _ _ _ _ E)|].
  split; [exact (fe_running _ _ _ _ _ _ _ _ _ E)|].
  destruct (sound_step _ cb w op l _ w' S Hstep) as (op1 & l1 & S1 & _).
  intros e He. exact (progress _ cb w' op1 l1 e S1 He).
Qed.

Lemma errors_absorbed_witness :
  exists w' op' l',
    step (Complete 1 1 (ResponseEnded 500)) one_completed = Some w'
    /\ operation w' = Some op' /\ latency op' = Some l'
    /\ finished l' = [(0%nat, VNull); (1%nat, VNum 500)]
    /\ requests op' = 2
    /\ running op' = true
    /\ forall e, enabled e w' = true -> exists w'', step e w' = Some w''.
Proof.
  exact (errors_absorbed two_clients true [Complete 0 0 (ResponseEnded 200)]
           one_completed _ _ 1%nat 1%nat (ResponseEnded 500)
           eq_refl eq_refl eq_refl eq_refl).
Defined.

(** ** C8: a missing URL *)

(** C8.  For every options value with no [url] field, [loadTest] reports the
    error and returns at once: the error is logged, no Operation is created,
    no request is dispatched, nothing is pending, and no event can ever be
    delivered, so the run never begins. *)
Theorem missing_url_refused (o : Options) (cb : bool) :
  url o = None ->
  exists w,
    loadTest cb (boot o) = Ok tt w
    /\ trace w = [LogError "Missing URL in options"]
    /\ operation w = None
    /\ options w = o
    /\ inflight w = [] /\ starting w = [] /\ deadline w = false
    /\ dispatched w = 0%nat
    /\ launched o cb = None
    /\ forall e, step e w = None.
Proof.
  intros Hurl.
  assert (Hch : chosen o = None) by (unfold chosen; now rewrite Hurl).
  pose proof (loadTest_refused o cb Hch) as Hrun.
  rewrite Hurl in Hrun. simpl in Hrun.
  eexists. split; [exact Hrun|].
  repeat split.
  - unfold launched. now rewrite Hrun.
  - intros e. unfold step. destruct e; reflexivity.
Qed.

Lemma missing_url_refused_witness :
  url (set_url None (localhost (Num 4) (Num 10) Absent Absent)) = None
  /\ exists w,
       loadTest true (boot (set_url None (localhost (Num 4) (Num 10) Absent Absent)))
       = Ok tt w
       /\ trace w = [LogError "Missing URL in options"]
       /\ operation w = None
       /\ options w = set_url None (localhost (Num 4) (Num 10) Absent Absent)
       /\ inflight w = [] /\ starting w = [] /\ deadline w = false
       /\ dispatched w = 0%nat
       /\ launched (set_url None (localhost (Num 4) (Num 10) Absent Absent)) true
          = None
       /\ forall e, step e w = None.
Proof.
  split; [reflexivity|].
  apply (missing_url_refused
           (set_url None (localhost (Num 4) (Num 10) Absent Absent)) true).
  reflexivity.
Defined.

(** ** C9: the index substitution *)

(** C9 as stated fails when no client is asked for: with a negative
    concurrency the loop of [startClients] is not entered, the identifier
    [indexParam] is never evaluated, and [loadTest] returns without an
    error, leaving an Operation that runs with no client. *)
Lemma indexParam_raises_counterexample :
  truthy_str
    (indexParam
       (set_indexParam (Some "id") (localhost (Num (-1)) Absent Absent Absent)))
  = true
  /\ match loadTest false
             (boot (set_indexParam (Some "id")
                      (localhost (Num (-1)) Absent Absent Absent))) with
     | Ok _ w => created w = [] /\ is_running w = true /\ trace w = []
     | Throw _ _ => False
     end.
Proof. vm_compute. repeat split. Qed.

(** C9, amended.  When [indexParam] is set and the loop of [startClients]
    is entered (the concurrency of the options is a positive number), its
    first turn evaluates the undefined identifier [indexParam] and throws a
    ReferenceError before it creates a client: the world is left as it was.
    Through [loadTest], for every accepted URL and every concurrency that
    is not negative (absent, [null] and 0 have become 1), the error leaves
    an Operation without clients and nothing dispatched.  When the
    concurrency gives the loop no turn, [startClients] returns at once,
    with no error and the world as it was, whatever [indexParam] is. *)
Theorem indexParam_raises :
  (forall w : World,
      truthy_str (indexParam (options w)) = true ->
      (0 < iterations (concurrency (options w)))%nat ->
      startClients w = Throw (ReferenceError "indexParam") w)
  /\ (forall (o : Options) (cb : bool) (ctor : Constructor),
         chosen o = Some ctor ->
         truthy_str (indexParam o) = true ->
         (forall z, concurrency o = Num z -> 0 <= z) ->
         exists w,
           loadTest cb (boot o) = Throw (ReferenceError "indexParam") w
           /\ created w = [] /\ inflight w = [] /\ starting w = []
           /\ dispatched w = 0%nat
           /\ launched o cb = None)
  /\ (forall w : World,
         iterations (concurrency (options w)) = 0%nat ->
         startClients w = Ok tt w).
Proof.
  assert (Hnone : forall w : World,
             iterations (concurrency (options w)) = 0%nat ->
             startClients w = Ok tt w).
  { intros w Hz. unfold startClients. plumb. rewrite Hz. reflexivity. }
  cut ((forall w : World,
           truthy_str (indexParam (options w)) = true ->
           (0 < iterations (concurrency (options w)))%nat ->
           startClients w = Throw (ReferenceError "indexParam") w)
       /\ (forall (o : Options) (cb : bool) (ctor : Constructor),
              chosen o = Some ctor ->
              truthy_str (indexParam o) = true ->
              (forall z, concurrency o = Num z -> 0 <= z) ->
              exists w,
                loadTest cb (boot o) = Throw (ReferenceError "indexParam") w
                /\ created w = [] /\ inflight w = [] /\ starting w = []
                /\ dispatched w = 0%nat
                /\ launched o cb = None)).
  { intros (H1 & H2). split; [exact H1|]. split; [exact H2 | exact Hnone]. }
  assert (Hloop : forall w : World,
             truthy_str (indexParam (options w)) = true ->
             (0 < iterations (concurrency (options w)))%nat ->
             startClients w = Throw (ReferenceError "indexParam") w).
  { intros w Hip Hpos. unfold startClients. plumb.
    destruct (iterations (concurrency (options w))) as [|n]; [lia|].
    simpl. unfold startClients_body. plumb. rewrite Hip. reflexivity. }
  split; [exact Hloop|].
  intros o cb ctor Hch Hip Hc.
  destruct (resolved_fields o cb) as (_ & _ & _ & Hi & _ & Hcc).
  assert (Hrun : loadTest cb (boot o) =
                 Throw (ReferenceError "indexParam")
                   {| options := resolved o cb;
                      operation :=
                        Some {| constructor := ctor; callback := cb;
                                running := true; latency := Some Latency_new;
                                clients := []; requests := 0;
                                showTimer := None |};
                      logLevel := if debug o then DEBUG else INFO;
                      inflight := []; starting := []; deadline := false;
                      trace := [] |}).
  { rewrite (loadTest_chosen o cb ctor Hch).
    unfold Operation_start, fresh. plumb.
    match goal with
    | |- context [startClients ?w1] => rewrite (Hloop w1)
    end.
    - reflexivity.
    - simpl. rewrite Hi. exact Hip.
    - simpl. rewrite Hcc. unfold or_num.
      destruct (concurrency o) as [| |z] eqn:Ec; simpl; try lia.
      destruct (Z.eqb_spec z 0); simpl; [lia|].
      specialize (Hc z eq_refl). lia. }
  eexists. split; [exact Hrun|].
  repeat split. unfold launched. now rewrite Hrun.
Qed.

Lemma indexParam_raises_witness :
  startClients
    (fresh (set_indexParam (Some "id") (localhost (Num 3) Absent Absent Absent))
           HttpClient false INFO)
  = Throw (ReferenceError "indexParam")
      (fresh (set_indexParam (Some "id") (localhost (Num 3) Absent Absent Absent))
             HttpClient false INFO)
  /\ exists w,
       loadTest false
         (boot (set_indexParam (Some "id") (localhost Absent Absent Absent Absent)))
       = Throw (ReferenceError "indexParam") w
       /\ created w = [] /\ inflight w = [] /\ starting w = []
       /\ dispatched w = 0%nat
       /\ launched
            (set_indexParam (Some "id") (localhost Absent Absent Absent Absent))
            false = None.
Proof.
  split.
  - apply (proj1 indexParam_raises); [reflexivity | simpl; lia].
  - apply (proj1 (proj2 indexParam_raises)
             (set_indexParam (Some "id") (localhost Absent Absent Absent Absent))
             false HttpClient); [reflexivity | reflexivity |].
    intros z Hz. discriminate Hz.
Defined.

(** ** C10: the default concurrency *)

(** C10 as stated fails where [loadTest] refuses the options: with no URL it
    returns before the assignment, the concurrency stays absent, and neither
    an Operation nor a client is created. *)
Lemma default_concurrency_counterexample :
  truthy_num (concurrency (set_url None (localhost Absent Absent Absent Absent)))
  = false
  /\ match loadTest false
             (boot (set_url None (localhost Absent Absent Absent Absent))) with
     | Ok _ w =>
         concurrency (options w) = Absent
         /\ operation w = None
         /\ created w = []
     | Throw _ _ => False
     end.
Proof. vm_compute. repeat split. Qed.

(** C10, amended.  For every options value whose URL [loadTest] accepts and
    whose concurrency is absent, [null] or zero, [loadTest] sets the
    concurrency to 1 before it creates the Operation; and when no index
    substitution is asked for and [init] accepts the body, the run is
    launched with exactly one client, the one of index 0. *)
Theorem default_concurrency (o : Options) (cb : bool) (ctor : Constructor) :
  chosen o = Some ctor ->
  concurrency o = Absent \/ concurrency o = Null \/ concurrency o = Num 0 ->
  concurrency (resolved o cb) = Num 1
  /\ loadTest cb (boot o) =
       Operation_start
         (fresh (resolved o cb) ctor cb (if debug o then DEBUG else INFO))
  /\ (truthy_str (indexParam o) = false ->
      ctor = WebSocketClient \/ body_ok o = true ->
      exists w0,
        launched o cb = Some w0
        /\ concurrency (options w0) = Num 1
        /\ created w0 = [0%nat]).
Proof.
  intros Hch Hc.
  destruct (resolved_fields o cb) as (_ & _ & _ & _ & _ & Hcc).
  assert (H1 : concurrency (resolved o cb) = Num 1).
  { rewrite Hcc. destruct Hc as [-> | [-> | ->]]; reflexivity. }
  split; [exact H1|]. split; [exact (loadTest_chosen o cb ctor Hch)|].
  intros Hip Hbody.
  destruct (launched_total o cb ctor Hch Hip Hbody) as (w0 & Hl).
  destruct (launched_set_up o cb w0 Hl) as (ctor' & op & l & _ & Hup).
  exists w0. split; [exact Hl|].
  destruct Hup as [Hs _ _ _ Hkeys _ _].
  rewrite (so_options _ _ _ _ _ Hs). split; [exact H1|].
  unfold created. rewrite (so_operation _ _ _ _ _ Hs), Hkeys, H1. reflexivity.
Qed.

Lemma default_concurrency_witness :
  chosen (localhost Null (Num 5) Absent Absent) = Some HttpClient
  /\ concurrency (resolved (localhost Null (Num 5) Absent Absent) true) = Num 1
  /\ exists w0,
       launched (localhost Null (Num 5) Absent Absent) true = Some w0
       /\ concurrency (options w0) = Num 1
       /\ created w0 = [0%nat].
Proof.
  split; [reflexivity|].
  destruct (default_concurrency (localhost Null (Num 5) Absent Absent) true
              HttpClient eq_refl (or_intror (or_introl eq_refl)))
    as (H1 & _ & H3).
  split; [exact H1|].
  apply H3; [reflexivity | right; reflexivity].
Defined.

(** * Further properties *)

(** ** The command line *)

Ltac split_options :=
  repeat match goal with
         | H : context [if ?b then _ else _] |- _ => destruct b eqn:?
         | H : context [match ?f ?v with Some _ => _ | None => _ end] |- _ =>
             destruct (f v) eqn:?
         end.

Lemma keeps_refl (o : CommandLine.Options) : keeps o o.
Proof.
  repeat split; try tauto. exists []. now rewrite app_nil_r.
Qed.

Lemma keeps_trans (o1 o2 o3 : CommandLine.Options) :
  keeps o1 o2 -> keeps o2 o3 -> keeps o1 o3.
Proof.
  intros (A1 & A2 & A3 & A4 & A5 & m1 & A6) (B1 & B2 & B3 & B4 & B5 & m2 & B6).
  repeat split; auto.
  exists (m1 ++ m2). now rewrite B6, A6, app_assoc.
Qed.

(** One call of [parseArgument] that asks for more has taken one or two
    arguments from the front and written nothing. *)
Lemma parseArgument_more (fs : string -> option string) (args args' : list string)
      (o o' : CommandLine.Options) (c c' : list CommandLine.Console) :
  CommandLine.parseArgument fs args o c = CommandLine.Returns true args' o' c' ->
  c' = c
  /\ (List.length args' < List.length args)%nat
  /\ (exists pre, args = pre ++ args')
  /\ keeps o o'
  /\ (body_has_method o -> body_has_method o').
Proof.
  unfold CommandLine.parseArgument.
  destruct args as [|a [|v rest]]; try discriminate.
  intros H. split_options; try discriminate; injection H as <- <- <-;
    (split; [reflexivity|]); (split; [simpl; lia|]);
    (split; [first [now exists [a] | now exists [a; v]]|]);
    (split; [|unfold body_has_method; simpl; try tauto]);
    try (repeat split; simpl; try tauto; try discriminate;
         exists []; now rewrite app_nil_r).
  - (* -C: one more cookie *)
    unfold CommandLine.addCookie, keeps, given_cookies.
    destruct (CommandLine.cookies o) as [cs|]; simpl;
      repeat split; try tauto; exists [v]; reflexivity.
  - unfold CommandLine.addCookie.
    destruct (CommandLine.cookies o); simpl; tauto.
Qed.

(** A call that stops the loop leaves the options as they are; it has taken
    an argument only to report it as unknown. *)
Lemma parseArgument_stop (fs : string -> option string) (args args' : list string)
      (o o' : CommandLine.Options) (c c' : list CommandLine.Console) :
  CommandLine.parseArgument fs args o c = CommandLine.Returns false args' o' c' ->
  o' = o
  /\ ((args' = args /\ c' = c)
      \/ exists a, args = a :: args' /\ args' <> []
                   /\ prefix "-" a = true
                   /\ is_flag a = false /\ takes_value a = false
                   /\ c' = c ++ [CommandLine.UnknownOption a]).
Proof.
  unfold CommandLine.parseArgument.
  destruct args as [|a [|v rest]].
  - intros H. injection H as <- <- <-. split; [reflexivity | left; split; reflexivity].
  - intros H. injection H as <- <- <-. split; [reflexivity | left; split; reflexivity].
  - intros H. split_options; try discriminate; injection H as <- <- <-;
      (split; [reflexivity|]).
    + left. split; reflexivity.
    + right. exists a. split; [reflexivity|]. split; [discriminate|].
      split; [now apply negb_false_iff|].
      unfold is_flag, takes_value. simpl.
      repeat match goal with H : (a =? _)%string = false |- _ => rewrite H; clear H end.
      repeat split.
Qed.

Lemma parseArgument_throws (fs : string -> option string) (args args' : list string)
      (o o' : CommandLine.Options) (c c' : list CommandLine.Console) (path : string) :
  CommandLine.parseArgument fs args o c = CommandLine.Throws path args' o' c' ->
  fs path = None /\ c' = c /\ keeps o o'
  /\ (exists a, args = a :: path :: args')
  /\ CommandLine.body o' = CommandLine.body o
  /\ (CommandLine.method o' = Some "POST" \/ CommandLine.method o' = Some "PUT").
Proof.
  unfold CommandLine.parseArgument.
  destruct args as [|a [|v rest]]; try discriminate.
  intros H. split_options; try discriminate; injection H as <- <- <- <-;
    (split; [assumption|]); (split; [reflexivity|]);
    (split; [repeat split; simpl; try tauto; exists []; now rewrite app_nil_r|]);
    (split; [now exists a |]); (split; [reflexivity|]);
    simpl; auto.
Qed.

(** With as many turns as there are arguments the loop has come to its
    end: more turns give the same. *)
Lemma parseArguments_turns (fs : string -> option string) (n : nat) :
  forall (m : nat) (args : list string) (o : CommandLine.Options)
         (c : list CommandLine.Console),
    (List.length args <= n)%nat -> (List.length args <= m)%nat ->
    CommandLine.parseArguments fs n args o c
    = CommandLine.parseArguments fs m args o c.
Proof.
  induction n as [|n IH]; intros m args o c Hn Hm.
  - destruct args; [|simpl in Hn; lia].
    destruct m; reflexivity.
  - destruct m as [|m].
    + destruct args; [reflexivity | simpl in Hm; lia].
    + simpl.
      destruct (CommandLine.parseArgument fs args o c)
        as [[|] args' o' c' | path args' o' c'] eqn:E; try reflexivity.
      apply parseArgument_more in E. destruct E as (_ & Hlt & _).
      apply IH; lia.
Qed.

(** What the loop leaves: the arguments not parsed are an end of the
    arguments given, nothing that was set has been undone, and at most one
    unknown option has been reported, the one that stopped the loop. *)
Lemma parseArguments_end (fs : string -> option string) (n : nat) :
  forall (args : list string) (o : CommandLine.Options)
         (c : list CommandLine.Console),
    match CommandLine.parseArguments fs n args o c with
    | CommandLine.Returns more args' o' c' =>
        more = false
        /\ (exists pre, args = pre ++ args')
        /\ keeps o o'
        /\ (body_has_method o -> body_has_method o')
        /\ (c' = c \/ exists a, is_flag a = false /\ takes_value a = false
                                /\ c' = c ++ [CommandLine.UnknownOption a])
    | CommandLine.Throws path args' o' c' =>
        fs path = None /\ keeps o o' /\ c' = c
    end.
Proof.
  induction n as [|n IH]; intros args o c.
  - simpl. split; [reflexivity|]. split; [now exists []|].
    split; [apply keeps_refl|]. split; [tauto | left; reflexivity].
  - simpl.
    destruct (CommandLine.parseArgument fs args o c)
      as [[|] args1 o1 c1 | path args1 o1 c1] eqn:E.
    + apply parseArgument_more in E.
      destruct E as (-> & _ & (pre & ->) & Hk & Hb).
      specialize (IH args1 o1 c).
      destruct (CommandLine.parseArguments fs n args1 o1 c)
        as [more args' o' c' | path args' o' c'].
      * destruct IH as (Hm & (pre' & ->) & Hk' & Hb' & Hc).
        split; [exact Hm|]. split; [exists (pre ++ pre'); now rewrite app_assoc|].
        split; [exact (keeps_trans _ _ _ Hk Hk')|]. split; [tauto | exact Hc].
      * destruct IH as (Hf & Hk' & Hc).
        split; [exact Hf|]. split; [exact (keeps_trans _ _ _ Hk Hk') | exact Hc].
    + apply parseArgument_stop in E. destruct E as (-> & Hstop).
      split; [reflexivity|].
      destruct Hstop as [(-> & ->) | (a & -> & _ & _ & Hf & Hv & ->)].
      * split; [now exists []|]. split; [apply keeps_refl|].
        split; [tauto | left; reflexivity].
      * split; [now exists [a]|]. split; [apply keeps_refl|].
        split; [tauto|]. right. exists a. repeat split; assumption.
    + apply parseArgument_throws in E.
      destruct E as (Hf & -> & Hk & _). repeat split; try assumption.
      * apply Hk.
      * apply Hk.
      * apply Hk.
      * apply Hk.
      * apply Hk.
      * apply Hk.
Qed.

(** The flags in front of the arguments are parsed one by one. *)
Lemma parseArguments_flags (fs : string -> option string)
      (flags : list string) :
  forall (n : nat) (tail : list string) (o : CommandLine.Options)
         (c : list CommandLine.Console),
    Forall (fun a => is_flag a = true) flags ->
    tail <> [] ->
    exists o',
      CommandLine.parseArguments fs (List.length flags + n) (flags ++ tail) o c
      = CommandLine.parseArguments fs n tail o' c
      /\ CommandLine.url o' = CommandLine.url o
      /\ given_cookies o' = given_cookies o.
Proof.
  induction flags as [|a flags IH]; intros n tail o c Hfl Htail.
  - exists o. repeat split.
  - inversion Hfl as [|? ? Ha Hrest]; subst.
    assert (Hne : flags ++ tail <> []).
    { destruct flags; [exact Htail | discriminate]. }
    destruct (flags ++ tail) as [|v rest] eqn:Efl; [congruence|].
    assert (Hstep : exists o1,
               CommandLine.parseArgument fs (a :: v :: rest) o c
               = CommandLine.Returns true (v :: rest) o1 c
               /\ CommandLine.url o1 = CommandLine.url o
               /\ given_cookies o1 = given_cookies o).
    { unfold is_flag in Ha. simpl in Ha.
      unfold CommandLine.parseArgument.
      repeat match type of Ha with
             | (?b || _) = true =>
                 let E := fresh "E" in
                 destruct b eqn:E;
                 [apply String.eqb_eq in E; subst a; simpl;
                  eexists; repeat split
                 | simpl in Ha]
             end.
      discriminate. }
    destruct Hstep as (o1 & Hstep & Hu & Hc).
    destruct (IH n tail o1 c Hrest Htail) as (o' & Hrun & Hu' & Hc').
    exists o'. split; [|split; congruence].
    change ((a :: flags) ++ tail) with (a :: (flags ++ tail)).
    change (List.length (a :: flags) + n)%nat with (S (List.length flags + n)).
    cbn [CommandLine.parseArguments]. rewrite Efl, Hstep. rewrite <- Efl.
    exact Hrun.
Qed.


Lemma parseArguments_last (fs : string -> option string) (n : nat) (u : string)
      (o : CommandLine.Options) (c : list CommandLine.Console) :
  CommandLine.parseArguments fs n [u] o c = CommandLine.Returns false [u] o c.
Proof. destruct n; reflexivity. Qed.

Lemma parseArguments_none (fs : string -> option string) (n : nat)
      (o : CommandLine.Options) (c : list CommandLine.Console) :
  CommandLine.parseArguments fs n [] o c = CommandLine.Returns false [] o c.
Proof. destruct n; reflexivity. Qed.

(** The arguments that give the cookies [cs]. *)
Lemma parseArguments_cookies (fs : string -> option string) (cs : list string) :
  forall (n : nat) (tail : list string) (o : CommandLine.Options)
         (c : list CommandLine.Console),
    exists o',
      CommandLine.parseArguments fs (List.length cs + n)
        (flat_map (fun k => ["-C"; k]) cs ++ tail) o c
      = CommandLine.parseArguments fs n tail o' c
      /\ given_cookies o' = given_cookies o ++ cs
      /\ CommandLine.url o' = CommandLine.url o
      /\ (forall a, CommandLine.set_url a o'
                    = CommandLine.set_cookies (CommandLine.cookies o')
                        (CommandLine.set_url a o)).
Proof.
  induction cs as [|k cs IH]; intros n tail o c.
  - exists o. simpl. rewrite app_nil_r. repeat split.
  - destruct (IH n tail (CommandLine.addCookie k o) c) as (o' & Hrun & Hc & Hu & He).
    exists o'. split; [exact Hrun|]. split; [|split].
    + rewrite Hc. unfold CommandLine.addCookie, given_cookies.
      destruct (CommandLine.cookies o); simpl; [now rewrite <- app_assoc | reflexivity].
    + rewrite Hu. unfold CommandLine.addCookie.
      destruct (CommandLine.cookies o); reflexivity.
    + intros a. rewrite He. unfold CommandLine.addCookie.
      destruct (CommandLine.cookies o); reflexivity.
Qed.

(** X1.  A call of [parseArgument] that returns [true] has removed one or
    two arguments from the front of [args] and written nothing on the
    console; so the loop of [run] ends, and within as many turns as there
    are arguments: more turns give the same result. *)
Theorem argument_loop_ends (fs : string -> option string) :
  (forall args o c args' o' c',
      CommandLine.parseArgument fs args o c
      = CommandLine.Returns true args' o' c' ->
      (List.length args' < List.length args)%nat
      /\ (exists pre, args = pre ++ args'
                      /\ (1 <= List.length pre <= 2)%nat)
      /\ c' = c)
  /\ (forall n args o c,
         (List.length args <= n)%nat ->
         CommandLine.parseArguments fs n args o c
         = CommandLine.parseArguments fs (List.length args) args o c).
Proof.
  split.
  - intros args o c args' o' c' H.
    destruct (parseArgument_more fs args args' o o' c c' H)
      as (Hc & Hlt & (pre & Hpre) & _).
    split; [exact Hlt|]. split; [|exact Hc].
    exists pre. split; [exact Hpre|].
    assert (Hlen : List.length args = (List.length pre + List.length args')%nat)
      by (rewrite Hpre; apply length_app).
    split; [lia|].
    unfold CommandLine.parseArgument in H.
    destruct args as [|a [|v rest]]; try discriminate.
    assert (Hsuf : (List.length rest <= List.length args')%nat).
    { split_options; try discriminate; injection H as <- <- <-; simpl; lia. }
    simpl in Hlen. lia.
  - intros n args o c Hn. apply parseArguments_turns; [exact Hn | lia].
Qed.

Lemma argument_loop_ends_witness :
  (List.length ["http://localhost/"] < List.length ["-n"; "10"; "http://localhost/"])%nat
  /\ CommandLine.parseArguments one_file 7
       ["-n"; "10"; "--debug"; "http://localhost/"] CommandLine.DEFAULT_OPTIONS []
     = CommandLine.parseArguments one_file 4
         ["-n"; "10"; "--debug"; "http://localhost/"] CommandLine.DEFAULT_OPTIONS [].
Proof.
  split.
  - apply (proj1 (argument_loop_ends one_file)
                 ["-n"; "10"; "http://localhost/"] CommandLine.DEFAULT_OPTIONS []
                 ["http://localhost/"]
                 (CommandLine.set_maxRequests (Some "10") CommandLine.DEFAULT_OPTIONS)
                 []).
    reflexivity.
  - apply (proj2 (argument_loop_ends one_file) 7%nat
                 ["-n"; "10"; "--debug"; "http://localhost/"]).
    simpl. lia.
Defined.

(** X2.  When [run] calls [loadTest], the URL it passes is the last
    argument of the command line; and the last argument is never read as
    an option: after any flags, whatever comes last is taken as the URL,
    and [loadTest] is called with nothing written on the console. *)
Theorem url_is_the_last_argument (fs : string -> option string) :
  (forall args d o c,
      CommandLine.run fs args d = CommandLine.Calls o c ->
      exists pre u, args = pre ++ [u] /\ CommandLine.url o = Some u)
  /\ (forall flags u d,
         Forall (fun a => is_flag a = true) flags ->
         exists o,
           CommandLine.run fs (flags ++ [u]) d = CommandLine.Calls o []
           /\ CommandLine.url o = Some u).
Proof.
  split.
  - intros args d o c H. unfold CommandLine.run in H.
    pose proof (parseArguments_end fs (List.length args) args d []) as He.
    destruct (CommandLine.parseArguments fs (List.length args) args d [])
      as [more args' o' c' | path args' o' c']; [|discriminate].
    destruct He as (_ & (pre & Hpre) & _).
    destruct args' as [|u [|x rest]]; try discriminate.
    injection H as <- <-. exists pre, u. split; [exact Hpre | reflexivity].
  - intros flags u d Hfl. unfold CommandLine.run.
    rewrite length_app. simpl List.length.
    destruct (parseArguments_flags fs flags 1 [u] d [] Hfl) as (o' & Hrun & _);
      [discriminate|].
    rewrite Hrun, parseArguments_last.
    eexists. split; reflexivity.
Qed.

Lemma url_is_the_last_argument_witness :
  exists o,
    CommandLine.run one_file ["--quiet"; "--debug"] CommandLine.DEFAULT_OPTIONS
    = CommandLine.Calls o []
    /\ CommandLine.url o = Some "--debug".
Proof.
  apply (proj2 (url_is_the_last_argument one_file) ["--quiet"] "--debug").
  repeat constructor.
Defined.

Lemma parseArgument_flag (fs : string -> option string) (a v : string)
      (rest : list string) (o : CommandLine.Options)
      (c : list CommandLine.Console) :
  is_flag a = true ->
  exists o1,
    CommandLine.parseArgument fs (a :: v :: rest) o c
    = CommandLine.Returns true (v :: rest) o1 c
    /\ CommandLine.url o1 = CommandLine.url o.
Proof.
  intros Ha. unfold is_flag in Ha. simpl in Ha.
  unfold CommandLine.parseArgument.
  repeat match type of Ha with
         | (?b || _) = true =>
             let E := fresh "E" in
             destruct b eqn:E;
             [apply String.eqb_eq in E; subst a; simpl;
              eexists; split; reflexivity
             | simpl in Ha]
         end.
  discriminate.
Qed.

(** What an option that takes a value does with the argument after it. *)
Lemma parseArgument_value (fs : string -> option string) (a x : string)
      (rest : list string) (o : CommandLine.Options)
      (c : list CommandLine.Console) :
  takes_value a = true ->
  match CommandLine.parseArgument fs (a :: x :: rest) o c with
  | CommandLine.Returns more args' o' c' =>
      more = true /\ args' = rest /\ c' = c
      /\ CommandLine.url o' = CommandLine.url o
      /\ readable fs a x = true
  | CommandLine.Throws path args' _ c' =>
      path = x /\ args' = rest /\ c' = c /\ fs x = None
      /\ (a = "-p" \/ a = "-u")
  end.
Proof.
  intros Ha. unfold takes_value in Ha. simpl in Ha.
  repeat match type of Ha with
         | (?b || _) = true =>
             let E := fresh "E" in
             destruct b eqn:E;
             [apply String.eqb_eq in E; subst a; clear Ha | simpl in Ha]
         end;
    try discriminate; unfold readable; simpl;
    try (repeat split; reflexivity).
  - repeat split. unfold CommandLine.addCookie.
    destruct (CommandLine.cookies o); reflexivity.
  - destruct (fs x) eqn:Ef; simpl; repeat split; auto.
  - destruct (fs x) eqn:Ef; simpl; repeat split; auto.
Qed.

(** Arguments that are all options are all parsed, when something follows
    them: the loop comes to what follows with the URL untouched. *)
Lemma parseArguments_accepted (fs : string -> option string) (k : nat) :
  forall (pre : list string) (n : nat) (tail : list string)
         (o : CommandLine.Options) (c : list CommandLine.Console),
    (List.length pre <= k)%nat ->
    accepted fs pre = true ->
    tail <> [] -> (List.length tail <= n)%nat ->
    exists o',
      CommandLine.parseArguments fs (List.length pre + n) (pre ++ tail) o c
      = CommandLine.parseArguments fs n tail o' c
      /\ CommandLine.url o' = CommandLine.url o.
Proof.
  induction k as [|k IH]; intros pre n tail o c Hk Hacc Htail Hn.
  - destruct pre; [|simpl in Hk; lia]. exists o. split; reflexivity.
  - destruct pre as [|a rest]; [exists o; split; reflexivity|].
    cbn [accepted] in Hacc. destruct (is_flag a) eqn:Hf.
    + assert (Hne : rest ++ tail <> []).
      { destruct rest; [exact Htail | discriminate]. }
      destruct (rest ++ tail) as [|v rest0] eqn:E; [congruence|].
      destruct (parseArgument_flag fs a v rest0 o c Hf) as (o1 & Hstep & Hu).
      destruct (IH rest n tail o1 c) as (o' & Hrun & Hu'); try assumption.
      { simpl in Hk. lia. }
      exists o'. split; [|congruence].
      change ((a :: rest) ++ tail) with (a :: (rest ++ tail)).
      change (List.length (a :: rest) + n)%nat with (S (List.length rest + n)).
      cbn [CommandLine.parseArguments]. rewrite E, Hstep, <- E. exact Hrun.
    + destruct (takes_value a) eqn:Hv; [|discriminate].
      destruct rest as [|x rest']; [discriminate|].
      apply andb_prop in Hacc. destruct Hacc as (Hr & Hacc).
      pose proof (parseArgument_value fs a x (rest' ++ tail) o c Hv) as Hstep.
      destruct (CommandLine.parseArgument fs (a :: x :: rest' ++ tail) o c)
        as [more args1 o1 c1 | path args1 o1 c1] eqn:Ep.
      * destruct Hstep as (-> & -> & -> & Hu & _).
        destruct (IH rest' (S n) tail o1 c) as (o' & Hrun & Hu');
          try assumption.
        { simpl in Hk. lia. }
        { lia. }
        exists o'. split; [|congruence].
        change ((a :: x :: rest') ++ tail) with (a :: x :: (rest' ++ tail)).
        change (List.length (a :: x :: rest') + n)%nat
          with (S (S (List.length rest' + n))).
        transitivity (CommandLine.parseArguments fs (S (List.length rest' + n))
                        (rest' ++ tail) o1 c).
        { cbn [CommandLine.parseArguments]. rewrite Ep. reflexivity. }
        rewrite Nat.add_succ_r in Hrun. rewrite Hrun.
        apply parseArguments_turns; lia.
      * exfalso. destruct Hstep as (-> & _ & _ & Hnone & Hpu).
        unfold readable in Hr.
        destruct Hpu as [-> | ->]; simpl in Hr; rewrite Hnone in Hr;
          discriminate.
Qed.

(** X3.  An option that takes a value ([-n], [-c], [-t], [-C], [-T], [-p],
    [-u], [--rps]) consumes the argument after it, whatever that argument
    is: the call of [parseArgument] returns [true] with both taken from the
    arguments and nothing written on the console, or, for [-p] and [-u]
    when no file of that name can be read, lets the exception of the read
    through.  So when such an option stands directly before the URL at the
    end of the command line, and the arguments before it are all options
    (stand-alone flags, and options with their values, files that can be
    read for [-p] and [-u]), the URL is consumed with it and [run] never
    calls [loadTest]: it reports a missing URL and shows the usage, or,
    for [-p] and [-u], lets the exception of reading a file named as the
    URL through. *)
Theorem value_option_takes_the_url (fs : string -> option string)
        (v : string) :
  takes_value v = true ->
  (forall x rest o c,
      match CommandLine.parseArgument fs (v :: x :: rest) o c with
      | CommandLine.Returns more args' _ c' =>
          more = true /\ args' = rest /\ c' = c
      | CommandLine.Throws path args' _ c' =>
          path = x /\ args' = rest /\ c' = c /\ fs x = None
          /\ (v = "-p" \/ v = "-u")
      end)
  /\ (forall pre u d,
         accepted fs pre = true ->
         match CommandLine.run fs (pre ++ [v; u]) d with
         | CommandLine.Calls _ _ => False
         | CommandLine.Refuses o c =>
             c = [CommandLine.MissingURL; CommandLine.Usage]
             /\ CommandLine.url o = CommandLine.url d
         | CommandLine.Raises path _ _ =>
             path = u /\ fs u = None /\ (v = "-p" \/ v = "-u")
         end).
Proof.
  intros Hv. split.
  - intros x rest o c.
    pose proof (parseArgument_value fs v x rest o c Hv) as H.
    destruct (CommandLine.parseArgument fs (v :: x :: rest) o c);
      [destruct H as (H1 & H2 & H3 & _); auto | exact H].
  - intros pre u d Hacc. unfold CommandLine.run.
    rewrite length_app. simpl List.length.
    destruct (parseArguments_accepted fs (List.length pre) pre 2 [v; u] d []
                (le_n _) Hacc) as (o' & Hrun & Hu);
      [discriminate | simpl; lia |].
    rewrite Hrun. cbn [CommandLine.parseArguments].
    pose proof (parseArgument_value fs v u [] o' [] Hv) as H.
    destruct (CommandLine.parseArgument fs [v; u] o' [])
      as [more args1 o1 c1 | path args1 o1 c1].
    + destruct H as (-> & -> & -> & Hu1 & _).
      split; [reflexivity | congruence].
    + destruct H as (-> & _ & _ & Hnone & Hpu). auto.
Qed.

Lemma value_option_takes_the_url_witness :
  match CommandLine.parseArgument one_file ["-n"; "--debug"; "http://localhost/"]
                                  CommandLine.DEFAULT_OPTIONS [] with
  | CommandLine.Returns more args' _ c' =>
      more = true /\ args' = ["http://localhost/"] /\ c' = []
  | CommandLine.Throws _ _ _ _ => False
  end
  /\ match CommandLine.run one_file
             ["--debug"; "-c"; "4"; "-p"; "body.json"; "-n"; "http://localhost/"]
             CommandLine.DEFAULT_OPTIONS with
     | CommandLine.Calls _ _ => False
     | CommandLine.Refuses o c =>
         c = [CommandLine.MissingURL; CommandLine.Usage]
         /\ CommandLine.url o = None
     | CommandLine.Raises _ _ _ => False
     end.
Proof.
  destruct (value_option_takes_the_url one_file "-n" eq_refl)
    as (Hnext & Hrun).
  split.
  - exact (Hnext "--debug" ["http://localhost/"] CommandLine.DEFAULT_OPTIONS []).
  - exact (Hrun ["--debug"; "-c"; "4"; "-p"; "body.json"] "http://localhost/"
             CommandLine.DEFAULT_OPTIONS eq_refl).
Defined.



(** X5.  No argument undoes what is set: whatever the arguments, and
    however [run] ends, a flag that was set in [DEFAULT_OPTIONS] ([debug],
    [quiet], [agentKeepAlive], [recover]) is still set, [noAgent] once
    turned off stays off, and the cookies already there come first in the
    list of cookies. *)
Theorem run_undoes_nothing (fs : string -> option string) (args : list string)
        (d : CommandLine.Options) :
  keeps d (options_of (CommandLine.run fs args d)).
Proof.
  unfold CommandLine.run.
  pose proof (parseArguments_end fs (List.length args) args d []) as He.
  destruct (CommandLine.parseArguments fs (List.length args) args d [])
    as [more args' o' c' | path args' o' c'].
  - destruct He as (_ & _ & Hk & _).
    destruct args' as [|u [|x rest]]; simpl; exact Hk.
  - destruct He as (_ & Hk & _). exact Hk.
Qed.

(** X6.  From the command line a body never comes without the method that
    sends it: if that holds of [DEFAULT_OPTIONS] (as it does at first, with
    no body), then however [run] ends, a body in the options comes with the
    method POST or PUT. *)
Theorem body_comes_with_method (fs : string -> option string)
        (args : list string) (d : CommandLine.Options) :
  body_has_method d ->
  body_has_method (options_of (CommandLine.run fs args d)).
Proof.
  intros Hd. unfold CommandLine.run.
  assert (Hloop : forall n args o c,
             body_has_method o ->
             match CommandLine.parseArguments fs n args o c with
             | CommandLine.Returns _ _ o' _ => body_has_method o'
             | CommandLine.Throws _ _ o' _ => body_has_method o'
             end).
  { induction n as [|n IH]; intros args0 o c Ho; simpl; [exact Ho|].
    destruct (CommandLine.parseArgument fs args0 o c)
      as [[|] args1 o1 c1 | path args1 o1 c1] eqn:E.
    - apply parseArgument_more in E. destruct E as (_ & _ & _ & _ & Hb).
      apply IH. exact (Hb Ho).
    - apply parseArgument_stop in E. destruct E as (-> & _). exact Ho.
    - apply parseArgument_throws in E. destruct E as (_ & _ & _ & _ & _ & Hm).
      intros _. exact Hm. }
  specialize (Hloop (List.length args) args d [] Hd).
  destruct (CommandLine.parseArguments fs (List.length args) args d [])
    as [more args' o' c' | path args' o' c'].
  - destruct args' as [|u [|x rest]]; simpl; exact Hloop.
  - exact Hloop.
Qed.

Lemma body_comes_with_method_witness :
  CommandLine.body
    (options_of (CommandLine.run one_file ["-p"; "body.json"; "http://localhost/"]
                                 CommandLine.DEFAULT_OPTIONS))
  = Some "{}"
  /\ (CommandLine.method
        (options_of (CommandLine.run one_file
                       ["-p"; "body.json"; "http://localhost/"]
                       CommandLine.DEFAULT_OPTIONS)) = Some "POST"
      \/ CommandLine.method
           (options_of (CommandLine.run one_file
                          ["-p"; "body.json"; "http://localhost/"]
                          CommandLine.DEFAULT_OPTIONS)) = Some "PUT").
Proof.
  split; [reflexivity|].
  apply (body_comes_with_method one_file
           ["-p"; "body.json"; "http://localhost/"] CommandLine.DEFAULT_OPTIONS).
  - intros H. exfalso. apply H. reflexivity.
  - vm_compute. discriminate.
Defined.

Lemma length_cookie_arguments (cs : list string) :
  List.length (flat_map (fun k => ["-C"; k]) cs)
  = (List.length cs + List.length cs)%nat.
Proof. induction cs as [|k cs IH]; simpl; [reflexivity | rewrite IH; lia]. Qed.

(** X7.  Cookies given with [-C] reach [loadTest] in the order of the
    command line, after the cookies that [DEFAULT_OPTIONS] already holds:
    with the arguments [-C k1 ... -C kn URL], [run] writes nothing on the
    console and calls [loadTest] with that URL, with the cookies of
    [DEFAULT_OPTIONS] followed by [k1 ... kn], and with every other option
    as it was. *)
Theorem cookies_in_order (fs : string -> option string) (cs : list string)
        (u : string) (d : CommandLine.Options) :
  exists o,
    CommandLine.run fs (flat_map (fun k => ["-C"; k]) cs ++ [u]) d
    = CommandLine.Calls o []
    /\ given_cookies o = given_cookies d ++ cs
    /\ o = CommandLine.set_cookies (CommandLine.cookies o)
             (CommandLine.set_url (Some u) d).
Proof.
  unfold CommandLine.run.
  rewrite length_app, length_cookie_arguments, <- Nat.add_assoc.
  destruct (parseArguments_cookies fs cs (List.length cs + List.length [u])
              [u] d []) as (o' & Hrun & Hc & Hu & He).
  rewrite Hrun, parseArguments_last.
  eexists. split; [reflexivity|]. split.
  - rewrite <- Hc. reflexivity.
  - rewrite He. reflexivity.
Qed.

(** ** The books of a run *)

Lemma length_removed (index id : nat) (rs : list (nat * nat)) :
  NoDup (map snd rs) -> In (index, id) rs ->
  S (List.length (filter (fun r => negb (same_request index id r)) rs))
  = List.length rs.
Proof.
  induction rs as [|[i k] rs IH]; simpl; intros Hnd Hin; [contradiction|].
  inversion Hnd as [|? ? Hnot Hnd']; subst.
  unfold same_request at 1. simpl.
  destruct Hin as [Heq | Hin].
  - injection Heq as -> ->. rewrite !Nat.eqb_refl. simpl. f_equal.
    clear IH Hnd Hnd'.
    induction rs as [|[i' k'] rs IH]; simpl; [reflexivity|].
    unfold same_request at 1. simpl.
    destruct (Nat.eqb k' id) eqn:E.
    + apply Nat.eqb_eq in E. subst. exfalso. apply Hnot. simpl. now left.
    + rewrite andb_false_r. simpl. f_equal. apply IH.
      intros H. apply Hnot. simpl. now right.
  - destruct (Nat.eqb i index && Nat.eqb k id) eqn:E.
    + apply andb_prop in E. destruct E as [_ E2]. apply Nat.eqb_eq in E2. subst k.
      exfalso. apply Hnot. change id with (snd (index, id)).
      apply in_map. exact Hin.
    + simpl. f_equal. apply IH; assumption.
Qed.

Lemma stop_actions_final (op : Operation) (r : Results) :
  In (FinalCallback r) (stop_actions op) ->
  exists l, latency op = Some l /\ r = Latency_getResults l.
Proof.
  unfold stop_actions. intros H.
  apply in_app_or in H. destruct H as [H | H].
  { destruct (showTimer op); [destruct H as [H | []]; discriminate | contradiction]. }
  apply in_app_or in H. destruct H as [[H | []] | H]; [discriminate|].
  apply in_app_or in H. destruct H as [H | H].
  { apply in_map_iff in H. destruct H as (k & H & _). discriminate. }
  destruct (callback op); [|contradiction].
  destruct (latency op) as [l|]; [|contradiction].
  destruct H as [H | []]. injection H as <-. exists l. split; reflexivity.
Qed.

Lemma stop_actions_request (op : Operation) (i id : nat) (s : option string) :
  ~ In (HttpRequest i id s) (stop_actions op).
Proof.
  unfold stop_actions. intros H.
  apply in_app_or in H. destruct H as [H | H].
  { destruct (showTimer op); [destruct H as [H | []]; discriminate | contradiction]. }
  apply in_app_or in H. destruct H as [[H | []] | H]; [discriminate|].
  apply in_app_or in H. destruct H as [H | H].
  { apply in_map_iff in H. destruct H as (k & H & _). discriminate. }
  destruct (callback op); [|contradiction].
  destruct (latency op) as [l|]; [|contradiction].
  destruct H as [H | []]. discriminate.
Qed.

Lemma as_built_cancel (c : Client) : as_built (cancel c) = as_built c.
Proof. unfold cancel. destruct (requestTimer c); reflexivity. Qed.

Lemma turn_Complete (o : Options) (cb : bool) (w : World) (op : Operation)
      (l : Latency) (index id : nat) (c : Completion) (w' : World) :
  sound o cb w op l -> step (Complete index id c) w = Some w' ->
  exists op' l' t, turn (Complete index id c) w op l w' op' l' t.
Proof.
  intros S Hstep.
  pose proof (step_enabled _ _ _ Hstep) as En.
  destruct (Complete_effect o cb w op l index id c S En)
    as (w1 & op' & l' & Hstep' & E).
  rewrite Hstep' in Hstep. injection Hstep as <-.
  simpl in En. apply enabled_Complete_In in En.
  destruct (tracked_end w l index id (completion_code c)
              (so_tracked _ _ _ _ _ S) En) as (Hunf & _).
  pose proof (length_removed index id (inflight w)
                (tk_nodup _ _ (so_tracked _ _ _ _ _ S)) En) as Hlen.
  pose proof (lookup_In _ _ (so_inflight _ _ _ _ _ S _ En)) as Hclient.
  simpl in Hclient.
  destruct E as [Eop Elat Eopt Elog Est Edl Ector Ecb Ereq Erun Efin Eunf Enid
                 Einf Ekeys Ecl Eshow Etr].
  simpl in Eopt, Erun, Einf, Ecl, Eshow, Etr.
  rewrite Hunf in Etr. simpl in Etr.
  set (hit := reaches (options w) op) in *.
  set (go := continues (options w) op) in *.
  exists op', l',
    ((if hit then stop_actions (counted id (completion_code c) l op) else [])
     ++ (if go then [HttpRequest index (nextId l) (sent_by index (clients op))]
         else [])).
  constructor; simpl.
  - exact Eop.
  - exact Elat.
  - exact Eopt.
  - exact Etr.
  - exact Ereq.
  - rewrite Efin. unfold Latency_end. rewrite Hunf. simpl.
    rewrite length_app. simpl. lia.
  - rewrite Einf, length_app, count_app.
    assert (H0 : count is_request
                   (if hit then stop_actions (counted id (completion_code c) l op)
                    else []) = 0%nat).
    { destruct hit; [apply requests_stop_actions | reflexivity]. }
    rewrite H0. destruct go; unfold count; simpl; lia.
  - intros i k s Hin. apply in_app_or in Hin. destruct Hin as [Hin | Hin].
    + destruct hit; [|contradiction].
      exfalso. exact (stop_actions_request _ _ _ _ Hin).
    + destruct go; [|contradiction]. destruct Hin as [Heq | []].
      injection Heq as <- <- <-. unfold sent_by.
      destruct (lookup index (clients op)) as [c0|]; [|congruence].
      exists c0. split; reflexivity.
  - intros j. rewrite Ecl. destruct hit; [|reflexivity].
    destruct (lookup j (clients op)); simpl; [rewrite as_built_cancel|];
      reflexivity.
  - intros r Hin. apply in_app_or in Hin. destruct Hin as [Hin | Hin].
    + destruct hit eqn:Eh; [|contradiction].
      apply stop_actions_final in Hin. destruct Hin as (l0 & Hl0 & ->).
      unfold counted in Hl0. simpl in Hl0. injection Hl0 as <-. split.
      * unfold Latency_getResults, summary. simpl. now rewrite Efin.
      * rewrite Erun. apply andb_false_r.
    + destruct go; [|contradiction]. destruct Hin as [Heq | []]. discriminate.
  - intros Hr. rewrite Erun in Hr. apply andb_prop in Hr. tauto.
  - rewrite Eshow. destruct hit; [right | left]; reflexivity.
  - intros Hr Hr'. rewrite Eshow. rewrite Erun, Hr in Hr'. simpl in Hr'.
    destruct hit; [|discriminate]. split; [reflexivity | exact Ecl].
  - intros Hr. rewrite count_app.
    assert (H0 : count is_request
                   (if hit then stop_actions (counted id (completion_code c) l op)
                    else []) = 0%nat).
    { destruct hit; [apply requests_stop_actions | reflexivity]. }
    rewrite H0. subst go. unfold continues. fold hit. rewrite <- Erun, Hr.
    reflexivity.
Qed.

Ltac book :=
  simpl;
  try solve [ assumption | reflexivity | lia | tauto | congruence
            | symmetry; apply app_nil_r
            | unfold count; simpl; lia
            | rewrite length_app; unfold count; simpl; lia
            | left; reflexivity
            | intros ? ? ? []
            | intros ? []
            | intros ? ? ? [? | []]; discriminate
            | intros ? [? | []]; discriminate ].

Lemma turn_RequestTick (o : Options) (cb : bool) (w : World) (op : Operation)
      (l : Latency) (index : nat) (w' : World) :
  sound o cb w op l -> step (RequestTick index) w = Some w' ->
  exists op' l' t, turn (RequestTick index) w op l w' op' l' t.
Proof.
  intros S Hstep. unfold step in Hstep.
  destruct (enabled (RequestTick index) w) eqn:En; [|discriminate].
  destruct S as [Sop Slat Sopt Scb Sreq Stk Sinf Sst Sdl Srun Sfin Scl].
  simpl in En. rewrite Sop in En.
  destruct (lookup index (clients op)) as [c|] eqn:Ec; [|discriminate].
  unfold handler in Hstep.
  destruct (running op) eqn:Er.
  - rewrite (makeRequest_running index w op l c Sop Er Slat Ec) in Hstep.
    injection Hstep as <-.
    exists (with_latency (Some (snd (Latency_start l))) op),
      (snd (Latency_start l)), [HttpRequest index (nextId l) (message c)].
    constructor; book.
    intros i k s [Heq | []]. injection Heq as <- <- <-.
    exists c. split; [exact Ec | reflexivity].
  - rewrite (makeRequest_stopped index w op Sop Er) in Hstep.
    injection Hstep as <-.
    exists op, l, []. constructor; book.
Qed.

Lemma turn_DelayedStart (o : Options) (cb : bool) (w : World) (op : Operation)
      (l : Latency) (index : nat) (w' : World) :
  sound o cb w op l -> step (DelayedStart index) w = Some w' ->
  exists op' l' t, turn (DelayedStart index) w op l w' op' l' t.
Proof.
  intros S Hstep. unfold step in Hstep.
  destruct (enabled (DelayedStart index) w) eqn:En; [|discriminate].
  destruct S as [Sop Slat Sopt Scb Sreq Stk Sinf Sst Sdl Srun Sfin Scl].
  simpl in En. apply existsb_exists in En. destruct En as (i & Hin & Hi).
  apply Nat.eqb_eq in Hi. subst i.
  destruct (closed_loop w) eqn:Ecl.
  { destruct (Scl eq_refl) as (Hnil & _). rewrite Hnil in Hin. contradiction. }
  unfold closed_loop in Ecl. apply negb_false_iff in Ecl.
  destruct (lookup index (clients op)) as [c|] eqn:Ec.
  2:{ exfalso. apply (lookup_In _ _ (Sst _ Hin)). exact Ec. }
  rewrite handler_DelayedStart in Hstep.
  rewrite (Client_start_open index (started index w) op c Sop Ec Ecl) in Hstep.
  injection Hstep as <-.
  exists (with_clients
            (assign index (with_requestTimer (Some Ticking) c) (clients op)) op),
    l, [].
  constructor; book.
  intros j. rewrite lookup_assign.
  destruct (Nat.eqb index j) eqn:Eij; [|reflexivity].
  apply Nat.eqb_eq in Eij. subst j. rewrite Ec. reflexivity.
Qed.

Lemma turn_Deadline (o : Options) (cb : bool) (w : World) (op : Operation)
      (l : Latency) (w' : World) :
  sound o cb w op l -> step Deadline w = Some w' ->
  exists op' l' t, turn Deadline w op l w' op' l' t.
Proof.
  intros S Hstep. unfold step in Hstep.
  destruct (enabled Deadline w) eqn:En; [|discriminate].
  destruct S as [Sop Slat Sopt Scb Sreq Stk Sinf Sst Sdl Srun Sfin Scl].
  destruct (handler_Deadline w op Sop) as (cs' & Hh & Hk & Hlk).
  { intros _. congruence. }
  rewrite Hh in Hstep. injection Hstep as <-.
  exists (stopped op cs'), l, (stop_actions op).
  constructor; book.
  - rewrite requests_stop_actions. lia.
  - intros i k s Hin. exfalso. exact (stop_actions_request _ _ _ _ Hin).
  - intros j. rewrite Hlk.
    destruct (lookup j (clients op)); simpl; [rewrite as_built_cancel|];
      reflexivity.
  - intros r Hin. apply stop_actions_final in Hin.
    destruct Hin as (l0 & Hl0 & ->). split; [|reflexivity].
    rewrite Slat in Hl0. injection Hl0 as <-. reflexivity.
  - intros _. apply requests_stop_actions.
Qed.

Lemma turn_ShowTick (o : Options) (cb : bool) (w : World) (op : Operation)
      (l : Latency) (w' : World) :
  sound o cb w op l -> step ShowTick w = Some w' ->
  exists op' l' t, turn ShowTick w op l w' op' l' t.
Proof.
  intros S Hstep. unfold step in Hstep.
  destruct (enabled ShowTick w) eqn:En; [|discriminate].
  destruct S as [Sop Slat Sopt Scb Sreq Stk Sinf Sst Sdl Srun Sfin Scl].
  rewrite (handler_ShowTick w op l Sop Slat) in Hstep.
  injection Hstep as <-.
  exists (with_latency (Some (snd (Latency_showPartial l))) op),
    (snd (Latency_showPartial l)), [ShowPartial (fst (Latency_showPartial l))].
  constructor; book.
Qed.

(** What one turn of the loop does to the books of a sound run. *)
Lemma turn_effect (o : Options) (cb : bool) (w : World) (op : Operation)
      (l : Latency) (e : Event) (w' : World) :
  sound o cb w op l -> step e w = Some w' ->
  exists op' l' t, turn e w op l w' op' l' t.
Proof.
  intros S Hstep. destruct e as [index id c | index | index | | ].
  - exact (turn_Complete o cb w op l index id c w' S Hstep).
  - exact (turn_RequestTick o cb w op l index w' S Hstep).
  - exact (turn_DelayedStart o cb w op l index w' S Hstep).
  - exact (turn_Deadline o cb w op l w' S Hstep).
  - exact (turn_ShowTick o cb w op l w' S Hstep).
Qed.

Lemma ticking_stopped (t : option Timer) :
  ticking (option_map Timer_stop t) = false.
Proof. destruct t; reflexivity. Qed.

(** One turn of the loop keeps the books. *)
Lemma ledger_turn (ctor : Constructor) (o : Options) (e : Event) (w : World)
      (op : Operation) (l : Latency) (w' : World) (op' : Operation)
      (l' : Latency) (t : list Action) :
  ledger ctor o w op l -> turn e w op l w' op' l' t -> ledger ctor o w' op' l'.
Proof.
  intros [Lcl Lsent Ldis Lfin Lres Lshow]
         [Top Tlat Topt Ttr Treq Tfin Tinf Tsent Tcl Tres Trun Tshow Tstop
          Tquiet].
  assert (Hstep : 0 <= (if is_completion e then 1 else 0))
    by (destruct (is_completion e); lia).
  constructor.
  - intros j c Hj. specialize (Tcl j). rewrite Hj in Tcl. simpl in Tcl.
    destruct (lookup j (clients op)) as [c1|] eqn:E1; [|discriminate].
    rewrite (Lcl j c1 E1). symmetry. exact Tcl.
  - intros i id s Hin. rewrite Ttr in Hin. apply in_app_or in Hin.
    destruct Hin as [Hin | Hin]; [exact (Lsent i id s Hin)|].
    destruct (Tsent i id s Hin) as (c & Hc & ->).
    exists (as_built c). split; [exact (Lcl i c Hc) | reflexivity].
  - rewrite (dispatched_trace w w' t Ttr). lia.
  - lia.
  - intros r Hin. rewrite Ttr in Hin. apply in_app_or in Hin.
    destruct Hin as [Hin | Hin].
    + specialize (Lres r Hin). lia.
    + destruct (Tres r Hin) as (-> & _). lia.
  - intros Hr. destruct (running op) eqn:Er.
    + destruct (Tstop eq_refl Hr) as (-> & _). apply ticking_stopped.
    + destruct Tshow as [-> | ->]; [exact (Lshow eq_refl)|].
      apply ticking_stopped.
Qed.

(** The books along a run of the loop; the counter counts the completions. *)
Lemma books_run (ctor : Constructor) (o : Options) (cb : bool)
      (es : list Event) :
  forall (w : World) (op : Operation) (l : Latency) (w' : World),
    sound o cb w op l -> ledger ctor o w op l -> run es w = Some w' ->
    exists op' l',
      sound o cb w' op' l' /\ ledger ctor o w' op' l'
      /\ requests op' = requests op + Z.of_nat (completions es).
Proof.
  induction es as [|e es IH]; intros w op l w' S L Hrun; simpl in Hrun.
  - injection Hrun as <-. exists op, l.
    split; [exact S|]. split; [exact L|]. unfold completions. simpl. lia.
  - destruct (step e w) as [w1|] eqn:Hstep; [|discriminate].
    destruct (sound_step o cb w op l e w1 S Hstep) as (op1 & l1 & S1 & _).
    destruct (turn_effect o cb w op l e w1 S Hstep) as (op1' & l1' & t & T).
    assert (Hop : op1' = op1).
    { pose proof (tn_operation _ _ _ _ _ _ _ _ T) as H1.
      rewrite (so_operation _ _ _ _ _ S1) in H1. congruence. }
    subst op1'.
    assert (Hl : l1' = l1).
    { pose proof (tn_latency _ _ _ _ _ _ _ _ T) as H1.
      rewrite (so_latency _ _ _ _ _ S1) in H1. congruence. }
    subst l1'.
    pose proof (ledger_turn ctor o e w op l w1 op1 l1 t L T) as L1.
    destruct (IH w1 op1 l1 w' S1 L1 Hrun) as (op' & l' & S' & L' & Hreq).
    exists op', l'. split; [exact S'|]. split; [exact L'|].
    rewrite Hreq, (tn_requests _ _ _ _ _ _ _ _ T).
    unfold completions. simpl. destruct (is_completion e); simpl;
      fold (completions es); lia.
Qed.

(** ** The books at the launch *)

Lemma Client_new_built (ctor : Constructor) (w w1 : World) (c : Client) :
  Client_new ctor w = Ok c w1 -> built ctor (options w) = Some c.
Proof.
  unfold built, Client_new, init. plumb. destruct ctor.
  - intros H. injection H as <- <-. reflexivity.
  - destruct (truthy_body (body (options w))); plumb.
    + destruct (body (options w)); plumb; intros H;
        try discriminate; injection H as <- <-; reflexivity.
    + intros H. injection H as <- <-. reflexivity.
Qed.

(** One turn of the loop of [startClients] that returns: the client it has
    made, and the world it leaves. *)
Lemma startClients_body_Ok (o : Options) (ctor : Constructor) (cb : bool)
      (index : nat) (w : World) (op : Operation) (l : Latency) (w1 : World) :
  starting_up o ctor cb index w op l ->
  startClients_body index w = Ok tt w1 ->
  exists c,
    built ctor o = Some c /\ requestTimer c = None
    /\ w1 = (if truthy_num (requestsPerSecond o) then
               {| options := options w;
                  operation :=
                    Some (with_clients (assign index c (clients op)) op);
                  logLevel := logLevel w; inflight := inflight w;
                  starting := starting w ++ [index];
                  deadline := deadline w; trace := trace w |}
             else
               {| options := options w;
                  operation :=
                    Some (with_latency (Some (snd (Latency_start l)))
                            (with_clients (assign index c (clients op)) op));
                  logLevel := logLevel w;
                  inflight := inflight w ++ [(index, nextId l)];
                  starting := starting w; deadline := deadline w;
                  trace := trace w
                           ++ [HttpRequest index (nextId l) (message c)] |}).
Proof.
  intros S. pose proof S as S0.
  destruct S as [Sop Slat Sopt Sctor Scb Srun Sreq Sshow Skeys Stl Sdl Sfin
                 Stk Sinf Sst Scl Sopen].
  unfold startClients_body.
  unfold getOptions at 1. unfold bind at 1. rewrite Sopt.
  destruct (truthy_str (indexParam o)) eqn:Eip.
  - intros H. discriminate H.
  - unfold bind at 1. unfold ret at 1. unfold bind at 1. unfold getOp at 1.
    rewrite Sop, Sctor. unfold bind at 1.
    destruct (Client_new ctor w) as [c w2 | e w2] eqn:Enew;
      [|intros H; discriminate H].
    destruct (Client_new_Ok ctor w w2 c Enew) as [-> Hc].
    pose proof (Client_new_built ctor w w c Enew) as Hb. rewrite Sopt in Hb.
    assert (Hset : setClient index c w =
                   Ok tt {| options := options w;
                            operation :=
                              Some (with_clients (assign index c (clients op)) op);
                            logLevel := logLevel w; inflight := inflight w;
                            starting := starting w; deadline := deadline w;
                            trace := trace w |}).
    { plumb. rewrite Sop. reflexivity. }
    rewrite (bind_Ok _ _ _ _ _ Hset).
    destruct (truthy_num (requestsPerSecond o)) eqn:Erps;
      cbv beta iota delta [negb].
    + intros H. injection H as <-. exists c. split; [exact Hb|].
      split; [exact Hc | rewrite ?Sopt; reflexivity].
    + match goal with
      | |- context [Client_start index ?w2] =>
          rewrite (Client_start_closed index w2)
            by (simpl; rewrite Sopt; exact Erps);
          rewrite (makeRequest_running index w2 _ l c eq_refl Srun Slat)
            by (simpl; rewrite lookup_assign, Nat.eqb_refl; reflexivity)
      end.
      intros H. injection H as <-. exists c. split; [exact Hb|].
      split; [exact Hc | rewrite ?Sopt; reflexivity].
Qed.

Lemma as_built_new (c : Client) : requestTimer c = None -> as_built c = c.
Proof.
  intros H. unfold as_built, with_requestTimer. rewrite <- H. reflexivity.
Qed.

Lemma ledger_body (ctor : Constructor) (o : Options) (cb : bool) (index : nat)
      (w : World) (op : Operation) (l : Latency) (w1 : World)
      (op1 : Operation) (l1 : Latency) :
  starting_up o ctor cb index w op l -> ledger ctor o w op l ->
  startClients_body index w = Ok tt w1 ->
  starting_up o ctor cb (S index) w1 op1 l1 ->
  ledger ctor o w1 op1 l1.
Proof.
  intros S L Hbody S1.
  destruct (startClients_body_Ok o ctor cb index w op l w1 S Hbody)
    as (c & Hb & Hc & Hw1).
  destruct L as [Lcl Lsent Ldis Lfin Lres Lshow].
  pose proof (su_operation _ _ _ _ _ _ _ S1) as Hop1.
  pose proof (su_latency _ _ _ _ _ _ _ S1) as Hl1.
  pose proof (su_requests _ _ _ _ _ _ _ S1) as Hr1.
  pose proof (su_running _ _ _ _ _ _ _ S1) as Hrun1.
  pose proof (su_requests _ _ _ _ _ _ _ S) as Hr.
  pose proof (su_latency _ _ _ _ _ _ _ S) as Hl.
  assert (Hcl : forall j c', lookup j (assign index c (clients op)) = Some c' ->
                             built ctor o = Some (as_built c')).
  { intros j c' Hj. rewrite lookup_assign in Hj.
    destruct (Nat.eqb index j).
    - injection Hj as <-. now rewrite (as_built_new c Hc).
    - exact (Lcl j c' Hj). }
  destruct (truthy_num (requestsPerSecond o)); subst w1; simpl in Hop1;
    injection Hop1 as <-; simpl in Hl1.
  - assert (l1 = l) by congruence. subst l1.
    constructor; simpl; assumption.
  - injection Hl1 as <-.
    constructor; simpl; try assumption.
    + intros i id s Hin. apply in_app_or in Hin.
      destruct Hin as [Hin | [Heq | []]]; [exact (Lsent i id s Hin)|].
      injection Heq as <- <- <-. exists c. split; [exact Hb | reflexivity].
    + unfold dispatched in *. simpl. rewrite filter_app, !length_app. simpl. lia.
    + intros r Hin. apply in_app_or in Hin.
      destruct Hin as [Hin | [Heq | []]]; [exact (Lres r Hin) | discriminate].
Qed.

Lemma ledger_loop (ctor : Constructor) (o : Options) (cb : bool) (count : nat) :
  forall (index : nat) (w : World) (op : Operation) (l : Latency) (w' : World),
    starting_up o ctor cb index w op l -> ledger ctor o w op l ->
    startClients_loop count index w = Ok tt w' ->
    exists op' l',
      starting_up o ctor cb (index + count) w' op' l'
      /\ ledger ctor o w' op' l'.
Proof.
  induction count as [|count IH]; intros index w op l w' Hsu L Hloop.
  - simpl in Hloop. injection Hloop as <-. rewrite Nat.add_0_r.
    exists op, l. split; assumption.
  - simpl startClients_loop in Hloop. unfold bind in Hloop.
    pose proof (startClients_body_spec o ctor cb index w op l Hsu) as Hbody.
    destruct (startClients_body index w) as [[] w1 | e w1] eqn:Eb;
      [|discriminate].
    destruct Hbody as (_ & _ & op1 & l1 & S1).
    pose proof (ledger_body ctor o cb index w op l w1 op1 l1 Hsu L Eb S1) as L1.
    destruct (IH (S index) w1 op1 l1 w' S1 L1 Hloop) as (op' & l' & S' & L').
    exists op', l'. rewrite Nat.add_succ_r. split; assumption.
Qed.

Lemma ledger_fresh (o : Options) (ctor : Constructor) (cb : bool)
      (lvl : LogLevel) :
  ledger ctor o
    {| options := o;
       operation := Some {| constructor := ctor; callback := cb; running := true;
                            latency := Some Latency_new; clients := [];
                            requests := 0; showTimer := None |};
       logLevel := lvl; inflight := []; starting := []; deadline := false;
       trace := [] |}
    {| constructor := ctor; callback := cb; running := true;
       latency := Some Latency_new; clients := []; requests := 0;
       showTimer := None |}
    Latency_new.
Proof.
  constructor; simpl; try reflexivity; try discriminate.
  - intros i id s [].
  - intros r [].
Qed.

Lemma ledger_under_way (ctor : Constructor) (o : Options) (w1 : World)
      (op1 : Operation) (l1 : Latency) :
  ledger ctor o w1 op1 l1 -> running op1 = true ->
  ledger ctor o (under_way o w1 op1) (with_showTimer (Some Ticking) op1) l1.
Proof.
  intros [Lcl Lsent Ldis Lfin Lres Lshow] Hrun.
  constructor; simpl; try assumption; congruence.
Qed.

(** What [loadTest] leaves when it returns with the Operation started. *)
Lemma launched_books (o : Options) (cb : bool) (w0 : World) :
  launched o cb = Some w0 ->
  exists ctor w1 op1 l1,
    chosen o = Some ctor
    /\ starting_up (resolved o cb) ctor cb
         (iterations (concurrency (resolved o cb))) w1 op1 l1
    /\ ledger ctor (resolved o cb) w1 op1 l1
    /\ w0 = under_way (resolved o cb) w1 op1.
Proof.
  unfold launched. intros H.
  destruct (chosen o) as [ctor|] eqn:Ech.
  2:{ rewrite (loadTest_refused o cb Ech) in H. discriminate. }
  rewrite (loadTest_chosen o cb ctor Ech) in H.
  exists ctor. revert H.
  generalize (resolved o cb) as o'. intros o'.
  generalize (if debug o then DEBUG else INFO) as lvl. intros lvl.
  unfold Operation_start, fresh, startClients. plumb.
  unfold with_latency. simpl.
  destruct (startClients_loop (iterations (concurrency o')) 0 _)
    as [[] w1 | e w1] eqn:Eloop; [|discriminate].
  destruct (ledger_loop ctor o' cb (iterations (concurrency o')) 0 _ _ _ w1
              (starting_up_fresh o' ctor cb lvl) (ledger_fresh o' ctor cb lvl)
              Eloop) as (op1 & l1 & S1 & L1).
  simpl in S1.
  pose proof (su_operation _ _ _ _ _ _ _ S1) as Sop.
  pose proof (su_options _ _ _ _ _ _ _ S1) as Sopt.
  pose proof (su_deadline _ _ _ _ _ _ _ S1) as Sdl.
  rewrite Sopt.
  destruct (truthy_num (maxSeconds o')) eqn:Ems; plumb; rewrite Sop; plumb;
    intros H; injection H as <-; exists w1, op1, l1;
    (split; [reflexivity|]); (split; [exact S1|]); (split; [exact L1|]);
    unfold under_way; rewrite Ems, ?Sdl; reflexivity.
Qed.

(** The books when [loadTest] returns. *)
Lemma launched_ledger (o : Options) (cb : bool) (w0 : World) :
  launched o cb = Some w0 ->
  exists ctor op l,
    chosen o = Some ctor
    /\ set_up (resolved o cb) ctor cb w0 op l
    /\ ledger ctor (resolved o cb) w0 op l.
Proof.
  intros Hl.
  destruct (launched_books o cb w0 Hl)
    as (ctor & w1 & op1 & l1 & Hch & S1 & L1 & ->).
  destruct (launched_set_up o cb _ Hl) as (ctor' & op0 & l0 & Hch' & Hup).
  assert (ctor' = ctor) by congruence. subst ctor'.
  pose proof (up_sound _ _ _ _ _ _ Hup) as S0.
  pose proof (so_operation _ _ _ _ _ S0) as Hop0. simpl in Hop0.
  injection Hop0 as <-.
  pose proof (so_latency _ _ _ _ _ S0) as Hl0. simpl in Hl0.
  rewrite (su_latency _ _ _ _ _ _ _ S1) in Hl0. injection Hl0 as <-.
  exists ctor, (with_showTimer (Some Ticking) op1), l1.
  split; [exact Hch|]. split; [exact Hup|].
  exact (ledger_under_way ctor _ w1 op1 l1 L1 (su_running _ _ _ _ _ _ _ S1)).
Qed.

(** The books of every world of a run. *)
Lemma after_books (o : Options) (cb : bool) (es : list Event) (w : World) :
  after o cb es = Some w ->
  exists ctor op l,
    chosen o = Some ctor
    /\ sound (resolved o cb) cb w op l
    /\ ledger ctor (resolved o cb) w op l
    /\ requests op = Z.of_nat (completions es)
    /\ keys (clients op) = seq 0 (iterations (concurrency (resolved o cb))).
Proof.
  unfold after. intros H.
  destruct (launched o cb) as [w0|] eqn:Hl; [|discriminate].
  destruct (launched_ledger o cb w0 Hl) as (ctor & op0 & l0 & Hch & Hup & L0).
  pose proof (up_sound _ _ _ _ _ _ Hup) as S0.
  destruct (books_run ctor _ cb es _ _ _ w S0 L0 H) as (op & l & S & L & Hreq).
  destruct (sound_run _ cb es _ _ _ w S0 H) as (op' & l' & S' & Hk & _).
  assert (op' = op)
    by (pose proof (so_operation _ _ _ _ _ S');
        pose proof (so_operation _ _ _ _ _ S); congruence).
  subst op'.
  exists ctor, op, l. split; [exact Hch|]. split; [exact S|]. split; [exact L|].
  split.
  - rewrite Hreq, (up_requests _ _ _ _ _ _ Hup). lia.
  - rewrite Hk. exact (up_clients _ _ _ _ _ _ Hup).
Qed.

(** ** The engine: what [loadTest] refuses *)

(** X8.  A URL that starts neither with [ws://] nor with [http] is refused:
    [loadTest] shows the usage (for the empty string it reports a missing
    URL) and returns.  It leaves the options as they were, creates no
    Operation, and nothing is pending: no event can be delivered. *)
Theorem unsupported_url_refused (o : Options) (cb : bool) (u : string) :
  url o = Some u ->
  prefix "ws://" u = false -> prefix "http" u = false ->
  exists w,
    loadTest cb (boot o) = Ok tt w
    /\ trace w = [if nonempty u then Help else LogError "Missing URL in options"]
    /\ operation w = None
    /\ options w = o
    /\ inflight w = [] /\ starting w = [] /\ deadline w = false
    /\ launched o cb = None
    /\ forall e, step e w = None.
Proof.
  intros Hurl Hws Hhttp.
  assert (Hch : chosen o = None).
  { unfold chosen. rewrite Hurl. simpl. rewrite Hws, Hhttp.
    destruct (nonempty u); reflexivity. }
  pose proof (loadTest_refused o cb Hch) as Hrun.
  rewrite Hurl in Hrun. simpl in Hrun.
  eexists. split; [exact Hrun|].
  repeat split.
  - unfold launched. now rewrite Hrun.
  - intros e. unfold step. destruct e; reflexivity.
Qed.

Lemma unsupported_url_refused_witness :
  exists w,
    loadTest false
      (boot (set_url (Some "wss://localhost:8080/")
                     (localhost Absent Absent Absent Absent))) = Ok tt w
    /\ trace w = [Help]
    /\ operation w = None
    /\ options w = set_url (Some "wss://localhost:8080/")
                           (localhost Absent Absent Absent Absent)
    /\ inflight w = [] /\ starting w = [] /\ deadline w = false
    /\ launched (set_url (Some "wss://localhost:8080/")
                         (localhost Absent Absent Absent Absent)) false = None
    /\ forall e, step e w = None.
Proof.
  exact (unsupported_url_refused
           (set_url (Some "wss://localhost:8080/")
                    (localhost Absent Absent Absent Absent))
           false "wss://localhost:8080/" eq_refl eq_refl eq_refl).
Defined.

(** X9.  Take options with a URL that starts with [http], a truthy body
    that is neither a string nor an object (a number, say), no [indexParam]
    (with one, [startClients] throws before [init] runs) and a concurrency
    that is not negative (so that a client is asked for).  Then the first
    HTTP client cannot be built: [init] logs the type of the body and then
    reads the length of the message it has not set, so [loadTest] throws a
    TypeError.  No client is registered and no request sent; the Operation
    never starts. *)
Theorem unrecognized_body_raises (o : Options) (cb : bool) (t : string) :
  chosen o = Some HttpClient ->
  body o = BodyOther t ->
  truthy_str (indexParam o) = false ->
  (forall z, concurrency o = Num z -> 0 <= z) ->
  exists msg w,
    loadTest cb (boot o) = Throw (TypeError msg) w
    /\ trace w = [LogError ("Unrecognized body: " ++ t)%string]
    /\ created w = [] /\ inflight w = [] /\ starting w = []
    /\ dispatched w = 0%nat
    /\ launched o cb = None.
Proof.
  intros Hch Hbody Hip Hconc.
  assert (Hpos : exists n, iterations (concurrency (resolved o cb)) = S n).
  { destruct (resolved_fields o cb) as (_ & _ & _ & _ & _ & ->).
    unfold or_num, truthy_num. destruct (concurrency o) as [| |z] eqn:Ec.
    - exists 0%nat. reflexivity.
    - exists 0%nat. reflexivity.
    - specialize (Hconc z eq_refl).
      destruct (Z.eqb_spec z 0) as [-> | Hz]; simpl.
      + exists 0%nat. reflexivity.
      + exists (Nat.pred (Z.to_nat z)). lia. }
  destruct Hpos as (n & Hn).
  unfold launched. rewrite (loadTest_chosen o cb HttpClient Hch).
  destruct (resolved_fields o cb) as (_ & _ & _ & Hip' & Hbody' & _).
  rewrite <- Hip' in Hip. rewrite <- Hbody' in Hbody.
  revert Hn Hip Hbody. generalize (resolved o cb) as o'. intros o' Hn Hip Hbody.
  unfold Operation_start, fresh, startClients. plumb. rewrite Hn.
  simpl startClients_loop. unfold startClients_body, Client_new, init. plumb.
  rewrite Hip. plumb. rewrite Hbody. plumb.
  eexists _, _. split; [reflexivity|]. repeat split.
Qed.

Lemma unrecognized_body_raises_witness :
  exists msg w,
    loadTest true (boot numeric_body) = Throw (TypeError msg) w
    /\ trace w = [LogError "Unrecognized body: number"]
    /\ created w = [] /\ inflight w = [] /\ starting w = []
    /\ dispatched w = 0%nat
    /\ launched numeric_body true = None.
Proof.
  apply (unrecognized_body_raises numeric_body true "number");
    try reflexivity.
  intros z H. injection H as <-. lia.
Defined.

(** ** The engine: what the clients send *)

(** The HTTP client [init] builds. *)
Lemma built_http (o : Options) (c : Client) :
  built HttpClient o = Some c ->
  message c = payload o
  /\ exists ro,
       requestOptions c = Some ro
       /\ target ro = url o
       /\ (forall m, payload o = Some m ->
                     In ("Content-Length", HNum (Z.of_nat (js_length m)))
                        (headers ro))
       /\ (forall cs, cookies o = Some cs ->
                      In ("Set-Cookie", HList cs) (headers ro)).
Proof.
  unfold built, Client_new, init, payload. plumb.
  destruct (body o) as [|s|json|t] eqn:Eb; simpl.
  - intros H. injection H as <-. simpl. split; [reflexivity|].
    eexists. split; [reflexivity|]. split; [reflexivity|]. split.
    + discriminate.
    + intros cs ->. simpl. now left.
  - destruct (nonempty s); plumb; intros H; injection H as <-; simpl;
      (split; [reflexivity|]); eexists; (split; [reflexivity|]);
      (split; [reflexivity|]); split.
    + intros m Hm. injection Hm as <-.
      destruct (cookies o); simpl; now left.
    + intros cs ->. simpl. right. right. now left.
    + discriminate.
    + intros cs ->. simpl. now left.
  - intros H. injection H as <-. simpl. split; [reflexivity|].
    eexists. split; [reflexivity|]. split; [reflexivity|]. split.
    + intros m Hm. injection Hm as <-.
      destruct (cookies o); simpl; now left.
    + intros cs ->. simpl. right. right. now left.
  - discriminate.
Qed.

(** X10.  In a run against an HTTP URL every client is as [init] built it
    from the options, and stays so: its message is the body (the string
    itself, or the JSON text of the object), its request is for the URL of
    the options, with [message.length], the number of UTF-16 code units of
    the message, as Content-Length (for a body that is not ASCII this is
    not its number of bytes) and the cookies in one Set-Cookie header; and
    every request handed to the transport carries that message. *)
Theorem requests_carry_the_body (o : Options) (cb : bool) (es : list Event)
        (w : World) :
  after o cb es = Some w ->
  chosen o = Some HttpClient ->
  (forall index id sent,
      In (HttpRequest index id sent) (trace w) -> sent = payload o)
  /\ (forall index c,
         client index w = Some c ->
         message c = payload o
         /\ exists ro,
              requestOptions c = Some ro
              /\ target ro = url o
              /\ (forall m, payload o = Some m ->
                            In ("Content-Length",
                                HNum (Z.of_nat (js_length m)))
                               (headers ro))
              /\ (forall cs, cookies o = Some cs ->
                             In ("Set-Cookie", HList cs) (headers ro))).
Proof.
  intros Hafter Hch.
  destruct (after_books o cb es w Hafter)
    as (ctor & op & l & Hch' & S & L & _).
  assert (ctor = HttpClient) by congruence. subst ctor.
  assert (Hpay : payload (resolved o cb) = payload o).
  { unfold payload. destruct (resolved_fields o cb) as (_ & _ & _ & _ & -> & _).
    reflexivity. }
  assert (Hurl : url (resolved o cb) = url o)
    by (unfold resolved; destruct cb; reflexivity).
  assert (Hck : cookies (resolved o cb) = cookies o)
    by (unfold resolved; destruct cb; reflexivity).
  split.
  - intros index id sent Hin.
    destruct (lg_sent _ _ _ _ _ L index id sent Hin) as (c & Hb & ->).
    destruct (built_http _ c Hb) as (Hm & _). congruence.
  - intros index c Hc. unfold client in Hc.
    rewrite (so_operation _ _ _ _ _ S) in Hc.
    pose proof (lg_clients _ _ _ _ _ L index c Hc) as Hb.
    destruct (built_http _ _ Hb) as (Hm & ro & Hro & Ht & Hlen & Hcs).
    split; [simpl in Hm; congruence|].
    exists ro. split; [exact Hro|]. split; [congruence|]. split.
    + intros m Hp. apply Hlen. congruence.
    + intros cs Hc'. apply Hcs. congruence.
Qed.

Lemma requests_carry_the_body_witness :
  after posting false [Complete 0 0 (ResponseEnded 200)] = Some posted
  /\ trace posted = [HttpRequest 0 0 (Some ("total=5" ++ euro)%string);
                     HttpRequest 0 1 (Some ("total=5" ++ euro)%string)]
  /\ String.length ("total=5" ++ euro) = 10%nat
  /\ (forall index id sent,
         In (HttpRequest index id sent) (trace posted) ->
         sent = Some ("total=5" ++ euro)%string)
  /\ (forall c,
         client 0 posted = Some c ->
         message c = Some ("total=5" ++ euro)%string
         /\ exists ro,
              requestOptions c = Some ro
              /\ target ro = Some "http://localhost:8080/"
              /\ In ("Content-Length", HNum 8) (headers ro)
              /\ In ("Set-Cookie", HList ["session=1"]) (headers ro)).
Proof.
  split; [reflexivity|]. split; [reflexivity|]. split; [reflexivity|].
  destruct (requests_carry_the_body
              posting false [Complete 0 0 (ResponseEnded 200)] posted
              eq_refl eq_refl) as (Hsent & Hclient).
  split; [exact Hsent|].
  intros c Hc. destruct (Hclient 0%nat c Hc) as (Hm & ro & Hro & Ht & Hlen & Hcs).
  split; [exact Hm|]. exists ro. split; [exact Hro|]. split; [exact Ht|].
  split; [exact (Hlen ("total=5" ++ euro)%string eq_refl)
         | exact (Hcs ["session=1"] eq_refl)].
Defined.

(** ** The engine: the books of a run *)

(** X11.  The books of a run balance in every world it goes through: the
    requests handed to the transport are those still in flight and those
    completed; the completed-request counter is the number of completions
    delivered so far, whether the Operation was running or not when they
    came (so it goes past [maxRequests] when requests were in flight at the
    stop); and the latency tracker has finalized one record for each. *)
Theorem requests_conserved (o : Options) (cb : bool) (es : list Event)
        (w : World) :
  after o cb es = Some w ->
  Z.of_nat (dispatched w)
  = Z.of_nat (List.length (inflight w)) + completed_count w
  /\ completed_count w = Z.of_nat (completions es)
  /\ recorded w = completions es.
Proof.
  intros Hafter.
  destruct (after_books o cb es w Hafter) as (ctor & op & l & _ & S & L & Hreq & _).
  unfold completed_count, recorded.
  rewrite (so_operation _ _ _ _ _ S), (so_latency _ _ _ _ _ S).
  split; [exact (lg_dispatched _ _ _ _ _ L)|]. split; [exact Hreq|].
  pose proof (lg_finished _ _ _ _ _ L). lia.
Qed.

Lemma requests_conserved_witness :
  after two_clients true
        [Complete 0 0 (ResponseEnded 200); Complete 1 1 (ResponseEnded 500);
         Complete 0 2 (RequestFailed "ECONNRESET");
         Complete 1 3 (ResponseEnded 200); Deadline] = Some all_over
  /\ dispatched all_over = 4%nat
  /\ inflight all_over = []
  /\ completed_count all_over = 4
  /\ recorded all_over = 4%nat.
Proof.
  split; [reflexivity|].
  destruct (requests_conserved two_clients true
              [Complete 0 0 (ResponseEnded 200); Complete 1 1 (ResponseEnded 500);
               Complete 0 2 (RequestFailed "ECONNRESET");
               Complete 1 3 (ResponseEnded 200); Deadline] all_over eq_refl)
    as (Hd & Hc & Hr).
  split; [|split; [reflexivity|split; [exact Hc | exact Hr]]].
  apply Nat2Z.inj. rewrite Hd, Hc. reflexivity.
Defined.

(** X12.  The results given to the final callback count the requests
    completed when the Operation stops: in the turn of the loop that calls
    the callback, the Operation is stopped, and the total of the results is
    the completed-request counter; the requests still in flight are not in
    it. *)
Theorem final_results_count (o : Options) (cb : bool) (es : list Event)
        (w : World) (e : Event) (w' : World) :
  after o cb es = Some w ->
  step e w = Some w' ->
  exists t,
    trace w' = trace w ++ t
    /\ forall r,
         In (FinalCallback r) t ->
         is_running w' = false
         /\ Z.of_nat (totalRequests r) = completed_count w'
         /\ Z.of_nat (totalRequests r) + Z.of_nat (List.length (inflight w'))
            = Z.of_nat (dispatched w').
Proof.
  intros Hafter Hstep.
  destruct (after_books o cb es w Hafter) as (ctor & op & l & _ & S & L & _).
  destruct (turn_effect _ cb w op l e w' S Hstep) as (op' & l' & t & T).
  pose proof (ledger_turn ctor _ e w op l w' op' l' t L T) as L'.
  exists t. split; [exact (tn_trace _ _ _ _ _ _ _ _ T)|].
  intros r Hin. destruct (tn_results _ _ _ _ _ _ _ _ T r Hin) as (Hr & Hstop).
  unfold is_running, completed_count.
  rewrite (tn_operation _ _ _ _ _ _ _ _ T).
  pose proof (lg_finished _ _ _ _ _ L') as Hf.
  pose proof (lg_dispatched _ _ _ _ _ L') as Hd.
  split; [exact Hstop|]. rewrite Hr. split; lia.
Qed.

Lemma final_results_count_witness :
  step (Complete 0 2 (RequestFailed "ECONNRESET")) two_completed
  = Some three_completed
  /\ In (FinalCallback {| totalRequests := 3; totalErrors := 2 |})
        (trace three_completed)
  /\ exists t,
       trace three_completed = trace two_completed ++ t
       /\ forall r,
            In (FinalCallback r) t ->
            is_running three_completed = false
            /\ Z.of_nat (totalRequests r) = 3
            /\ Z.of_nat (totalRequests r) + 1 = 4.
Proof.
  split; [reflexivity|]. split; [simpl; tauto|].
  exact (final_results_count two_clients true
           [Complete 0 0 (ResponseEnded 200); Complete 1 1 (ResponseEnded 500)]
           two_completed (Complete 0 2 (RequestFailed "ECONNRESET"))
           three_completed eq_refl eq_refl).
Defined.

(** ** The engine: timers *)




Lemma ticking_cancel (c : Client) : ticking (requestTimer (cancel c)) = false.
Proof. unfold cancel. destruct (requestTimer c) eqn:E; simpl; now rewrite ?E. Qed.

(** X14.  The turn of the loop that stops the Operation ends the timers
    that are running: after it neither the show timer nor the request timer
    of any client ticks.  The show timer never ticks again in the rest of
    the run. *)
Theorem stop_cancels_timers (o : Options) (cb : bool) (es : list Event)
        (w : World) :
  after o cb es = Some w ->
  (is_running w = false -> enabled ShowTick w = false)
  /\ (forall e w',
         step e w = Some w' ->
         is_running w = true -> is_running w' = false ->
         enabled ShowTick w' = false
         /\ forall j, enabled (RequestTick j) w' = false).
Proof.
  intros Hafter.
  destruct (after_books o cb es w Hafter) as (ctor & op & l & _ & S & L & _).
  split.
  - unfold is_running. simpl. rewrite (so_operation _ _ _ _ _ S).
    exact (lg_showTimer _ _ _ _ _ L).
  - intros e w' Hstep Hr Hr'.
    destruct (turn_effect _ cb w op l e w' S Hstep) as (op' & l' & t & T).
    unfold is_running in Hr, Hr'.
    rewrite (so_operation _ _ _ _ _ S) in Hr.
    rewrite (tn_operation _ _ _ _ _ _ _ _ T) in Hr'.
    destruct (tn_stopping _ _ _ _ _ _ _ _ T Hr Hr') as (Hshow & Hcl).
    simpl. rewrite (tn_operation _ _ _ _ _ _ _ _ T). split.
    + rewrite Hshow. apply ticking_stopped.
    + intros j. rewrite Hcl.
      destruct (lookup j (clients op)); simpl; [apply ticking_cancel | reflexivity].
Qed.

Lemma stop_cancels_timers_witness :
  enabled ShowTick three_completed = false
  /\ forall j, enabled (RequestTick j) three_completed = false.
Proof.
  exact (proj2 (stop_cancels_timers two_clients true
                  [Complete 0 0 (ResponseEnded 200);
                   Complete 1 1 (ResponseEnded 500)] two_completed eq_refl)
               (Complete 0 2 (RequestFailed "ECONNRESET")) three_completed
               eq_refl eq_refl eq_refl).
Defined.

(** X15.  [stop] does not cancel the delayed start of a client: when it
    fires after the Operation has stopped, the client still starts its
    request timer, and nothing stops that timer any more.  Its ticks find
    the Operation stopped and send nothing, each leaving the world as it
    was, so the timer goes on ticking. *)
Theorem late_start_leaves_a_timer (o : Options) (cb : bool) (es : list Event)
        (w : World) (j : nat) :
  after o cb es = Some w ->
  is_running w = false ->
  In j (starting w) ->
  exists w',
    step (DelayedStart j) w = Some w'
    /\ is_running w' = false
    /\ dispatched w' = dispatched w
    /\ enabled (RequestTick j) w' = true
    /\ step (RequestTick j) w' = Some w'.
Proof.
  intros Hafter Hrun Hj.
  destruct (after_books o cb es w Hafter) as (ctor & op & l & _ & S & L & _).
  destruct S as [Sop Slat Sopt Scb Sreq Stk Sinf Sst Sdl Srun Sfin Scl].
  unfold is_running in Hrun. rewrite Sop in Hrun.
  destruct (closed_loop w) eqn:Ecl.
  { destruct (Scl eq_refl) as (Hnil & _). rewrite Hnil in Hj. contradiction. }
  unfold closed_loop in Ecl. apply negb_false_iff in Ecl.
  destruct (lookup j (clients op)) as [c|] eqn:Ec.
  2:{ exfalso. exact (lookup_In _ _ (Sst _ Hj) Ec). }
  assert (En : enabled (DelayedStart j) w = true).
  { simpl. apply existsb_exists. exists j. split; [exact Hj | apply Nat.eqb_refl]. }
  unfold step at 1. rewrite En, handler_DelayedStart.
  rewrite (Client_start_open j (started j w) op c Sop Ec Ecl).
  set (op' := with_clients
                (assign j (with_requestTimer (Some Ticking) c) (clients op)) op).
  set (w' := {| options := options w; operation := Some op';
                logLevel := logLevel w; inflight := inflight w;
                starting := starting (started j w); deadline := deadline w;
                trace := trace w |}).
  exists w'. split; [reflexivity|].
  assert (En' : enabled (RequestTick j) w' = true).
  { simpl. now rewrite lookup_assign, Nat.eqb_refl. }
  split; [exact Hrun|]. split; [reflexivity|]. split; [exact En'|].
  unfold step. rewrite En'. unfold handler.
  rewrite (makeRequest_stopped j w' op' eq_refl Hrun). reflexivity.
Qed.

Lemma late_start_leaves_a_timer_witness :
  after hasty false
        [DelayedStart 0; RequestTick 0; Complete 0 0 (ResponseEnded 200)]
  = Some hasty_stopped
  /\ is_running hasty_stopped = false
  /\ starting hasty_stopped = [1%nat]
  /\ exists w',
       step (DelayedStart 1) hasty_stopped = Some w'
       /\ is_running w' = false
       /\ dispatched w' = dispatched hasty_stopped
       /\ enabled (RequestTick 1) w' = true
       /\ step (RequestTick 1) w' = Some w'.
Proof.
  split; [reflexivity|]. split; [reflexivity|]. split; [reflexivity|].
  exact (late_start_leaves_a_timer hasty false
           [DelayedStart 0; RequestTick 0; Complete 0 0 (ResponseEnded 200)]
           hasty_stopped 1 eq_refl eq_refl (or_introl eq_refl)).
Defined.

(** ** The engine: how many requests a closed-loop run sends *)









(** ** The engine: the run as a whole *)

Lemma built_kind (ctor : Constructor) (o : Options) (c : Client) :
  built ctor o = Some c -> kind c = ctor.
Proof.
  unfold built, Client_new, init. plumb. destruct ctor.
  - intros H. injection H as <-. reflexivity.
  - destruct (truthy_body (body o)); plumb.
    + destruct (body o); plumb; intros H;
        try discriminate; injection H as <-; reflexivity.
    + intros H. injection H as <-. reflexivity.
Qed.

(** X17.  What [loadTest] sets up stays as it is for the whole run.  The
    options object is the one [loadTest] was given, with [concurrency] set
    to 1 when it was absent, null or 0, and [quiet] set when there is a
    callback; no turn of the loop changes it.  The clients are those that
    [startClients] created, one for each index below [concurrency], all of
    the kind chosen for the URL; none is added or removed. *)
Theorem run_keeps_its_setup (o : Options) (cb : bool) (es : list Event)
        (w : World) :
  after o cb es = Some w ->
  options w = resolved o cb
  /\ created w = seq 0 (iterations (or_num (concurrency o) (Num 1)))
  /\ exists ctor,
       chosen o = Some ctor
       /\ forall index c, client index w = Some c -> kind c = ctor.
Proof.
  intros Hafter.
  destruct (after_books o cb es w Hafter)
    as (ctor & op & l & Hch & S & L & _ & Hk).
  split; [exact (so_options _ _ _ _ _ S)|]. split.
  - unfold created. rewrite (so_operation _ _ _ _ _ S), Hk.
    destruct (resolved_fields o cb) as (_ & _ & _ & _ & _ & ->). reflexivity.
  - exists ctor. split; [exact Hch|].
    intros index c Hc. unfold client in Hc.
    rewrite (so_operation _ _ _ _ _ S) in Hc.
    exact (built_kind _ _ _ (lg_clients _ _ _ _ _ L index c Hc)).
Qed.

Lemma run_keeps_its_setup_witness :
  options all_over = set_quiet true two_clients
  /\ created all_over = [0%nat; 1%nat]
  /\ exists ctor,
       chosen two_clients = Some ctor
       /\ forall index c, client index all_over = Some c -> kind c = ctor.
Proof.
  exact (run_keeps_its_setup two_clients true
           [Complete 0 0 (ResponseEnded 200); Complete 1 1 (ResponseEnded 500);
            Complete 0 2 (RequestFailed "ECONNRESET");
            Complete 1 3 (ResponseEnded 200); Deadline] all_over eq_refl).
Defined.


